(** * Session migration between workspace stores (src/core/migrate.ts)

    A shallow embedding of the migration core of the chat-history tool:
    [generateSessionId], [copyBubbleDataInGlobalStorage], [migrateSession],
    [migrateSessions] and [migrateWorkspace] of [src/core/migrate.ts],
    together with [normalizePath], [pathsEqual], [expandPath] and
    [contractPath] of [src/lib/platform.ts], the error classes of
    [src/lib/errors.ts], and [truncate] and [padRight] of
    [src/cli/formatters/table.ts].

    The program is effectful: it reads and rewrites SQLite key-value stores
    and draws random numbers.  The embedding threads an explicit [World]
    through a small state-and-exception monad, so that every thrown error and
    every store write of the TypeScript code is visible in the model. *)

From Stdlib Require Import ZArith Ascii String List Bool Lia.
From stdpp Require Import base option list strings gmap fin_maps pretty.

Local Open Scope string_scope.

(** ** JSON values

    Everything the stores hold is JSON text; the code only ever sees it
    through [JSON.parse] and writes it back through [JSON.stringify].  The
    model identifies a JSON text with the value it parses to.  Numbers are
    kept as integers: the migration code never computes with them, it only
    tests them for truthiness. *)

#[warnings="-register-all"]
Inductive json : Type :=
  | JNull
  | JBool (b : bool)
  | JNum (n : Z)
  | JStr (s : string)
  | JArr (items : list json)
  | JObj (fields : list (string * json)).

(** A JSON object as an ordered field list, the way [JSON.parse] builds it. *)
Definition JObject : Type := list (string * json).

(** [obj.name]: the value of an own property, [None] for [undefined]. *)
Fixpoint getField (name : string) (o : JObject) : option json :=
  match o with
  | [] => None
  | (k, v) :: rest => if String.eqb k name then Some v else getField name rest
  end.

(** [obj.name = v]: an existing property keeps its position, a new one is
    added last. *)
Fixpoint setField (name : string) (v : json) (o : JObject) : JObject :=
  match o with
  | [] => [(name, v)]
  | (k, x) :: rest =>
      if String.eqb k name then (k, v) :: rest
      else (k, x) :: setField name v rest
  end.

(** JavaScript truthiness of a parsed JSON value. *)
Definition truthy (j : json) : bool :=
  match j with
  | JNull => false
  | JBool b => b
  | JNum n => negb (Z.eqb n 0)
  | JStr s => negb (String.eqb s "")
  | JArr _ => true
  | JObj _ => true
  end.

(** ** Strings *)

Definition colon : ascii := ":"%char.

(** [s.split(c)]: always at least one part. *)
Fixpoint split (c : ascii) (s : string) : list string :=
  match s with
  | EmptyString => [EmptyString]
  | String a rest =>
      if Ascii.eqb a c then EmptyString :: split c rest
      else match split c rest with
           | [] => [String a EmptyString]
           | p :: ps => String a p :: ps
           end
  end.

Fixpoint containsChar (c : ascii) (s : string) : bool :=
  match s with
  | EmptyString => false
  | String a rest => Ascii.eqb a c || containsChar c rest
  end.

Definition startsWithChar (c : ascii) (s : string) : bool :=
  match s with
  | String a _ => Ascii.eqb a c
  | EmptyString => false
  end.

(** [s.slice(1)] *)
Definition slice1 (s : string) : string :=
  match s with
  | String _ rest => rest
  | EmptyString => EmptyString
  end.

(** The loop [while (s.length > 1 && s.endsWith(c)) s = s.slice(0, -1)],
    run on the reversed character list: the condition reads "at least two
    characters and the first one is [c]". *)
Fixpoint dropLeading (c : ascii) (l : list ascii) : list ascii :=
  match l with
  | a :: ((_ :: _) as tl) => if Ascii.eqb a c then dropLeading c tl else l
  | _ => l
  end.

Definition stripTrailing (c : ascii) (s : string) : string :=
  string_of_list_ascii (rev (dropLeading c (rev (list_ascii_of_string s)))).

(** ASCII case folding, as SQLite's LIKE applies it. *)
Definition asciiLower (a : ascii) : ascii :=
  let n := nat_of_ascii a in
  if (65 <=? n)%nat && (n <=? 90)%nat then ascii_of_nat (n + 32) else a.

Definition eqNoCase (a b : ascii) : bool :=
  Ascii.eqb (asciiLower a) (asciiLower b).

(** SQLite's [text LIKE pattern] with its defaults: [%] matches any run of
    characters, [_] any single character, letters compare without case. *)
Fixpoint like (pattern text : string) : bool :=
  match pattern with
  | EmptyString =>
      match text with EmptyString => true | _ => false end
  | String p pattern' =>
      if Ascii.eqb p "%"%char then
        (fix star (t : string) : bool :=
           like pattern' t ||
           match t with
           | EmptyString => false
           | String _ t' => star t'
           end) text
      else
        match text with
        | EmptyString => false
        | String a text' =>
            (Ascii.eqb p "_"%char || eqNoCase p a) && like pattern' text'
        end
  end.

(** ** The host platform (src/lib/platform.ts)

    [process.platform], [os.homedir()], [path.join] and
    [String.prototype.toLowerCase] belong to the runtime, not to this
    repository; the model takes them as a record. *)

Record Host : Type := mkHost {
  isWin32 : bool;
  homedir : string;
  join : string -> string -> string;
  toLowerCase : string -> string
}.

Section Platform.
Context (host : Host).

Definition normalizePath (filePath : string) : string :=
  let normalized :=
    if startsWithChar "~"%char filePath
    then join host (homedir host) (slice1 filePath)
    else filePath in
  let normalized := stripTrailing "/"%char normalized in
  let normalized := stripTrailing "\"%char normalized in
  normalized.

Definition pathsEqual (path1 path2 : string) : bool :=
  let normalized1 := normalizePath path1 in
  let normalized2 := normalizePath path2 in
  if isWin32 host
  then String.eqb (toLowerCase host normalized1) (toLowerCase host normalized2)
  else String.eqb normalized1 normalized2.

End Platform.

(** [s.slice(n)] for a count [n]: [s] without its first [n] characters. *)
Fixpoint sliceFrom (n : nat) (s : string) : string :=
  match n, s with
  | O, _ => s
  | S n', String _ rest => sliceFrom n' rest
  | S _, EmptyString => EmptyString
  end.

Section HomeDirectory.
Context (host : Host).

(** Expand [~] to the home directory. *)
Definition expandPath (path : string) : string :=
  if startsWithChar "~"%char path
  then join host (homedir host) (slice1 path)
  else path.

(** Replace the home directory by [~]; [path.startsWith(home)] is a test
    on characters, not on path components. *)
Definition contractPath (path : string) : string :=
  let home := homedir host in
  if String.prefix home path
  then ("~" ++ sliceFrom (String.length home) path)%string
  else path.

End HomeDirectory.

(** ** Errors (src/lib/errors.ts)

    Everything the migration code throws or catches.  [JsError] stands for a
    plain [Error], a [TypeError] of the runtime or an error of the SQLite
    driver; only its message is observable.  The arguments are carried as
    the migration passes them: the identifier of [SessionNotFoundError] is
    always the session id, a string (the class also takes a number, which
    its message shows as text), and the session count is an array length. *)

Inductive Thrown : Type :=
  | SessionNotFoundError (identifier : string)
  | WorkspaceNotFoundError (path : string)
  | SameWorkspaceError (path : string)
  | NoSessionsFoundError (path : string)
  | DestinationHasSessionsError (path : string) (sessionCount : nat)
  | DatabaseLockedError (path : string)
  | JsError (message : string).

(** [error.message], as the constructors pass it to [super]. *)
Definition errorMessage (e : Thrown) : string :=
  match e with
  | SessionNotFoundError identifier =>
      "Session not found: " ++ identifier ++
      ". Use 'cursor-history list' to see available sessions."
  | WorkspaceNotFoundError path =>
      "No workspace found for path: " ++ path ++
      ". Please open the project in Cursor first."
  | SameWorkspaceError path =>
      "Source and destination are the same: " ++ path
  | NoSessionsFoundError path =>
      "No sessions found for workspace: " ++ path ++
      ". Use 'cursor-history list --workspace " ++ String "034"%char path ++
      String "034"%char "' to verify."
  | DestinationHasSessionsError path sessionCount =>
      "Destination already has " ++ pretty sessionCount ++ " session(s): " ++
      path ++ ". " ++
      "Use --force to proceed (will add sessions alongside existing ones)."
  | DatabaseLockedError path =>
      "Database is locked: " ++ path ++ ". Close Cursor or retry later."
  | JsError message => message
  end.

(** ** Stores and the world *)

(** What [getComposerData] returns for a store whose array key is present:
    the records, and the wire shape the array was found in. *)
Record ComposerData : Type := mkComposerData {
  composers : list JObject;
  isNewFormat : bool;
  rawData : option json
}.

(** One workspace store file ([state.vscdb]).  [locked]: the host
    application holds the file, opening it for writing fails.  [readOnly]:
    the file opens but refuses writes. *)
Record Database : Type := mkDatabase {
  composerData : option ComposerData;
  locked : bool;
  readOnly : bool
}.

(** The association of a store with a project path ([workspace.json]),
    which the migration only reads. *)
Record Workspace : Type := mkWorkspace {
  workspaceId : string;
  path : string;
  dbPath : string
}.

(** Everything a migration can observe or change: the workspace directories
    in scan order, the store files by path, the [cursorDiskKV] table of the
    global store ([None]: the file does not exist), and the random source.
    [randomDigit k] is the value of [(Math.random() * 16) | 0] at the [k]-th
    call of [Math.random]; [randomCalls] counts the calls made so far. *)
Record World : Type := mkWorld {
  workspaces : list Workspace;
  databases : gmap string Database;
  globalStorage : option (gmap string json);
  randomDigit : nat -> Z;
  randomCalls : nat
}.

Definition setDatabases (dbs : gmap string Database) (w : World) : World :=
  {| workspaces := workspaces w; databases := dbs;
     globalStorage := globalStorage w;
     randomDigit := randomDigit w; randomCalls := randomCalls w |}.

Definition setGlobalStorage (g : option (gmap string json)) (w : World) : World :=
  {| workspaces := workspaces w; databases := databases w;
     globalStorage := g;
     randomDigit := randomDigit w; randomCalls := randomCalls w |}.

Definition setRandomCalls (n : nat) (w : World) : World :=
  {| workspaces := workspaces w; databases := databases w;
     globalStorage := globalStorage w;
     randomDigit := randomDigit w; randomCalls := n |}.

(** The records a store currently owns; a missing file or a missing array
    key means none. *)
Definition recordsOf (w : World) (dbFile : string) : list JObject :=
  match databases w !! dbFile with
  | Some db =>
      match composerData db with
      | Some cd => composers cd
      | None => []
      end
  | None => []
  end.

(** ** A state-and-exception monad over the world *)

Inductive Outcome (A : Type) : Type :=
  | Returned (a : A)
  | Threw (e : Thrown).
Arguments Returned {A} a.
Arguments Threw {A} e.

Definition M (A : Type) : Type := World -> Outcome A * World.

Definition ret {A} (a : A) : M A := fun w => (Returned a, w).

Definition throw {A} (e : Thrown) : M A := fun w => (Threw e, w).

Definition bind {A B} (m : M A) (k : A -> M B) : M B :=
  fun w =>
    match m w with
    | (Returned a, w') => k a w'
    | (Threw e, w') => (Threw e, w')
    end.

(** [try { m } catch (error) { handler error }]: writes made before the
    throw stay. *)
Definition tryCatch {A} (m : M A) (handler : Thrown -> M A) : M A :=
  fun w =>
    match m w with
    | (Returned a, w') => (Returned a, w')
    | (Threw e, w') => handler e w'
    end.

Definition gets {A} (f : World -> A) : M A := fun w => (Returned (f w), w).

Definition modify (f : World -> World) : M unit := fun w => (Returned tt, f w).

Declare Scope world_scope.
Delimit Scope world_scope with world.
Notation "'let*' x ':=' m 'in' k" := (bind m (fun x => k))
  (at level 10, x name, m at level 100, k at level 200) : world_scope.
Notation "'run' m 'then' k" := (bind m (fun _ => k))
  (at level 10, m at level 100, k at level 200) : world_scope.
Local Open Scope world_scope.

(** ** Identifier generation *)

(** [v.toString(16)] for [0 <= v < 16]. *)
Definition hexDigit (v : Z) : ascii :=
  if (v <? 10)%Z then ascii_of_nat (48 + Z.to_nat v)
  else ascii_of_nat (87 + Z.to_nat v).

(** [template.replace(/[xy]/g, callback)]: one call of [Math.random] for
    every [x] and every [y], left to right; [k] is the number of calls made
    before. *)
Fixpoint replaceXY (digit : nat -> Z) (k : nat) (template : string)
  : string * nat :=
  match template with
  | EmptyString => (EmptyString, k)
  | String c rest =>
      if Ascii.eqb c "x"%char || Ascii.eqb c "y"%char then
        let r := (digit k mod 16)%Z in
        let v := if Ascii.eqb c "x"%char then r
                 else Z.lor (Z.land r 3) 8 in
        let '(out, k') := replaceXY digit (S k) rest in
        (String (hexDigit v) out, k')
      else
        let '(out, k') := replaceXY digit k rest in
        (String c out, k')
  end.

Definition uuidTemplate : string := "xxxxxxxx-xxxx-4xxx-yxxx-xxxxxxxxxxxx".

Definition generateSessionId : M string :=
  fun w =>
    let '(sessionId, k) := replaceXY (randomDigit w) (randomCalls w) uuidTemplate in
    (Returned sessionId, setRandomCalls k w).

(** ** Store access (src/core/storage.ts)

    [migrate.ts] imports [findWorkspaceForSession], [findWorkspaceByPath],
    [openDatabaseReadWrite], [getComposerData] and [updateComposerData] from
    [storage.ts]; the [storage.ts] at hand does not define them, so they
    follow the specification of the store locator and of the record array
    store. *)

(** [s.composerId === sessionId] *)
Definition hasComposerId (sessionId : string) (s : JObject) : bool :=
  match getField "composerId" s with
  | Some (JStr i) => String.eqb i sessionId
  | _ => false
  end.

Definition ownsSession (w : World) (sessionId : string) (ws : Workspace) : bool :=
  existsb (hasComposerId sessionId) (recordsOf w (dbPath ws)).

(** Modelled from the spec: [findWorkspaceForSession] is missing from
    [storage.ts].  "Scans all known stores' arrays for a record matching the
    identifier; returns the owning store", or nothing. *)
Definition findWorkspaceForSession (sessionId : string) : M (option Workspace) :=
  gets (fun w => List.find (ownsSession w sessionId) (workspaces w)).

Section Storage.
Context (host : Host).

(** Modelled from the spec: [findWorkspaceByPath] is missing from
    [storage.ts].  "Finds the store whose associated workspace path, after
    normalization, equals [path]", or nothing; it never creates a store. *)
Definition findWorkspaceByPath (workspacePath : string) : M (option Workspace) :=
  gets (fun w =>
    List.find
      (fun ws => String.eqb (normalizePath host (path ws)) workspacePath)
      (workspaces w)).

End Storage.

(** Modelled from the spec: [openDatabaseReadWrite] is missing from
    [storage.ts].  Opening a store the host application holds "must fail
    fast with DATABASE_LOCKED"; the handle of an opened store is its path. *)
Definition openDatabaseReadWrite (dbFile : string) : M string :=
  fun w =>
    match databases w !! dbFile with
    | None => (Threw (JsError "unable to open database file"), w)
    | Some db =>
        if locked db then (Threw (DatabaseLockedError dbFile), w)
        else (Returned dbFile, w)
    end.

(** Modelled from the spec: [getComposerData] is missing from [storage.ts].
    "read(store) -> (records, existed, rawShapeHint)"; absence of the array
    key is [null], not an error. *)
Definition getComposerData (db : string) : M (option ComposerData) :=
  gets (fun w =>
    match databases w !! db with
    | Some d => composerData d
    | None => None
    end).

(** Modelled from the spec: [updateComposerData] is missing from
    [storage.ts].  "write(store, records, rawShapeHint) replaces the array"
    in one statement, keeping the wire shape it is given; a store that
    refuses writes makes it throw. *)
Definition updateComposerData (db : string) (newComposers : list JObject)
    (newFormat : bool) (raw : option json) : M unit :=
  fun w =>
    match databases w !! db with
    | None => (Threw (JsError "no such table: ItemTable"), w)
    | Some d =>
        if readOnly d
        then (Threw (JsError "attempt to write a readonly database"), w)
        else
          let d' := {| composerData := Some (mkComposerData newComposers newFormat raw);
                       locked := locked d; readOnly := readOnly d |} in
          (Returned tt, setDatabases (<[db := d']> (databases w)) w)
    end.

(** ** The global store: [cursorDiskKV] *)

(** [SELECT value FROM cursorDiskKV WHERE key = ?] *)
Definition kvGet (key : string) : M (option json) :=
  gets (fun w =>
    match globalStorage w with
    | Some table => table !! key
    | None => None
    end).

(** [SELECT key, value FROM cursorDiskKV WHERE key LIKE ?] *)
Definition kvSelectLike (pattern : string) : M (list (string * json)) :=
  gets (fun w =>
    match globalStorage w with
    | Some table =>
        List.filter (fun row => like pattern (fst row)) (map_to_list table)
    | None => []
    end).

(** [INSERT OR REPLACE INTO cursorDiskKV (key, value) VALUES (?, ?)] *)
Definition kvInsertOrReplace (key : string) (value : json) : M unit :=
  modify (fun w =>
    setGlobalStorage (insert key value <$> globalStorage w) w).

(** ** Property access on parsed JSON, with the runtime's type errors *)

Definition liftJs {A} (o : Outcome A) : M A := fun w => (o, w).

(** [j.name = v] in strict mode, as [JSON.stringify] will later see it: a
    property put on an array is not written out. *)
Definition setProp (name : string) (v : json) (j : json) : Outcome json :=
  match j with
  | JObj fields => Returned (JObj (setField name v fields))
  | JArr items => Returned (JArr items)
  | JNull => Threw (JsError ("Cannot set properties of null (setting '" ++ name ++ "')"))
  | _ => Threw (JsError ("Cannot create property '" ++ name ++ "'"))
  end.

(** [j.name] for a name that is no built-in property. *)
Definition getProp (name : string) (j : json) : Outcome (option json) :=
  match j with
  | JObj fields => Returned (getField name fields)
  | JNull => Threw (JsError ("Cannot read properties of null (reading '" ++ name ++ "')"))
  | _ => Returned None
  end.

(** The values [for (const x of j)] visits. *)
Definition iterate (j : json) : Outcome (list json) :=
  match j with
  | JArr items => Returned items
  | JStr s => Returned (map (fun c => JStr (String c EmptyString)) (list_ascii_of_string s))
  | _ => Threw (JsError "oldBubbleHeaders is not iterable")
  end.

(** [{ ...header, bubbleId: v }] *)
Definition spreadWith (header : json) (name : string) (v : json) : json :=
  match header with
  | JObj fields => JObj (setField name v fields)
  | _ => JObj [(name, v)]
  end.

(** [bubbleIdMap.set(key, v)] as later [get]s with a string can see it. *)
Definition mapSet (key : json) (v : string) (m : gmap string string)
  : gmap string string :=
  match key with
  | JStr k => <[k := v]> m
  | _ => m
  end.

(** ** Content replication *)

(** The loop over [oldBubbleHeaders]. *)
Fixpoint copyHeaders (headers : list json) (newBubbleHeaders : list json)
    (bubbleIdMap : gmap string string)
  : M (list json * gmap string string) :=
  match headers with
  | [] => ret (newBubbleHeaders, bubbleIdMap)
  | header :: rest =>
      let* bubbleId := liftJs (getProp "bubbleId" header) in
      match bubbleId with
      | Some b =>
          if truthy b then
            let* newBubbleId := generateSessionId in
            copyHeaders rest
              (newBubbleHeaders ++ [spreadWith header "bubbleId" (JStr newBubbleId)])%list
              (mapSet b newBubbleId bubbleIdMap)
          else copyHeaders rest newBubbleHeaders bubbleIdMap
      | None => copyHeaders rest newBubbleHeaders bubbleIdMap
      end
  end.

(** The loop over [bubbleRows]. *)
Fixpoint copyRows (newComposerId : string) (bubbleRows : list (string * json))
    (bubbleIdMap : gmap string string) : M (gmap string string) :=
  match bubbleRows with
  | [] => ret bubbleIdMap
  | (key, value) :: rest =>
      let parts := split colon key in
      match parts !! 2%nat with
      | None => copyRows newComposerId rest bubbleIdMap
      | Some oldBubbleId =>
          if String.eqb oldBubbleId "" then copyRows newComposerId rest bubbleIdMap
          else
            let known :=
              match bubbleIdMap !! oldBubbleId with
              | Some n => if String.eqb n "" then None else Some n
              | None => None
              end in
            let* assigned :=
              match known with
              | Some n => ret (n, bubbleIdMap)
              | None =>
                  let* n := generateSessionId in
                  ret (n, <[oldBubbleId := n]> bubbleIdMap)
              end in
            let newBubbleId := fst assigned in
            let* bubbleData := liftJs (setProp "bubbleId" (JStr newBubbleId) value) in
            let newKey := "bubbleId:" ++ newComposerId ++ ":" ++ newBubbleId in
            run kvInsertOrReplace newKey bubbleData then
            copyRows newComposerId rest (snd assigned)
      end
  end.

Definition copyBubbleDataInGlobalStorage (oldComposerId newComposerId : string)
  : M (gmap string string) :=
  let* globalDb := gets globalStorage in
  match globalDb with
  | None => ret ∅
  | Some _ =>
      let* composerDataRow := kvGet ("composerData:" ++ oldComposerId) in
      let* bubbleIdMap :=
        match composerDataRow with
        | Some value =>
            let* composerData := liftJs (setProp "composerId" (JStr newComposerId) value) in
            let* headersProp := liftJs (getProp "fullConversationHeadersOnly" composerData) in
            let oldBubbleHeaders :=
              match headersProp with
              | Some h => if truthy h then h else JArr []
              | None => JArr []
              end in
            let* headers := liftJs (iterate oldBubbleHeaders) in
            let* copied := copyHeaders headers [] ∅ in
            let* composerData :=
              liftJs (setProp "fullConversationHeadersOnly" (JArr (fst copied)) composerData) in
            run kvInsertOrReplace ("composerData:" ++ newComposerId) composerData then
            ret (snd copied)
        | None => ret ∅
        end in
      let* bubbleRows := kvSelectLike ("bubbleId:" ++ oldComposerId ++ ":%") in
      copyRows newComposerId bubbleRows bubbleIdMap
  end.

(** ** Requests and results (src/core/types.ts) *)

Inductive MigrationMode : Type := Move | Copy.

(** [Omit<MigrateSessionOptions, 'sessionIds'>].  The optional [dataPath]
    selects the data directory; the [World] is that directory. *)
Record SessionOptions : Type := mkSessionOptions {
  destination : string;
  mode : MigrationMode;
  dryRun : bool;
  force : bool
}.

Record MigrateSessionOptions : Type := mkMigrateSessionOptions {
  sessionIds : list string;
  sessionOptions : SessionOptions
}.

Module WorkspaceOptions.
Record t : Type := mk {
  source : string;
  destination : string;
  mode : MigrationMode;
  dryRun : bool;
  force : bool
}.
End WorkspaceOptions.
Abbreviation MigrateWorkspaceOptions := WorkspaceOptions.t.

Module SessionResult.
Record t : Type := mk {
  success : bool;
  sessionId : string;
  sourceWorkspace : string;
  destinationWorkspace : string;
  mode : MigrationMode;
  newSessionId : option string;
  error : option string;
  dryRun : bool
}.
End SessionResult.
Abbreviation SessionMigrationResult := SessionResult.t.

Module WorkspaceResult.
Record t : Type := mk {
  success : bool;
  source : string;
  destination : string;
  mode : MigrationMode;
  totalSessions : nat;
  successCount : nat;
  failureCount : nat;
  results : list SessionMigrationResult;
  dryRun : bool
}.
End WorkspaceResult.
Abbreviation WorkspaceMigrationResult := WorkspaceResult.t.

(** ** Migration (src/core/migrate.ts) *)

(** [array.findIndex(p)], [None] for [-1]. *)
Fixpoint findIndex {A} (p : A -> bool) (l : list A) : option nat :=
  match l with
  | [] => None
  | x :: rest => if p x then Some 0%nat else S <$> findIndex p rest
  end.

(** [JSON.parse(JSON.stringify(s))] of a value that came out of
    [JSON.parse]: a structurally equal, unshared value. *)
Definition deepClone (s : JObject) : JObject := s.

(** [typeof s.composerId === 'string'], with the identifier. *)
Definition stringComposerId (s : JObject) : option string :=
  match getField "composerId" s with
  | Some (JStr i) => Some i
  | _ => None
  end.

Section Migration.
Context (host : Host).

(** The body of the [try] block of [migrateSession]: the mutation phase,
    entered with the stores that resolution found. *)
Definition performMigration (sessionId : string) (mode : MigrationMode)
    (sourceInfo destInfo : Workspace) (sourceWorkspace normalizedDest : string)
  : M SessionMigrationResult :=
  let* sourceDb := openDatabaseReadWrite (dbPath sourceInfo) in
  let* destDb := openDatabaseReadWrite (dbPath destInfo) in
  let* sourceResult := getComposerData sourceDb in
  let* destResult := getComposerData destDb in
  match sourceResult with
  | None => throw (JsError "Source workspace has no composer data")
  | Some sourceResult =>
      match findIndex (hasComposerId sessionId) (composers sourceResult) with
      | None => throw (SessionNotFoundError sessionId)
      | Some sessionIndex =>
          let sessionToMigrate :=
            default ([] : JObject) (composers sourceResult !! sessionIndex) in
          let destComposers :=
            match destResult with
            | Some d => composers d
            | None => []
            end in
          let destFormat :=
            match destResult with
            | Some d => isNewFormat d
            | None => isNewFormat sourceResult
            end in
          let destRaw :=
            match destResult with
            | Some d => rawData d
            | None => None
            end in
          match mode with
          | Move =>
              let newSourceComposers := delete sessionIndex (composers sourceResult) in
              run updateComposerData sourceDb newSourceComposers
                    (isNewFormat sourceResult) (rawData sourceResult) then
              let newDestComposers := (destComposers ++ [sessionToMigrate])%list in
              run updateComposerData destDb newDestComposers destFormat destRaw then
              ret {| SessionResult.success := true;
                     SessionResult.sessionId := sessionId;
                     SessionResult.sourceWorkspace := sourceWorkspace;
                     SessionResult.destinationWorkspace := normalizedDest;
                     SessionResult.mode := Move;
                     SessionResult.newSessionId := None;
                     SessionResult.error := None;
                     SessionResult.dryRun := false |}
          | Copy =>
              let* newSessionId := generateSessionId in
              run copyBubbleDataInGlobalStorage sessionId newSessionId then
              let copiedSession :=
                setField "composerId" (JStr newSessionId) (deepClone sessionToMigrate) in
              let newDestComposers := (destComposers ++ [copiedSession])%list in
              run updateComposerData destDb newDestComposers destFormat destRaw then
              ret {| SessionResult.success := true;
                     SessionResult.sessionId := sessionId;
                     SessionResult.sourceWorkspace := sourceWorkspace;
                     SessionResult.destinationWorkspace := normalizedDest;
                     SessionResult.mode := Copy;
                     SessionResult.newSessionId := Some newSessionId;
                     SessionResult.error := None;
                     SessionResult.dryRun := false |}
          end
      end
  end.

(** The [catch] block of [migrateSession]. *)
Definition failureResult (sessionId : string) (mode : MigrationMode)
    (sourceWorkspace normalizedDest : string) (error : Thrown)
  : SessionMigrationResult :=
  {| SessionResult.success := false;
     SessionResult.sessionId := sessionId;
     SessionResult.sourceWorkspace := sourceWorkspace;
     SessionResult.destinationWorkspace := normalizedDest;
     SessionResult.mode := mode;
     SessionResult.newSessionId := None;
     SessionResult.error := Some (errorMessage error);
     SessionResult.dryRun := false |}.

(** [migrateSession], with a hook between resolution and the mutation
    phase: [interleave] is what other processes (the host application)
    do to the world in between.  The program itself is [migrateSession]
    below, where nothing happens in between. *)
Definition migrateSessionInterleaved (interleave : World -> World)
    (sessionId : string) (options : SessionOptions)
  : M SessionMigrationResult :=
  let normalizedDest := normalizePath host (destination options) in
  let* sourceInfo := findWorkspaceForSession sessionId in
  match sourceInfo with
  | None => throw (SessionNotFoundError sessionId)
  | Some sourceInfo =>
      let sourceWorkspace := path sourceInfo in
      if pathsEqual host sourceWorkspace normalizedDest
      then throw (SameWorkspaceError normalizedDest)
      else
        let* destInfo := findWorkspaceByPath host normalizedDest in
        match destInfo with
        | None => throw (WorkspaceNotFoundError normalizedDest)
        | Some destInfo =>
            if dryRun options then
              ret {| SessionResult.success := true;
                     SessionResult.sessionId := sessionId;
                     SessionResult.sourceWorkspace := sourceWorkspace;
                     SessionResult.destinationWorkspace := normalizedDest;
                     SessionResult.mode := mode options;
                     SessionResult.newSessionId := None;
                     SessionResult.error := None;
                     SessionResult.dryRun := true |}
            else
              run modify interleave then
              tryCatch
                (performMigration sessionId (mode options) sourceInfo destInfo
                   sourceWorkspace normalizedDest)
                (fun error =>
                   ret (failureResult sessionId (mode options)
                          sourceWorkspace normalizedDest error))
        end
  end.

Definition migrateSession (sessionId : string) (options : SessionOptions)
  : M SessionMigrationResult :=
  migrateSessionInterleaved (fun w => w) sessionId options.

(** The [catch] block of [migrateSessions]. *)
Definition thrownResult (sessionId : string) (options : SessionOptions)
    (error : Thrown) : SessionMigrationResult :=
  {| SessionResult.success := false;
     SessionResult.sessionId := sessionId;
     SessionResult.sourceWorkspace := "unknown";
     SessionResult.destinationWorkspace := destination options;
     SessionResult.mode := mode options;
     SessionResult.newSessionId := None;
     SessionResult.error := Some (errorMessage error);
     SessionResult.dryRun := dryRun options |}.

(** The [for] loop of [migrateSessions]; [results] is the array being
    pushed to. *)
Fixpoint migrateEach (ids : list string) (options : SessionOptions)
    (results : list SessionMigrationResult)
  : M (list SessionMigrationResult) :=
  match ids with
  | [] => ret results
  | sessionId :: rest =>
      let* result :=
        tryCatch (migrateSession sessionId options)
                 (fun error => ret (thrownResult sessionId options error)) in
      migrateEach rest options (results ++ [result])%list
  end.

Definition migrateSessions (options : MigrateSessionOptions)
  : M (list SessionMigrationResult) :=
  migrateEach (sessionIds options) (sessionOptions options) [].

Definition migrateWorkspace (options : MigrateWorkspaceOptions)
  : M WorkspaceMigrationResult :=
  let normalizedSource := normalizePath host (WorkspaceOptions.source options) in
  let normalizedDest := normalizePath host (WorkspaceOptions.destination options) in
  if pathsEqual host normalizedSource normalizedDest
  then throw (SameWorkspaceError normalizedSource)
  else
    let* sourceInfo := findWorkspaceByPath host normalizedSource in
    match sourceInfo with
    | None => throw (WorkspaceNotFoundError normalizedSource)
    | Some sourceInfo =>
        let* destInfo := findWorkspaceByPath host normalizedDest in
        match destInfo with
        | None => throw (WorkspaceNotFoundError normalizedDest)
        | Some destInfo =>
            let* sourceDb := openDatabaseReadWrite (dbPath sourceInfo) in
            let* sourceResult := getComposerData sourceDb in
            match sourceResult with
            | None => throw (NoSessionsFoundError normalizedSource)
            | Some sourceResult =>
                if (length (composers sourceResult) =? 0)%nat
                then throw (NoSessionsFoundError normalizedSource)
                else
                  run (if WorkspaceOptions.force options then ret tt
                       else
                         let* destDb := openDatabaseReadWrite (dbPath destInfo) in
                         let* destResult := getComposerData destDb in
                         match destResult with
                         | Some d =>
                             if (0 <? length (composers d))%nat
                             then throw (DestinationHasSessionsError normalizedDest
                                           (length (composers d)))
                             else ret tt
                         | None => ret tt
                         end) then
                  let ids := omap stringComposerId (composers sourceResult) in
                  if (length ids =? 0)%nat
                  then throw (NoSessionsFoundError normalizedSource)
                  else
                    let* results :=
                      migrateSessions
                        {| sessionIds := ids;
                           sessionOptions :=
                             {| destination := normalizedDest;
                                mode := WorkspaceOptions.mode options;
                                dryRun := WorkspaceOptions.dryRun options;
                                force := WorkspaceOptions.force options |} |} in
                    let successCount :=
                      length (List.filter SessionResult.success results) in
                    let failureCount :=
                      length (List.filter (fun r => negb (SessionResult.success r)) results) in
                    ret {| WorkspaceResult.success := (failureCount =? 0)%nat;
                           WorkspaceResult.source := normalizedSource;
                           WorkspaceResult.destination := normalizedDest;
                           WorkspaceResult.mode := WorkspaceOptions.mode options;
                           WorkspaceResult.totalSessions := length results;
                           WorkspaceResult.successCount := successCount;
                           WorkspaceResult.failureCount := failureCount;
                           WorkspaceResult.results := results;
                           WorkspaceResult.dryRun := WorkspaceOptions.dryRun options |}
            end
        end
    end.

End Migration.

(** ** Table cells (src/cli/formatters/table.ts)

    The two helpers every column of the session table goes through.  A
    string is its sequence of characters; widths are integers, as the
    callers may pass any number. *)

(** The first [n] characters of [s], all of [s] when it is shorter. *)
Fixpoint takeChars (n : nat) (s : string) : string :=
  match n, s with
  | S n', String c rest => String c (takeChars n' rest)
  | _, _ => EmptyString
  end.

(** [s.slice(0, e)]: a negative [e] counts from the end. *)
Definition sliceTo (e : Z) (s : string) : string :=
  let len := Z.of_nat (String.length s) in
  let stop := if (e <? 0)%Z then Z.max (len + e) 0 else Z.min e len in
  takeChars (Z.to_nat stop) s.

(** A run of [n] spaces. *)
Fixpoint spaces (n : nat) : string :=
  match n with
  | O => EmptyString
  | S n' => String " "%char (spaces n')
  end.

(** Truncate string with ellipsis. *)
Definition truncate (str : string) (maxLength : Z) : string :=
  if (Z.of_nat (String.length str) <=? maxLength)%Z then str
  else (sliceTo (maxLength - 3) str ++ "...")%string.

(** Pad string to fixed width: [str.padEnd(width)]. *)
Definition padRight (str : string) (width : Z) : string :=
  (str ++ spaces (Z.to_nat (width - Z.of_nat (String.length str))))%string.

Local Open Scope list_scope.

(** ** Specification vocabulary

    Names for the states, results and conditions the theorems speak about.
    None of them is part of the program; each is stated in terms of the
    model above. *)

(** *** Stores *)

(** The records of a store, through its [Database] value. *)
Definition composersOf (d : Database) : list JObject :=
  match composerData d with
  | Some cd => composers cd
  | None => []
  end.

(** Store [d] after its array is replaced, its flags kept. *)
Definition withRecords (d : Database) (cs : list JObject) (f : bool)
    (r : option json) : Database :=
  {| composerData := Some (mkComposerData cs f r);
     locked := locked d;
     readOnly := readOnly d |}.

(** The store file opens for writing. *)
Definition opens (w : World) (dbFile : string) : Prop :=
  fst (openDatabaseReadWrite dbFile w) = Returned dbFile.

(** The store file exists, is not held by the host application and accepts
    writes. *)
Definition writable (w : World) (dbFile : string) : bool :=
  match databases w !! dbFile with
  | Some d => negb (locked d) && negb (readOnly d)
  | None => false
  end.

(** Frame: the workspace stores and the random sequence are the same. *)
Definition sameStores (w w' : World) : Prop :=
  workspaces w' = workspaces w /\
  databases w' = databases w /\
  randomDigit w' = randomDigit w.

(** *** One record *)

(** Resolution and validation of [migrateSession], as one pure function of
    the world: the source and destination stores, or the error thrown. *)
Definition resolve (host : Host) (sid dest : string) (w : World)
  : Outcome (Workspace * Workspace) :=
  let nd := normalizePath host dest in
  match List.find (ownsSession w sid) (workspaces w) with
  | None => Threw (SessionNotFoundError sid)
  | Some A =>
      if pathsEqual host (path A) nd then Threw (SameWorkspaceError nd)
      else match List.find (fun ws => String.eqb (normalizePath host (path ws)) nd)
                           (workspaces w) with
           | None => Threw (WorkspaceNotFoundError nd)
           | Some B => Returned (A, B)
           end
  end.

(** Resolution and validation of one record pass: the record's store is
    [A], the destination path names store [B], and their paths differ. *)
Definition resolvesTo (host : Host) (w : World) (sid dest : string)
    (A B : Workspace) : Prop :=
  fst (findWorkspaceForSession sid w) = Returned (Some A) /\
  pathsEqual host (path A) (normalizePath host dest) = false /\
  fst (findWorkspaceByPath host (normalizePath host dest) w) = Returned (Some B).

(** The store [migrateSession] writes to for destination [dest]. *)
Definition destinationOf (host : Host) (dest : string) (w : World)
  : option Workspace :=
  List.find
    (fun ws => String.eqb (normalizePath host (path ws)) (normalizePath host dest))
    (workspaces w).

(** The three results [migrateSession] returns without an error. *)
Definition dryRunResult (sid sw nd : string) (md : MigrationMode)
  : SessionMigrationResult :=
  {| SessionResult.success := true;
     SessionResult.sessionId := sid;
     SessionResult.sourceWorkspace := sw;
     SessionResult.destinationWorkspace := nd;
     SessionResult.mode := md;
     SessionResult.newSessionId := None;
     SessionResult.error := None;
     SessionResult.dryRun := true |}.

Definition moveResult (sid sw nd : string) : SessionMigrationResult :=
  {| SessionResult.success := true;
     SessionResult.sessionId := sid;
     SessionResult.sourceWorkspace := sw;
     SessionResult.destinationWorkspace := nd;
     SessionResult.mode := Move;
     SessionResult.newSessionId := None;
     SessionResult.error := None;
     SessionResult.dryRun := false |}.

Definition copyResult (sid sw nd nid : string) : SessionMigrationResult :=
  {| SessionResult.success := true;
     SessionResult.sessionId := sid;
     SessionResult.sourceWorkspace := sw;
     SessionResult.destinationWorkspace := nd;
     SessionResult.mode := Copy;
     SessionResult.newSessionId := Some nid;
     SessionResult.error := None;
     SessionResult.dryRun := false |}.

(** The wire shape the destination array is written back in. *)
Definition destFormatOf (dB : Database) (cdA : ComposerData) : bool :=
  match composerData dB with
  | Some d => isNewFormat d
  | None => isNewFormat cdA
  end.

Definition destRawOf (dB : Database) : option json :=
  match composerData dB with
  | Some d => rawData d
  | None => None
  end.

(** The world after the record at position [idx] of store file [A] has
    been moved to the end of store file [B]. *)
Definition movedWorld (w : World) (A B : string) (dA dB : Database)
    (cdA : ComposerData) (idx : nat) : World :=
  setDatabases
    (<[B := withRecords dB
              (composersOf dB ++ [default ([] : JObject) (composers cdA !! idx)])
              (destFormatOf dB cdA) (destRawOf dB)]>
       (<[A := withRecords dA (delete idx (composers cdA))
                 (isNewFormat cdA) (rawData cdA)]>
          (databases w))) w.

(** The identifier under which a successful result put a record into the
    destination: the new one for a copy, the record's own for a move. *)
Definition migratedId (r : SessionMigrationResult) : string :=
  default (SessionResult.sessionId r) (SessionResult.newSessionId r).

(** The result stands for a record written to the destination. *)
Definition migrated (r : SessionMigrationResult) : bool :=
  SessionResult.success r && negb (SessionResult.dryRun r).

(** *** Batches *)

(** One attempt of the batch loop: [migrateSession] inside the loop's
    [try]/[catch]. *)
Definition attempt (host : Host) (sid : string) (opts : SessionOptions)
  : M SessionMigrationResult :=
  tryCatch (migrateSession host sid opts)
           (fun error => ret (thrownResult sid opts error)).

(** What an attempt leaves in the result list, given what [migrateSession]
    did. *)
Definition settled (sid : string) (opts : SessionOptions)
    (o : Outcome SessionMigrationResult * World) : SessionMigrationResult :=
  match o with
  | (Returned r, _) => r
  | (Threw e, _) => thrownResult sid opts e
  end.

(** Everything [migrateWorkspace] checks before it starts the batch, as one
    pure function of the world: the identifiers to migrate, or the error. *)
Definition validateWorkspace (host : Host) (options : MigrateWorkspaceOptions)
    (w : World) : Outcome (list string) :=
  let normalizedSource := normalizePath host (WorkspaceOptions.source options) in
  let normalizedDest := normalizePath host (WorkspaceOptions.destination options) in
  if pathsEqual host normalizedSource normalizedDest
  then Threw (SameWorkspaceError normalizedSource)
  else
    match List.find (fun ws => String.eqb (normalizePath host (path ws)) normalizedSource)
                    (workspaces w) with
    | None => Threw (WorkspaceNotFoundError normalizedSource)
    | Some sourceInfo =>
        match List.find (fun ws => String.eqb (normalizePath host (path ws)) normalizedDest)
                        (workspaces w) with
        | None => Threw (WorkspaceNotFoundError normalizedDest)
        | Some destInfo =>
            match fst (openDatabaseReadWrite (dbPath sourceInfo) w) with
            | Threw e => Threw e
            | Returned sourceDb =>
                match fst (getComposerData sourceDb w) with
                | Threw e => Threw e
                | Returned None => Threw (NoSessionsFoundError normalizedSource)
                | Returned (Some sourceResult) =>
                    if (length (composers sourceResult) =? 0)%nat
                    then Threw (NoSessionsFoundError normalizedSource)
                    else
                      let guard :=
                        if WorkspaceOptions.force options then Returned tt
                        else
                          match fst (openDatabaseReadWrite (dbPath destInfo) w) with
                          | Threw e => Threw e
                          | Returned destDb =>
                              match fst (getComposerData destDb w) with
                              | Returned (Some d) =>
                                  if (0 <? length (composers d))%nat
                                  then Threw (DestinationHasSessionsError normalizedDest
                                                (length (composers d)))
                                  else Returned tt
                              | Returned None => Returned tt
                              | Threw e => Threw e
                              end
                          end in
                      match guard with
                      | Threw e => Threw e
                      | Returned _ =>
                          let ids := omap stringComposerId (composers sourceResult) in
                          if (length ids =? 0)%nat
                          then Threw (NoSessionsFoundError normalizedSource)
                          else Returned ids
                      end
                end
            end
        end
    end.

(** The options [migrateWorkspace] hands to [migrateSessions]. *)
Definition batchOptions (host : Host) (options : MigrateWorkspaceOptions) : SessionOptions :=
  {| destination := normalizePath host (WorkspaceOptions.destination options);
     mode := WorkspaceOptions.mode options;
     dryRun := WorkspaceOptions.dryRun options;
     force := WorkspaceOptions.force options |}.

(** The aggregate [migrateWorkspace] builds from the batch results. *)
Definition aggregate (host : Host) (options : MigrateWorkspaceOptions)
    (results : list SessionMigrationResult) : WorkspaceMigrationResult :=
  {| WorkspaceResult.success :=
       (length (List.filter (fun r => negb (SessionResult.success r)) results) =? 0)%nat;
     WorkspaceResult.source := normalizePath host (WorkspaceOptions.source options);
     WorkspaceResult.destination := normalizePath host (WorkspaceOptions.destination options);
     WorkspaceResult.mode := WorkspaceOptions.mode options;
     WorkspaceResult.totalSessions := length results;
     WorkspaceResult.successCount := length (List.filter SessionResult.success results);
     WorkspaceResult.failureCount :=
       length (List.filter (fun r => negb (SessionResult.success r)) results);
     WorkspaceResult.results := results;
     WorkspaceResult.dryRun := WorkspaceOptions.dryRun options |}.

(** [migrateWorkspace] reaches its destination guard: source and destination
    differ and exist, and the source store opens and owns a record. *)
Definition reachesGuard (host : Host) (options : MigrateWorkspaceOptions)
    (w : World) (A B : Workspace) : Prop :=
  let normalizedSource := normalizePath host (WorkspaceOptions.source options) in
  let normalizedDest := normalizePath host (WorkspaceOptions.destination options) in
  pathsEqual host normalizedSource normalizedDest = false /\
  fst (findWorkspaceByPath host normalizedSource w) = Returned (Some A) /\
  fst (findWorkspaceByPath host normalizedDest w) = Returned (Some B) /\
  opens w (dbPath A) /\
  recordsOf w (dbPath A) <> [].

(** *** The global table *)

(** The key of a content item, and of a record's metadata. *)
Definition bubbleKey (composerId bubbleId : string) : string :=
  ("bubbleId:" ++ composerId ++ ":" ++ bubbleId)%string.

Definition composerDataKey (composerId : string) : string :=
  ("composerData:" ++ composerId)%string.

(** [key] is the key of a content item of record [old]. *)
Definition canonicalKey (old key : string) : Prop :=
  exists b, key = bubbleKey old b /\ containsChar colon b = false.

(** The content-item id a header entry refers to, when it has one. *)
Definition headerId (h : json) : option string :=
  match h with
  | JObj fields =>
      match getField "bubbleId" fields with
      | Some (JStr b) => if String.eqb b "" then None else Some b
      | _ => None
      end
  | _ => None
  end.

(** A header entry pointed at the new id its content item was given. *)
Definition rewriteHeader (m : gmap string string) (h : json) : json :=
  match headerId h with
  | Some b =>
      match m !! b with
      | Some n => spreadWith h "bubbleId" (JStr n)
      | None => h
      end
  | None => h
  end.

(** [bubbleIdMap] after [set] for every pair, in order. *)
Definition assign (m : gmap string string) (pairs : list (string * string))
  : gmap string string :=
  foldl (fun acc bn => <[fst bn := snd bn]> acc) m pairs.

(** No content item is mapped to the empty id. *)
Definition nonEmptyValues (m : gmap string string) : Prop :=
  forall b n, m !! b = Some n -> n <> ""%string.

(** Different content items were given different new ids. *)
Definition injectiveMap (m : gmap string string) : Prop :=
  forall b1 b2 n, m !! b1 = Some n -> m !! b2 = Some n -> b1 = b2.

(** The id a content item is copied under, with the map and world after:
    the id the map already holds, or a fresh one. *)
Definition nextId (m : gmap string string) (b : string) (w : World)
  : string * gmap string string * World :=
  match m !! b with
  | Some n =>
      if String.eqb n "" then
        match generateSessionId w with
        | (Returned n', w1) => (n', <[b := n']> m, w1)
        | (Threw _, w1) => (n, m, w1)
        end
      else (n, m, w)
  | None =>
      match generateSessionId w with
      | (Returned n', w1) => (n', <[b := n']> m, w1)
      | (Threw _, w1) => (""%string, m, w1)
      end
  end.

(** *** Identifiers *)

(** A lower-case hexadecimal digit; one of the four digits a version-4
    identifier allows in its variant position. *)
Definition hexChar (c : ascii) : bool :=
  existsb (Ascii.eqb c) (list_ascii_of_string "0123456789abcdef").

Definition variantChar (c : ascii) : bool :=
  existsb (Ascii.eqb c) (list_ascii_of_string "89ab").

(** [s] is [template] with a hexadecimal digit for every [x], a variant
    digit for every [y], and every other character kept. *)
Fixpoint fitsTemplate (template s : string) : bool :=
  match template, s with
  | EmptyString, EmptyString => true
  | String t template', String c s' =>
      (if Ascii.eqb t "x"%char then hexChar c
       else if Ascii.eqb t "y"%char then variantChar c
       else Ascii.eqb c t)
      && fitsTemplate template' s'
  | _, _ => false
  end.

(** The number of [x] and [y] in a template. *)
Fixpoint placeholders (template : string) : nat :=
  match template with
  | EmptyString => 0
  | String t template' =>
      (if Ascii.eqb t "x"%char || Ascii.eqb t "y"%char then 1 else 0)
      + placeholders template'
  end.

(** The [k]-th identifier generated from world [w] on: each takes the next
    31 numbers of the random source. *)
Definition drawn (w : World) (k : nat) : string :=
  fst (replaceXY (randomDigit w) (randomCalls w + 31 * k) uuidTemplate).

(** The first [n] identifiers generated from [w] on are pairwise
    different. *)
Definition distinctDraws (w : World) (n : nat) : Prop :=
  NoDup (map (drawn w) (seq 0 n)).

(** [w'] is a world in which [c] identifiers have been generated since
    [w]. *)
Definition ahead (w : World) (c : nat) (w' : World) : Prop :=
  randomDigit w' = randomDigit w /\ randomCalls w' = randomCalls w + 31 * c.

(** The ids of [m] are among the first [c] identifiers generated from [w]
    on, and different content items hold different ids. *)
Definition assignedFrom (w : World) (c : nat) (m : gmap string string) : Prop :=
  injectiveMap m /\
  forall b n, m !! b = Some n -> exists k, k < c /\ n = drawn w k.

(** *** Records and header entries *)

(** The record carries a string identifier. *)
Definition identified (s : JObject) : bool :=
  match stringComposerId s with
  | Some _ => true
  | None => false
  end.

(** The header entry names a content item: [header.bubbleId] is truthy. *)
Definition hasBubbleId (h : json) : bool :=
  match h with
  | JObj fields =>
      match getField "bubbleId" fields with
      | Some b => truthy b
      | None => false
      end
  | _ => false
  end.

(** Every header entry of the metadata stored for record [nid] that names
    a content item names one that is stored for [nid]. *)
Definition headersResolve (w : World) (nid : string) : Prop :=
  forall T fields hs h n,
    globalStorage w = Some T ->
    T !! composerDataKey nid = Some (JObj fields) ->
    getField "fullConversationHeadersOnly" fields = Some (JArr hs) ->
    In h hs ->
    headerId h = Some n ->
    is_Some (T !! bubbleKey nid n).

(** [T'] is [T] with content-item keys of record [new] added or replaced,
    and nothing else touched. *)
Definition addsItemsOf (new : string) (T T' : gmap string json) : Prop :=
  (forall k, is_Some (T !! k) -> is_Some (T' !! k)) /\
  (forall k, (forall n, k <> bubbleKey new n) -> T' !! k = T !! k).

(** *** Paths and messages *)

(** A run of [n] slashes. *)
Fixpoint slashes (n : nat) : string :=
  match n with
  | O => EmptyString
  | S n' => String "/"%char (slashes n')
  end.

(** Every character of [s] is a path separator. *)
Fixpoint separators (s : string) : bool :=
  match s with
  | EmptyString => true
  | String a rest => (Ascii.eqb a "/"%char || Ascii.eqb a "\"%char) && separators rest
  end.

(** The error is an instance of one of the classes of [errors.ts]. *)
Definition ofErrorClass (e : Thrown) : bool :=
  match e with
  | JsError _ => false
  | _ => true
  end.

(** ** Example data

    A POSIX host and a small installation: two workspaces, the first owning
    three records, and a global table holding the content of record [R1]. *)

Definition posixHost : Host :=
  {| isWin32 := false;
     homedir := "/home/u";
     join := fun a b => (a ++ b)%string;
     toLowerCase := fun s => s |}.

Definition exampleRecord (i : string) : JObject :=
  [("composerId", JStr i); ("name", JStr ("title " ++ i)%string)].

Definition wsA : Workspace := mkWorkspace "aaa" "/proj/a" "/ws/aaa/state.vscdb".

Definition wsB : Workspace := mkWorkspace "bbb" "/proj/b" "/ws/bbb/state.vscdb".

(** Store contents: three records, no array key, one record, and two
    records that carry no string identifier. *)
Definition dbA : Database :=
  mkDatabase
    (Some (mkComposerData [exampleRecord "R1"; exampleRecord "R2"; exampleRecord "R3"]
             true None))
    false false.

Definition dbEmpty : Database := mkDatabase None false false.

Definition dbOne : Database :=
  mkDatabase (Some (mkComposerData [exampleRecord "X1"] true None)) false false.

Definition dbAnonymous : Database :=
  mkDatabase
    (Some (mkComposerData [[("name", JStr "untitled")]; [("composerId", JNum 7)]]
             true None))
    false false.

(** The global table: the metadata of [R1] and its two content items. *)
Definition exampleTable : gmap string json :=
  <["composerData:R1" :=
      JObj [("composerId", JStr "R1");
            ("fullConversationHeadersOnly",
             JArr [JObj [("bubbleId", JStr "b1"); ("type", JNum 1)];
                   JObj [("bubbleId", JStr "b2"); ("type", JNum 2)]])]]>
  (<["bubbleId:R1:b1" := JObj [("bubbleId", JStr "b1"); ("text", JStr "hi")]]>
  (<["bubbleId:R1:b2" := JObj [("bubbleId", JStr "b2"); ("text", JStr "yo")]]> ∅)).

(** The installation with store contents [a] for [wsA] and [b] for [wsB];
    the random source counts upwards. *)
Definition worldWith (a b : Database) : World :=
  mkWorld [wsA; wsB]
    (<[dbPath wsA := a]> (<[dbPath wsB := b]> ∅))
    (Some exampleTable) (fun k => Z.of_nat k) 0.

Definition exampleWorld : World := worldWith dbA dbEmpty.

Definition guardedWorld : World := worldWith dbA dbOne.

Definition identifierlessWorld : World := worldWith dbAnonymous dbEmpty.

(** The host application rewrites store [wsA] without record [R2]. *)
Definition loseR2 (w : World) : World :=
  setDatabases
    (<[dbPath wsA :=
         mkDatabase
           (Some (mkComposerData [exampleRecord "R1"; exampleRecord "R3"] true None))
           false false]> (databases w)) w.

(** Requests. *)
Definition copyR1 : SessionOptions := mkSessionOptions "/proj/b/" Copy false false.

Definition batchExample : MigrateSessionOptions :=
  mkMigrateSessionOptions ["R1"; "nope"; "R3"]
    (mkSessionOptions "/proj/b/" Move false false).

Definition wholeWorkspace (forced : bool) : MigrateWorkspaceOptions :=
  WorkspaceOptions.mk "/proj/a" "/proj/b/" Move false forced.

(** More stores: one that opens but refuses writes, and one that holds the
    identifier [R1] twice. *)
Definition dbRefusing : Database := mkDatabase None false true.

Definition dbTwice : Database :=
  mkDatabase
    (Some (mkComposerData [exampleRecord "R1"; exampleRecord "R2"; exampleRecord "R1"]
             true None))
    false false.

Definition moveR1 : SessionOptions := mkSessionOptions "/proj/b/" Move false false.

(** Global tables: one whose header list has entries without a content-item
    id, and one that holds a content item of [R1] but no metadata. *)
Definition sparseTable : gmap string json :=
  <["composerData:R1" :=
      JObj [("composerId", JStr "R1");
            ("fullConversationHeadersOnly",
             JArr [JObj [("bubbleId", JStr "b1"); ("type", JNum 1)];
                   JObj [("type", JNum 2)];
                   JNum 5])]]>
  (<["bubbleId:R1:b1" := JObj [("bubbleId", JStr "b1"); ("text", JStr "hi")]]> ∅).

Definition orphanTable : gmap string json :=
  <["bubbleId:R1:b1" := JObj [("bubbleId", JStr "b1"); ("text", JStr "hi")]]> ∅.

Definition withTable (table : gmap string json) : World :=
  setGlobalStorage (Some table) exampleWorld.

(** The map a replication returned, the empty map when it threw. *)
Definition idsOf (o : Outcome (gmap string string)) : gmap string string :=
  match o with
  | Returned m => m
  | Threw _ => ∅
  end.

(** The identifier generated first in the example installation, and a store
    whose only record already carries it. *)
Definition firstIdentifier : string := "01234567-89ab-4cde-b012-3456789abcde".

Definition dbGenerated : Database :=
  mkDatabase (Some (mkComposerData [exampleRecord firstIdentifier] true None))
    false false.

(** Global tables whose header list names the content item [b1] twice, and
    names a content item by a number. *)
Definition repeatedTable : gmap string json :=
  <["composerData:R1" :=
      JObj [("composerId", JStr "R1");
            ("fullConversationHeadersOnly",
             JArr [JObj [("bubbleId", JStr "b1"); ("type", JNum 1)];
                   JObj [("bubbleId", JStr "b1"); ("type", JNum 2)]])]]>
  (<["bubbleId:R1:b1" := JObj [("bubbleId", JStr "b1"); ("text", JStr "hi")]]> ∅).

Definition numberedTable : gmap string json :=
  <["composerData:R1" :=
      JObj [("composerId", JStr "R1");
            ("fullConversationHeadersOnly",
             JArr [JObj [("bubbleId", JNum 7); ("type", JNum 1)]])]]>
  (<["bubbleId:R1:7" := JObj [("bubbleId", JNum 7); ("text", JStr "hi")]]> ∅).

(** * Properties *)

(** ** The model at work *)

Example split_key : split colon "bubbleId:c1:b7" = ["bubbleId"; "c1"; "b7"]%string.
Proof. reflexivity. Qed.

(** Trailing slashes go before trailing backslashes, once: normalization is
    not idempotent. *)
Example normalizePath_examples :
  normalizePath posixHost "/proj/a//" = "/proj/a"%string /\
  normalizePath posixHost "/" = "/"%string /\
  normalizePath posixHost "~/p" = "/home/u/p"%string /\
  normalizePath posixHost "a/\" = "a/"%string /\
  normalizePath posixHost (normalizePath posixHost "a/\") = "a"%string.
Proof. repeat split; reflexivity. Qed.

Example like_examples :
  like "bubbleId:c1:%" "bubbleId:c1:b7" = true /\
  like "bubbleId:c1:%" "BUBBLEID:C1:" = true /\
  like "bubbleId:c_:%" "bubbleId:c2:b7" = true /\
  like "bubbleId:c1:%" "bubbleId:c2:b7" = false.
Proof. repeat split; reflexivity. Qed.

Example generateSessionId_example :
  fst (generateSessionId exampleWorld)
  = Returned "01234567-89ab-4cde-b012-3456789abcde"%string.
Proof. reflexivity. Qed.

(** The batch of the specification: three results, in order, the middle
    one failed, the other two moved. *)
Example batch_example :
  map (fun r => (SessionResult.sessionId r, SessionResult.success r))
      (match fst (migrateSessions posixHost batchExample exampleWorld) with
       | Returned results => results
       | Threw _ => []
       end)
  = [("R1"%string, true); ("nope"%string, false); ("R3"%string, true)] /\
  recordsOf (snd (migrateSessions posixHost batchExample exampleWorld)) (dbPath wsB)
  = [exampleRecord "R1"; exampleRecord "R3"].
Proof. split; vm_compute; reflexivity. Qed.

(** ** Lists *)

Lemma findIndex_Some {A} (p : A -> bool) (l : list A) (i : nat) :
  findIndex p l = Some i ->
  exists x, l !! i = Some x /\ p x = true /\
            List.filter p (take i l) = [].
Proof.
  revert i. induction l as [|a l IH]; intros i H; simpl in H; [discriminate|].
  destruct (p a) eqn:Hp.
  - inversion H; subst. exists a. simpl. auto.
  - destruct (findIndex p l) as [j|] eqn:Hj; simpl in H; [|discriminate].
    inversion H; subst. destruct (IH j eq_refl) as (x & Hx & Hpx & Hpre).
    exists x. simpl. rewrite Hp. auto.
Qed.

Lemma findIndex_None {A} (p : A -> bool) (l : list A) :
  findIndex p l = None <-> existsb p l = false.
Proof.
  induction l as [|a l IH]; simpl; [tauto|].
  destruct (p a); simpl.
  - split; discriminate.
  - destruct (findIndex p l); simpl.
    + split; [discriminate|]. intros H. apply IH in H. discriminate.
    + tauto.
Qed.

Lemma existsb_filter_nil {A} (p : A -> bool) (l : list A) :
  existsb p l = false <-> List.filter p l = [].
Proof.
  induction l as [|a l IH]; simpl; [tauto|].
  destruct (p a); simpl; [split; discriminate | exact IH].
Qed.

Lemma filter_delete_found {A} (p : A -> bool) (l : list A) i :
  findIndex p l = Some i ->
  List.filter p l = default [] (x ← l !! i; Some [x]) ++ List.filter p (delete i l).
Proof.
  revert i. induction l as [|a l IH]; intros i H; simpl in H; [discriminate|].
  destruct (p a) eqn:Hp.
  - inversion H; subst. simpl. rewrite Hp. reflexivity.
  - destruct (findIndex p l) as [j|] eqn:Hj; simpl in H; [|discriminate].
    inversion H; subst. simpl. rewrite Hp. apply IH. reflexivity.
Qed.

Lemma filter_length_delete_found {A} (p : A -> bool) (l : list A) i :
  findIndex p l = Some i ->
  length (List.filter p l) = S (length (List.filter p (delete i l))).
Proof.
  intros H. rewrite (filter_delete_found p l i H).
  destruct (findIndex_Some _ _ _ H) as (x & Hx & _). rewrite Hx. reflexivity.
Qed.

Lemma filter_nil_existsb {A} (p : A -> bool) (l : list A) :
  length (List.filter p l) = 0%nat -> existsb p l = false.
Proof.
  intros H. apply existsb_filter_nil. destruct (List.filter p l); [reflexivity|discriminate].
Qed.

Lemma length_delete_lookup {A} (l : list A) i x :
  l !! i = Some x -> S (length (delete i l)) = length l.
Proof.
  intros H. pose proof (length_delete l i (ltac:(eauto) : is_Some (l !! i))).
  apply lookup_lt_Some in H. lia.
Qed.

Lemma find_unique {A} (p : A -> bool) (l : list A) (x : A) :
  In x l -> p x = true -> (forall y, In y l -> p y = true -> y = x) ->
  List.find p l = Some x.
Proof.
  induction l as [|a l IH]; intros Hin Hp Huniq; [contradiction|].
  simpl. destruct (p a) eqn:Hpa.
  - f_equal. apply Huniq; [left; reflexivity|exact Hpa].
  - destruct Hin as [->|Hin]; [congruence|].
    apply IH; auto. intros y Hy. apply Huniq. right. exact Hy.
Qed.

Lemma findIndex_app_r {A} (p : A -> bool) (l : list A) (x : A) :
  existsb p l = false -> p x = true ->
  findIndex p (l ++ [x]) = Some (length l).
Proof.
  induction l as [|a l IH]; simpl; intros Hl Hx.
  - rewrite Hx. reflexivity.
  - apply orb_false_elim in Hl as (Ha & Hl). rewrite Ha, (IH Hl Hx). reflexivity.
Qed.

Lemma delete_app_last {A} (l : list A) (x : A) : delete (length l) (l ++ [x]) = l.
Proof. induction l as [|a l IH]; simpl; [reflexivity|]. rewrite IH. reflexivity. Qed.

Lemma NoDup_map_inj {A B} (f : A -> B) (l : list A) (x y : A) :
  NoDup (map f l) -> In x l -> In y l -> f x = f y -> x = y.
Proof.
  induction l as [|a l IH]; intros Hnd Hx Hy Hf; [contradiction|].
  simpl in Hnd. apply NoDup_cons in Hnd as (Hnotin & Hnd).
  destruct Hx as [->|Hx], Hy as [->|Hy]; auto.
  - exfalso. apply Hnotin. rewrite Hf. apply list_elem_of_In, in_map, Hy.
  - exfalso. apply Hnotin. rewrite <- Hf. apply list_elem_of_In, in_map, Hx.
Qed.

Lemma length_eqb_0 {A} (l : list A) : (length l =? 0)%nat = match l with [] => true | _ => false end.
Proof. destruct l; reflexivity. Qed.

Lemma length_ltb_0 {A} (l : list A) : (0 <? length l)%nat = match l with [] => false | _ => true end.
Proof. destruct l; reflexivity. Qed.

Lemma NoDup_fst_filter {A} (p : string * A -> bool) (l : list (string * A)) :
  NoDup l.*1 -> NoDup (List.filter p l).*1.
Proof.
  induction l as [|x l IH]; intros Hnd; [constructor|].
  simpl in Hnd. apply NoDup_cons in Hnd as (Hnotin & Hnd).
  simpl. destruct (p x); [|auto].
  simpl. apply NoDup_cons. split; [|auto].
  intros Hin. apply Hnotin. apply list_elem_of_fmap in Hin as (y & Hy & Hin).
  apply list_elem_of_fmap. exists y. split; [exact Hy|].
  apply list_elem_of_In in Hin. apply filter_In in Hin as (Hin & _).
  apply list_elem_of_In. exact Hin.
Qed.

(** ** Records *)

Lemma getField_setField_eq name v o : getField name (setField name v o) = Some v.
Proof.
  induction o as [|[k x] rest IH]; simpl.
  - rewrite String.eqb_refl. reflexivity.
  - destruct (String.eqb k name) eqn:E; simpl; rewrite E; auto.
Qed.

Lemma getField_setField_ne name other v o :
  name <> other -> getField other (setField name v o) = getField other o.
Proof.
  intros Hne. induction o as [|[k x] rest IH]; simpl.
  - destruct (String.eqb name other) eqn:E; [apply String.eqb_eq in E; contradiction | reflexivity].
  - destruct (String.eqb k name) eqn:E; simpl.
    + apply String.eqb_eq in E. subst k.
      destruct (String.eqb name other) eqn:E2; [apply String.eqb_eq in E2; contradiction | reflexivity].
    + rewrite IH. reflexivity.
Qed.

Lemma hasComposerId_stringComposerId sid s :
  hasComposerId sid s = true <-> stringComposerId s = Some sid.
Proof.
  unfold hasComposerId, stringComposerId.
  destruct (getField "composerId" s) as [[]|]; try (split; discriminate).
  split; intros H.
  - apply String.eqb_eq in H. congruence.
  - inversion H. apply String.eqb_refl.
Qed.

Lemma found_record sid (cs : list JObject) idx :
  findIndex (hasComposerId sid) cs = Some idx ->
  exists R, cs !! idx = Some R /\ hasComposerId sid R = true.
Proof.
  intros H. destruct (findIndex_Some _ _ _ H) as (x & Hx & Hp & _). eauto.
Qed.

(** ** Store reads and writes *)

Lemma recordsOf_setDatabases_insert w dbs file d other :
  recordsOf (setDatabases (<[file := d]> dbs) w) other =
  if decide (file = other)
  then match composerData d with Some cd => composers cd | None => [] end
  else recordsOf (setDatabases dbs w) other.
Proof.
  unfold recordsOf; simpl. rewrite lookup_insert.
  destruct (decide (file = other)); reflexivity.
Qed.

Lemma recordsOf_sameStores w w' file :
  databases w' = databases w -> recordsOf w' file = recordsOf w file.
Proof. intros H. unfold recordsOf. rewrite H. reflexivity. Qed.

Lemma recordsOf_composersOf w file d :
  databases w !! file = Some d -> recordsOf w file = composersOf d.
Proof. intros H. unfold recordsOf, composersOf. rewrite H. reflexivity. Qed.

Lemma updateComposerData_ok w db d cs f r :
  databases w !! db = Some d -> readOnly d = false ->
  updateComposerData db cs f r w =
  (Returned tt, setDatabases (<[db := withRecords d cs f r]> (databases w)) w).
Proof.
  intros Hd Hro. unfold updateComposerData. rewrite Hd.
  destruct (readOnly d) eqn:E; [discriminate|]. unfold withRecords. rewrite E. reflexivity.
Qed.

Lemma openDatabaseReadWrite_ok w file d :
  databases w !! file = Some d -> locked d = false ->
  openDatabaseReadWrite file w = (Returned file, w).
Proof. intros Hd Hl. unfold openDatabaseReadWrite. rewrite Hd, Hl. reflexivity. Qed.

Lemma openDatabaseReadWrite_inv w file o w' :
  openDatabaseReadWrite file w = (o, w') ->
  w' = w /\
  match o with
  | Returned h => h = file /\ exists d, databases w !! file = Some d /\ locked d = false
  | Threw _ => True
  end.
Proof.
  unfold openDatabaseReadWrite.
  destruct (databases w !! file) as [d|] eqn:Hd; [destruct (locked d) eqn:Hl|];
    intros H; inversion H; subst; split; eauto.
Qed.

Lemma openDatabaseReadWrite_world file w : snd (openDatabaseReadWrite file w) = w.
Proof.
  unfold openDatabaseReadWrite.
  destruct (databases w !! file) as [d|]; [destruct (locked d)|]; reflexivity.
Qed.

Lemma opens_inv w file :
  opens w file -> exists d, databases w !! file = Some d /\ locked d = false.
Proof.
  unfold opens. intros H.
  destruct (openDatabaseReadWrite file w) as [o w'] eqn:E.
  destruct (openDatabaseReadWrite_inv _ _ _ _ E) as (_ & Ho).
  simpl in H. subst o. tauto.
Qed.

Lemma writable_inv w file :
  writable w file = true ->
  exists d, databases w !! file = Some d /\ locked d = false /\ readOnly d = false.
Proof.
  unfold writable. destruct (databases w !! file) as [d|]; [|discriminate].
  destruct (locked d) eqn:E1, (readOnly d) eqn:E2; try discriminate. intros _. eauto.
Qed.

Lemma find_some_owner w sid A :
  List.find (ownsSession w sid) (workspaces w) = Some A ->
  exists dA cdA idx R,
    databases w !! dbPath A = Some dA /\ composerData dA = Some cdA /\
    findIndex (hasComposerId sid) (composers cdA) = Some idx /\
    composers cdA !! idx = Some R /\ hasComposerId sid R = true.
Proof.
  intros H. apply find_some in H as (_ & Hown).
  unfold ownsSession, recordsOf in Hown.
  destruct (databases w !! dbPath A) as [dA|] eqn:HdA; [|discriminate].
  destruct (composerData dA) as [cdA|] eqn:HcA; [|discriminate].
  destruct (findIndex (hasComposerId sid) (composers cdA)) as [idx|] eqn:Hidx.
  - destruct (found_record _ _ _ Hidx) as (R & HR & HRid).
    exists dA, cdA, idx, R. repeat split; assumption || reflexivity.
  - apply findIndex_None in Hidx. congruence.
Qed.

(** ** Identifier generation *)

Lemma generateSessionId_frame w o w' :
  generateSessionId w = (o, w') -> sameStores w w'.
Proof.
  unfold generateSessionId. destruct (replaceXY _ _ _). intros H; inversion H; subst.
  repeat split.
Qed.

Lemma generateSessionId_returns w : exists n w', generateSessionId w = (Returned n, w').
Proof. unfold generateSessionId. destruct (replaceXY _ _ _). eauto. Qed.

Lemma generateSessionId_nonempty w n w' :
  generateSessionId w = (Returned n, w') -> n <> ""%string.
Proof.
  unfold generateSessionId, uuidTemplate.
  destruct (replaceXY (randomDigit w) (randomCalls w) _) as [out k] eqn:E.
  intros H. injection H as <- _.
  simpl in E. injection E as <- _. discriminate.
Qed.

Lemma generateSessionId_global w o w' :
  generateSessionId w = (o, w') -> globalStorage w' = globalStorage w.
Proof.
  unfold generateSessionId. destruct (replaceXY _ _ _). intros H; inversion H; reflexivity.
Qed.

Lemma digit_cases (r : Z) :
  (0 <= r < 16)%Z ->
  In r [0; 1; 2; 3; 4; 5; 6; 7; 8; 9; 10; 11; 12; 13; 14; 15]%Z.
Proof. intros H. simpl. lia. Qed.

Lemma hexDigit_not_colon (r : Z) :
  (0 <= r < 16)%Z ->
  Ascii.eqb (hexDigit r) colon = false /\
  Ascii.eqb (hexDigit (Z.lor (Z.land r 3) 8)) colon = false.
Proof.
  intros H. apply digit_cases in H. simpl in H.
  repeat (destruct H as [<-|H]; [split; reflexivity|]). contradiction.
Qed.

Lemma replaceXY_colon_free digit k t :
  containsChar colon t = false ->
  containsChar colon (fst (replaceXY digit k t)) = false.
Proof.
  revert k. induction t as [|c t IH]; intros k Ht; [reflexivity|].
  simpl in Ht. apply orb_false_elim in Ht as (Hc & Ht).
  simpl replaceXY.
  destruct (Ascii.eqb c "x"%char || Ascii.eqb c "y"%char).
  - specialize (IH (S k) Ht). destruct (replaceXY digit (S k) t) as [out k'].
    simpl in *. rewrite IH, orb_false_r.
    destruct (hexDigit_not_colon (digit k mod 16)%Z) as (Hx & Hy);
      [apply Z.mod_pos_bound; lia|].
    destruct (Ascii.eqb c "x"%char); assumption.
  - specialize (IH k Ht). destruct (replaceXY digit k t) as [out k'].
    simpl in *. rewrite Hc, IH. reflexivity.
Qed.

(** A generated identifier holds no colon: it can be told apart from the
    content-item id inside a key of the global table. *)
Lemma generateSessionId_colon_free w n w' :
  generateSessionId w = (Returned n, w') -> containsChar colon n = false.
Proof.
  unfold generateSessionId.
  pose proof (replaceXY_colon_free (randomDigit w) (randomCalls w) uuidTemplate eq_refl) as H.
  destruct (replaceXY _ _ _) as [out k]. intros E. injection E as <- _. exact H.
Qed.

Lemma hexDigit_hexChar (r : Z) :
  (0 <= r < 16)%Z ->
  hexChar (hexDigit r) = true /\
  variantChar (hexDigit (Z.lor (Z.land r 3) 8)) = true.
Proof.
  intros H. apply digit_cases in H. simpl in H.
  repeat (destruct H as [<-|H]; [split; reflexivity|]). contradiction.
Qed.

(** The replacement fills every placeholder with a digit of its kind and
    draws one random number for each. *)
Lemma replaceXY_fits digit k t :
  fitsTemplate t (fst (replaceXY digit k t)) = true /\
  snd (replaceXY digit k t) = (k + placeholders t)%nat.
Proof.
  revert k. induction t as [|c t IH]; intros k; [simpl; split; [reflexivity|lia]|].
  simpl replaceXY. simpl placeholders.
  destruct (hexDigit_hexChar (digit k mod 16)%Z) as (Hx & Hy);
    [apply Z.mod_pos_bound; lia|].
  destruct (Ascii.eqb c "x"%char) eqn:Ex.
  - simpl orb. cbv iota. destruct (IH (S k)) as (IH1 & IH2).
    destruct (replaceXY digit (S k) t) as [out k']. simpl in *.
    rewrite Ex, Hx, IH1. split; [reflexivity|lia].
  - destruct (Ascii.eqb c "y"%char) eqn:Ey.
    + simpl orb. cbv iota. destruct (IH (S k)) as (IH1 & IH2).
      destruct (replaceXY digit (S k) t) as [out k']. simpl in *.
      rewrite Ex, Ey, Hy, IH1. split; [reflexivity|lia].
    + simpl orb. cbv iota. destruct (IH k) as (IH1 & IH2).
      destruct (replaceXY digit k t) as [out k']. simpl in *.
      rewrite Ex, Ey, Ascii.eqb_refl, IH1. split; [reflexivity|lia].
Qed.

Lemma fitsTemplate_length t s :
  fitsTemplate t s = true -> String.length s = String.length t.
Proof.
  revert s. induction t as [|c t IH]; intros [|a s]; simpl; try discriminate; [reflexivity|].
  intros H. apply andb_true_iff in H as (_ & H). f_equal. apply IH, H.
Qed.

Lemma generateSessionId_run w :
  generateSessionId w =
  (Returned (fst (replaceXY (randomDigit w) (randomCalls w) uuidTemplate)),
   setRandomCalls (snd (replaceXY (randomDigit w) (randomCalls w) uuidTemplate)) w).
Proof. unfold generateSessionId. destruct (replaceXY _ _ _); reflexivity. Qed.

Lemma generateSessionId_fits w n w' :
  generateSessionId w = (Returned n, w') -> fitsTemplate uuidTemplate n = true.
Proof.
  rewrite generateSessionId_run. intros H.
  pose proof (replaceXY_fits (randomDigit w) (randomCalls w) uuidTemplate) as (Hfit & _).
  destruct (replaceXY (randomDigit w) (randomCalls w) uuidTemplate) as [out k].
  cbn [fst snd] in H, Hfit. injection H as <- _. exact Hfit.
Qed.

Lemma drawn_fits w k : fitsTemplate uuidTemplate (drawn w k) = true.
Proof. apply replaceXY_fits. Qed.

Lemma ahead_refl w : ahead w 0 w.
Proof. split; [reflexivity|lia]. Qed.

(** After [c] identifiers, the next one generated is the [c]-th. *)
Lemma generateSessionId_drawn w c wc :
  ahead w c wc ->
  exists w1,
    generateSessionId wc = (Returned (drawn w c), w1) /\
    ahead w (S c) w1 /\
    globalStorage w1 = globalStorage wc.
Proof.
  intros (Hd & Hc). rewrite generateSessionId_run, Hd, Hc.
  pose proof (replaceXY_fits (randomDigit w) (randomCalls w + 31 * c) uuidTemplate) as (_ & Hk).
  eexists. split; [reflexivity|].
  split; [|reflexivity]. split; [exact Hd|].
  cbn [randomCalls setRandomCalls]. rewrite Hk.
  change (placeholders uuidTemplate) with 31. lia.
Qed.

Opaque generateSessionId.

(** ** Frame: replication leaves the workspace stores alone *)

Lemma sameStores_refl w : sameStores w w.
Proof. repeat split. Qed.

Lemma sameStores_trans w1 w2 w3 : sameStores w1 w2 -> sameStores w2 w3 -> sameStores w1 w3.
Proof. unfold sameStores. intros (?&?&?) (?&?&?). repeat split; congruence. Qed.

Lemma kvInsertOrReplace_frame k v w : sameStores w (snd (kvInsertOrReplace k v w)).
Proof. repeat split. Qed.

Lemma copyHeaders_frame headers acc m w :
  sameStores w (snd (copyHeaders headers acc m w)).
Proof.
  revert acc m w. induction headers as [|h rest IH]; intros acc m w; simpl.
  - apply sameStores_refl.
  - unfold bind. unfold liftJs at 1.
    destruct (getProp "bubbleId" h) as [[b|]|e]; simpl; try apply IH; try apply sameStores_refl.
    destruct (truthy b); [|apply IH].
    destruct (generateSessionId w) as [[n|e] w1] eqn:Hg; simpl.
    + eapply sameStores_trans; [exact (generateSessionId_frame _ _ _ Hg) | apply IH].
    + exact (generateSessionId_frame _ _ _ Hg).
Qed.

Lemma copyRows_frame new rows m w :
  sameStores w (snd (copyRows new rows m w)).
Proof.
  revert m w. induction rows as [|[key value] rest IH]; intros m w; simpl.
  - apply sameStores_refl.
  - destruct (split colon key !! 2%nat) as [ob|]; [|apply IH].
    destruct (String.eqb ob ""); [apply IH|].
    unfold bind.
    match goal with |- context [match ?x with Some _ => _ | None => _ end w] => destruct x end.
    + unfold ret at 1. simpl. unfold liftJs.
      destruct (setProp _ _ _); simpl; [|apply sameStores_refl].
      eapply sameStores_trans; [|apply IH]. apply kvInsertOrReplace_frame.
    + unfold bind. destruct (generateSessionId w) as [[n|e] w1] eqn:Hg; simpl.
      * unfold liftJs. pose proof (generateSessionId_frame _ _ _ Hg).
        destruct (setProp _ _ _); simpl; [|assumption].
        eapply sameStores_trans; [eassumption|].
        eapply sameStores_trans; [|apply IH]. apply kvInsertOrReplace_frame.
      * exact (generateSessionId_frame _ _ _ Hg).
Qed.

Lemma copyBubbleDataInGlobalStorage_frame old new w :
  sameStores w (snd (copyBubbleDataInGlobalStorage old new w)).
Proof.
  unfold copyBubbleDataInGlobalStorage, bind. unfold gets at 1.
  destruct (globalStorage w) as [t|] eqn:Hg; [|apply sameStores_refl].
  unfold kvGet, gets. rewrite Hg.
  destruct (t !! _) as [value|].
  - unfold bind, liftJs.
    destruct (setProp "composerId" _ value) as [cd|e]; simpl; [|apply sameStores_refl].
    destruct (getProp _ cd) as [hp|e]; simpl; [|apply sameStores_refl].
    match goal with |- context [iterate ?x] => destruct (iterate x) as [hs|e] end;
      simpl; [|apply sameStores_refl].
    pose proof (copyHeaders_frame hs [] ∅ w) as Hh.
    destruct (copyHeaders hs [] ∅ w) as [[copied|e] w1]; simpl in *; [|assumption].
    destruct (setProp _ _ cd) as [cd2|e]; simpl; [|assumption].
    unfold kvInsertOrReplace, modify, ret, kvSelectLike, gets. simpl.
    eapply sameStores_trans; [eassumption|].
    eapply sameStores_trans; [|apply copyRows_frame]. repeat split.
  - unfold ret, kvSelectLike, gets. simpl. apply copyRows_frame.
Qed.

(** ** The mutation phase *)

(** Both stores open: step into the mutation phase up to its reads. *)
Ltac enter_mutation HA HlA HB HlB :=
  unfold performMigration, bind;
  rewrite (openDatabaseReadWrite_ok _ _ _ HA HlA),
          (openDatabaseReadWrite_ok _ _ _ HB HlB);
  unfold getComposerData, gets.

Lemma performMigration_move_ok w sid A B sw nd dA dB cdA idx :
  databases w !! dbPath A = Some dA -> locked dA = false -> readOnly dA = false ->
  databases w !! dbPath B = Some dB -> locked dB = false -> readOnly dB = false ->
  composerData dA = Some cdA ->
  findIndex (hasComposerId sid) (composers cdA) = Some idx ->
  performMigration sid Move A B sw nd w =
  (Returned (moveResult sid sw nd), movedWorld w (dbPath A) (dbPath B) dA dB cdA idx).
Proof.
  intros HA HlA HrA HB HlB HrB HcA Hidx.
  unfold performMigration, bind.
  rewrite (openDatabaseReadWrite_ok _ _ _ HA HlA).
  rewrite (openDatabaseReadWrite_ok _ _ _ HB HlB).
  unfold getComposerData, gets. rewrite HA, HB, HcA, Hidx.
  rewrite (updateComposerData_ok _ _ _ _ _ _ HA HrA).
  set (w1 := setDatabases _ w).
  assert (HB1 : exists dB1, databases w1 !! dbPath B = Some dB1 /\ readOnly dB1 = false
                 /\ locked dB1 = locked dB /\ readOnly dB1 = readOnly dB).
  { subst w1; simpl. rewrite lookup_insert. destruct (decide (dbPath A = dbPath B)) as [e|ne].
    - eexists; split; [reflexivity|]. simpl. rewrite e in HA. rewrite HA in HB. inversion HB; subst. auto.
    - exists dB. auto. }
  destruct HB1 as (dB1 & HB1 & HrB1 & El & Er).
  rewrite (updateComposerData_ok _ _ _ _ _ _ HB1 HrB1).
  unfold ret. f_equal.
  unfold movedWorld, withRecords, composersOf, destFormatOf, destRawOf. subst w1. simpl.
  unfold setDatabases; simpl. rewrite El, Er. reflexivity.
Qed.

(** What the mutation phase does when nothing throws, in full. *)
Lemma performMigration_copy_ok w sid A B sw nd dA dB cdA idx nid w1 m w2 :
  databases w !! dbPath A = Some dA -> locked dA = false ->
  databases w !! dbPath B = Some dB -> locked dB = false -> readOnly dB = false ->
  composerData dA = Some cdA ->
  findIndex (hasComposerId sid) (composers cdA) = Some idx ->
  generateSessionId w = (Returned nid, w1) ->
  copyBubbleDataInGlobalStorage sid nid w1 = (Returned m, w2) ->
  performMigration sid Copy A B sw nd w =
  (Returned (copyResult sid sw nd nid),
   setDatabases
     (<[dbPath B := withRecords dB
          (composersOf dB ++ [setField "composerId" (JStr nid)
                                (default ([] : JObject) (composers cdA !! idx))])
          (destFormatOf dB cdA) (destRawOf dB)]> (databases w)) w2).
Proof.
  intros HA HlA HB HlB HrB HcA Hidx Hgen Hcopy.
  unfold performMigration, bind.
  rewrite (openDatabaseReadWrite_ok _ _ _ HA HlA).
  rewrite (openDatabaseReadWrite_ok _ _ _ HB HlB).
  unfold getComposerData, gets. rewrite HA, HB, HcA, Hidx, Hgen, Hcopy.
  pose proof (generateSessionId_frame _ _ _ Hgen) as (_ & Hd1 & _).
  pose proof (copyBubbleDataInGlobalStorage_frame sid nid w1) as (_ & Hd2 & _).
  rewrite Hcopy in Hd2; simpl in Hd2.
  assert (HB2 : databases w2 !! dbPath B = Some dB) by (rewrite Hd2, Hd1; exact HB).
  rewrite (updateComposerData_ok _ _ _ _ _ _ HB2 HrB).
  unfold ret, copyResult, deepClone. f_equal.
  unfold composersOf, destFormatOf, destRawOf. rewrite Hd2, Hd1. reflexivity.
Qed.

Lemma performMigration_copy_inv sid A B sw nd w r w' :
  performMigration sid Copy A B sw nd w = (Returned r, w') ->
  exists dA dB cdA idx R nid w1 m w2,
    databases w !! dbPath A = Some dA /\
    databases w !! dbPath B = Some dB /\
    composerData dA = Some cdA /\
    findIndex (hasComposerId sid) (composers cdA) = Some idx /\
    composers cdA !! idx = Some R /\ hasComposerId sid R = true /\
    generateSessionId w = (Returned nid, w1) /\
    copyBubbleDataInGlobalStorage sid nid w1 = (Returned m, w2) /\
    r = copyResult sid sw nd nid /\
    w' = setDatabases
           (<[dbPath B := withRecords dB
                (composersOf dB ++ [setField "composerId" (JStr nid) R])
                (destFormatOf dB cdA) (destRawOf dB)]> (databases w)) w2.
Proof.
  destruct (databases w !! dbPath A) as [dA|] eqn:HA.
  2:{ unfold performMigration, bind, openDatabaseReadWrite. rewrite HA. discriminate. }
  destruct (locked dA) eqn:HlA.
  { unfold performMigration, bind, openDatabaseReadWrite. rewrite HA, HlA. discriminate. }
  destruct (databases w !! dbPath B) as [dB|] eqn:HB.
  2:{ unfold performMigration, bind, openDatabaseReadWrite. rewrite HA, HlA, HB. discriminate. }
  destruct (locked dB) eqn:HlB.
  { unfold performMigration, bind, openDatabaseReadWrite. rewrite HA, HlA, HB, HlB. discriminate. }
  destruct (composerData dA) as [cdA|] eqn:HcA.
  2:{ enter_mutation HA HlA HB HlB. rewrite HA, HcA. discriminate. }
  destruct (findIndex (hasComposerId sid) (composers cdA)) as [idx|] eqn:Hidx.
  2:{ enter_mutation HA HlA HB HlB. rewrite HA, HcA, Hidx. discriminate. }
  destruct (found_record _ _ _ Hidx) as (R & HR & HRid).
  destruct (generateSessionId_returns w) as (nid & w1 & Hgen).
  pose proof (generateSessionId_frame _ _ _ Hgen) as (Hw1 & Hd1 & _).
  pose proof (copyBubbleDataInGlobalStorage_frame sid nid w1) as (Hw2 & Hd2 & _).
  destruct (copyBubbleDataInGlobalStorage sid nid w1) as [[m|e] w2] eqn:Hcopy; simpl in *.
  2:{ enter_mutation HA HlA HB HlB. rewrite HA, HB, HcA, Hidx, Hgen, Hcopy. discriminate. }
  destruct (readOnly dB) eqn:HrB.
  { enter_mutation HA HlA HB HlB. rewrite HA, HB, HcA, Hidx, Hgen, Hcopy.
    unfold updateComposerData. rewrite Hd2, Hd1, HB, HrB. discriminate. }
  rewrite (performMigration_copy_ok w sid A B sw nd dA dB cdA idx nid w1 m w2) by assumption.
  intros H. injection H as <- <-. rewrite HR. simpl.
  exists dA, dB, cdA, idx, R, nid, w1, m, w2. repeat split; assumption.
Qed.

(** The effect of the mutation phase on the destination array and on the
    rest of the world, whatever happens. *)
Lemma performMigration_effect sid mode A B sw nd w :
  match performMigration sid mode A B sw nd w with
  | (Threw e, w') =>
      workspaces w' = workspaces w /\
      recordsOf w' (dbPath B) = recordsOf w (dbPath B) /\
      (mode = Copy -> databases w' = databases w)
  | (Returned r, w') =>
      workspaces w' = workspaces w /\
      SessionResult.success r = true /\
      SessionResult.dryRun r = false /\
      SessionResult.sessionId r = sid /\
      SessionResult.mode r = mode /\
      (mode = Copy -> forall f, f <> dbPath B -> databases w' !! f = databases w !! f) /\
      exists rec,
        recordsOf w' (dbPath B) = recordsOf w (dbPath B) ++ [rec] /\
        stringComposerId rec = Some (migratedId r)
  end.
Proof.
  destruct (databases w !! dbPath A) as [dA|] eqn:HA.
  2:{ unfold performMigration, bind, openDatabaseReadWrite. rewrite HA. auto. }
  destruct (locked dA) eqn:HlA.
  { unfold performMigration, bind, openDatabaseReadWrite. rewrite HA, HlA. auto. }
  destruct (databases w !! dbPath B) as [dB|] eqn:HB.
  2:{ unfold performMigration, bind, openDatabaseReadWrite. rewrite HA, HlA, HB. auto. }
  destruct (locked dB) eqn:HlB.
  { unfold performMigration, bind, openDatabaseReadWrite. rewrite HA, HlA, HB, HlB. auto. }
  destruct (composerData dA) as [cdA|] eqn:HcA.
  2:{ enter_mutation HA HlA HB HlB. rewrite HA, HcA. unfold throw. auto. }
  destruct (findIndex (hasComposerId sid) (composers cdA)) as [idx|] eqn:Hidx.
  2:{ enter_mutation HA HlA HB HlB. rewrite HA, HcA, Hidx. unfold throw. auto. }
  destruct (found_record _ _ _ Hidx) as (R & HR & HRid).
  apply hasComposerId_stringComposerId in HRid.
  destruct mode.
  - (* move *)
    destruct (readOnly dA) eqn:HrA.
    { enter_mutation HA HlA HB HlB. rewrite HA, HB, HcA, Hidx.
      unfold updateComposerData at 1. rewrite HA, HrA. split; [reflexivity|]. split; [reflexivity|discriminate]. }
    destruct (readOnly dB) eqn:HrB.
    { enter_mutation HA HlA HB HlB. rewrite HA, HB, HcA, Hidx.
      rewrite (updateComposerData_ok _ _ _ _ _ _ HA HrA).
      assert (Hne : dbPath A <> dbPath B).
      { intros e. rewrite e in HA. rewrite HA in HB. inversion HB; subst. congruence. }
      unfold updateComposerData. simpl. rewrite lookup_insert_ne by exact Hne.
      rewrite HB, HrB. split; [reflexivity|]. split; [|discriminate].
      rewrite recordsOf_setDatabases_insert. destruct (decide _); [contradiction|reflexivity]. }
    rewrite (performMigration_move_ok w sid A B sw nd dA dB cdA idx) by assumption.
    repeat (split; [reflexivity|]). split; [discriminate|].
    exists R. unfold movedWorld. rewrite recordsOf_setDatabases_insert.
    destruct (decide _); [|contradiction]. simpl.
    rewrite (recordsOf_composersOf _ _ _ HB), HR. split; [reflexivity|exact HRid].
  - (* copy *)
    destruct (generateSessionId_returns w) as (nid & w1 & Hgen).
    pose proof (generateSessionId_frame _ _ _ Hgen) as (Hw1 & Hd1 & _).
    pose proof (copyBubbleDataInGlobalStorage_frame sid nid w1) as (Hw2 & Hd2 & _).
    destruct (copyBubbleDataInGlobalStorage sid nid w1) as [[m|e] w2] eqn:Hcopy; simpl in *.
    2:{ enter_mutation HA HlA HB HlB. rewrite HA, HB, HcA, Hidx, Hgen, Hcopy.
        split; [congruence|]. split; [|congruence].
        apply recordsOf_sameStores. congruence. }
    destruct (readOnly dB) eqn:HrB.
    { enter_mutation HA HlA HB HlB. rewrite HA, HB, HcA, Hidx, Hgen, Hcopy.
      unfold updateComposerData. rewrite Hd2, Hd1, HB, HrB.
      split; [congruence|]. split; [|congruence].
      apply recordsOf_sameStores. congruence. }
    rewrite (performMigration_copy_ok w sid A B sw nd dA dB cdA idx nid w1 m w2) by assumption.
    split; [simpl; congruence|]. repeat (split; [reflexivity|]).
    split.
    { intros _ f Hf. simpl. rewrite lookup_insert_ne by congruence. reflexivity. }
    eexists. rewrite recordsOf_setDatabases_insert.
    destruct (decide _); [|contradiction]. simpl.
    rewrite (recordsOf_composersOf _ _ _ HB). split; [reflexivity|].
    unfold stringComposerId, migratedId. simpl. rewrite getField_setField_eq. reflexivity.
Qed.

Lemma recordsOf_movedWorld_dest w A B dA dB cdA idx :
  recordsOf (movedWorld w A B dA dB cdA idx) B =
  composersOf dB ++ [default ([] : JObject) (composers cdA !! idx)].
Proof.
  unfold movedWorld. rewrite recordsOf_setDatabases_insert.
  destruct (decide (B = B)); [reflexivity|contradiction].
Qed.

Lemma recordsOf_movedWorld_source w A B dA dB cdA idx :
  A <> B ->
  recordsOf (movedWorld w A B dA dB cdA idx) A = delete idx (composers cdA).
Proof.
  intros Hne. unfold movedWorld. rewrite recordsOf_setDatabases_insert.
  destruct (decide (B = A)); [congruence|].
  rewrite recordsOf_setDatabases_insert.
  destruct (decide (A = A)); [reflexivity|contradiction].
Qed.

Lemma recordsOf_movedWorld_other w A B dA dB cdA idx other :
  other <> A -> other <> B ->
  recordsOf (movedWorld w A B dA dB cdA idx) other = recordsOf w other.
Proof.
  intros HA HB. unfold movedWorld. rewrite !recordsOf_setDatabases_insert.
  destruct (decide (B = other)); [congruence|].
  destruct (decide (A = other)); [congruence|]. reflexivity.
Qed.

Lemma writable_movedWorld w A B dA dB cdA idx file :
  databases w !! A = Some dA -> databases w !! B = Some dB ->
  writable (movedWorld w A B dA dB cdA idx) file = writable w file.
Proof.
  intros HA HB. unfold writable, movedWorld. simpl.
  rewrite !lookup_insert.
  destruct (decide (B = file)) as [<-|]; [rewrite HB; reflexivity|].
  destruct (decide (A = file)) as [<-|]; [rewrite HA; reflexivity|]. reflexivity.
Qed.

(** ** One record *)

Lemma migrateSessionInterleaved_unfold host env sid opts w :
  migrateSessionInterleaved host env sid opts w =
  match resolve host sid (destination opts) w with
  | Threw e => (Threw e, w)
  | Returned (A, B) =>
      let nd := normalizePath host (destination opts) in
      if dryRun opts then (Returned (dryRunResult sid (path A) nd (mode opts)), w)
      else tryCatch (performMigration sid (mode opts) A B (path A) nd)
             (fun e => ret (failureResult sid (mode opts) (path A) nd e)) (env w)
  end.
Proof.
  unfold migrateSessionInterleaved, resolve, bind, findWorkspaceForSession,
    findWorkspaceByPath, gets, throw.
  destruct (List.find (ownsSession w sid) (workspaces w)) as [A|]; [|reflexivity].
  destruct (pathsEqual host (path A) _); [reflexivity|].
  destruct (List.find _ (workspaces w)) as [B|]; [|reflexivity].
  destruct (dryRun opts); reflexivity.
Qed.

Lemma migrateSession_unfold host sid opts w :
  migrateSession host sid opts w =
  match resolve host sid (destination opts) w with
  | Threw e => (Threw e, w)
  | Returned (A, B) =>
      let nd := normalizePath host (destination opts) in
      if dryRun opts then (Returned (dryRunResult sid (path A) nd (mode opts)), w)
      else tryCatch (performMigration sid (mode opts) A B (path A) nd)
             (fun e => ret (failureResult sid (mode opts) (path A) nd e)) w
  end.
Proof. apply (migrateSessionInterleaved_unfold host (fun w => w)). Qed.

Lemma resolvesTo_resolve host w sid dest A B :
  resolvesTo host w sid dest A B <-> resolve host sid dest w = Returned (A, B).
Proof.
  unfold resolvesTo, resolve, findWorkspaceForSession, findWorkspaceByPath, gets. simpl.
  split.
  - intros (H1 & H2 & H3). inversion H1 as [H1']. inversion H3 as [H3'].
    rewrite H1', H2, H3'. reflexivity.
  - destruct (List.find (ownsSession w sid) _) as [A'|]; [|discriminate].
    destruct (pathsEqual _ _ _) eqn:E; [discriminate|].
    destruct (List.find _ _) as [B'|]; [|discriminate].
    intros H. inversion H; subst. auto.
Qed.

Lemma resolve_workspaces host sid dest w w' A B :
  workspaces w' = workspaces w ->
  resolve host sid dest w = Returned (A, B) ->
  List.find (fun ws => String.eqb (normalizePath host (path ws)) (normalizePath host dest))
    (workspaces w') = Some B.
Proof.
  intros Hw. unfold resolve. rewrite Hw.
  destruct (List.find (ownsSession w sid) _); [|discriminate].
  destruct (pathsEqual _ _ _); [discriminate|].
  destruct (List.find _ _); [|discriminate]. congruence.
Qed.

Lemma migrateSession_thrown host sid opts w e w' :
  migrateSession host sid opts w = (Threw e, w') -> w' = w.
Proof.
  rewrite migrateSession_unfold.
  destruct (resolve _ _ _ _) as [[A B]|e0]; [|intros H; inversion H; reflexivity].
  simpl. destruct (dryRun opts); [discriminate|].
  unfold tryCatch. destruct (performMigration _ _ _ _ _ _ _) as [[r|e1] w1]; discriminate.
Qed.

Lemma migrateSession_dry host sid dest md f w :
  snd (migrateSession host sid (mkSessionOptions dest md true f) w) = w.
Proof.
  rewrite migrateSession_unfold. simpl.
  destruct (resolve _ _ _ _) as [[A B]|e]; reflexivity.
Qed.

(** A successful move, in full: the world it leaves. *)
Lemma move_effect host w sid dest f A B :
  resolvesTo host w sid dest A B ->
  writable w (dbPath A) = true -> writable w (dbPath B) = true ->
  exists dA dB cdA idx R,
    databases w !! dbPath A = Some dA /\
    databases w !! dbPath B = Some dB /\
    composerData dA = Some cdA /\
    findIndex (hasComposerId sid) (composers cdA) = Some idx /\
    composers cdA !! idx = Some R /\ hasComposerId sid R = true /\
    migrateSession host sid (mkSessionOptions dest Move false f) w =
    (Returned (moveResult sid (path A) (normalizePath host dest)),
     movedWorld w (dbPath A) (dbPath B) dA dB cdA idx).
Proof.
  intros Hres HwA HwB.
  pose proof Hres as (Hfind & _ & _).
  unfold findWorkspaceForSession, gets in Hfind. simpl in Hfind. injection Hfind as Hfind.
  destruct (find_some_owner _ _ _ Hfind) as (dA & cdA & idx & R & HdA & HcA & Hidx & HR & HRid).
  destruct (writable_inv _ _ HwA) as (dA' & HdA' & HlA & HrA).
  rewrite HdA in HdA'. injection HdA' as <-.
  destruct (writable_inv _ _ HwB) as (dB & HdB & HlB & HrB).
  exists dA, dB, cdA, idx, R. repeat (split; [assumption|]).
  apply resolvesTo_resolve in Hres.
  rewrite migrateSession_unfold. simpl. rewrite Hres. unfold tryCatch.
  rewrite (performMigration_move_ok w sid A B _ _ dA dB cdA idx) by assumption.
  reflexivity.
Qed.

Lemma destinationOf_workspaces host dest w w' :
  workspaces w' = workspaces w -> destinationOf host dest w' = destinationOf host dest w.
Proof. intros H. unfold destinationOf. rewrite H. reflexivity. Qed.

Lemma attempt_effect host sid opts w :
  exists r w', attempt host sid opts w = (Returned r, w') /\
    SessionResult.sessionId r = sid /\
    SessionResult.dryRun r = dryRun opts /\
    workspaces w' = workspaces w /\
    (dryRun opts = true -> w' = w) /\
    (mode opts = Copy -> forall B, destinationOf host (destination opts) w = Some B ->
       forall f, f <> dbPath B -> databases w' !! f = databases w !! f) /\
    forall B, destinationOf host (destination opts) w = Some B ->
      if SessionResult.success r && negb (SessionResult.dryRun r)
      then exists rec, recordsOf w' (dbPath B) = recordsOf w (dbPath B) ++ [rec] /\
                       stringComposerId rec = Some (migratedId r)
      else recordsOf w' (dbPath B) = recordsOf w (dbPath B).
Proof.
  unfold attempt, tryCatch. rewrite migrateSession_unfold.
  destruct (resolve host sid (destination opts) w) as [[A B]|e] eqn:Hres.
  2:{ eexists _, w. split; [reflexivity|]. simpl.
      repeat (split; [intros; reflexivity|]). intros B _. reflexivity. }
  assert (HB : destinationOf host (destination opts) w = Some B)
    by (eapply resolve_workspaces; [reflexivity|eassumption]).
  simpl. destruct (dryRun opts) eqn:Hdry.
  { eexists _, w. split; [reflexivity|]. simpl.
    repeat (split; [intros; reflexivity|]). intros B' _. reflexivity. }
  pose proof (performMigration_effect sid (mode opts) A B (path A)
                (normalizePath host (destination opts)) w) as Heff.
  unfold tryCatch.
  destruct (performMigration _ _ _ _ _ _ _) as [[r|e] w1].
  - destruct Heff as (Hw & Hs & Hd & Hsid & Hmode & Hcopy & rec & Hrec & Hid).
    exists r, w1. split; [reflexivity|]. repeat (split; [assumption|]).
    split; [discriminate|]. split.
    { intros Hm B' HB'. rewrite HB in HB'. inversion HB'; subst. auto. }
    intros B' HB'. rewrite HB in HB'. inversion HB'; subst B'.
    rewrite Hs, Hd. simpl. eauto.
  - destruct Heff as (Hw & Hrec & Hcopy).
    eexists _, w1. split; [reflexivity|]. simpl. repeat (split; [reflexivity|]).
    split; [assumption|]. split; [discriminate|]. split.
    { intros Hm B' _ f _. rewrite (Hcopy Hm). reflexivity. }
    intros B' HB'. rewrite HB in HB'. inversion HB'; subst B'. exact Hrec.
Qed.

Lemma attempt_returns host sid opts w :
  exists r w', attempt host sid opts w = (Returned r, w').
Proof. destruct (attempt_effect host sid opts w) as (r & w' & H & _). eauto. Qed.

Lemma attempt_settled host sid opts w r w' :
  attempt host sid opts w = (Returned r, w') ->
  r = settled sid opts (migrateSession host sid opts w).
Proof.
  unfold attempt, tryCatch, settled.
  destruct (migrateSession host sid opts w) as [[r0|e] w0]; intros H; inversion H; reflexivity.
Qed.

(** ** The batch loop *)

Lemma migrateEach_cons host sid rest opts acc w :
  migrateEach host (sid :: rest) opts acc w =
  match attempt host sid opts w with
  | (Returned r, w1) => migrateEach host rest opts (acc ++ [r]) w1
  | (Threw e, w1) => (Threw e, w1)
  end.
Proof. reflexivity. Qed.

(** The loop only ever appends to the results it was given. *)
Lemma migrateEach_acc host ids opts acc w :
  exists rs w',
    migrateEach host ids opts [] w = (Returned rs, w') /\
    migrateEach host ids opts acc w = (Returned (acc ++ rs), w').
Proof.
  revert acc w. induction ids as [|sid rest IH]; intros acc w.
  - exists [], w. split; [reflexivity|]. rewrite app_nil_r. reflexivity.
  - rewrite !migrateEach_cons.
    destruct (attempt_returns host sid opts w) as (r & w1 & Hr). rewrite Hr.
    destruct (IH [r] w1) as (rs & w' & H0 & H1).
    destruct (IH (acc ++ [r]) w1) as (rs2 & w2 & H0' & H2).
    rewrite H0 in H0'. inversion H0'; subst rs2 w2.
    exists (r :: rs), w'. simpl. rewrite H1. split; [reflexivity|].
    rewrite H2, <- app_assoc. reflexivity.
Qed.

Lemma migrateEach_app host ids1 ids2 opts w :
  exists rs1 w1 rs2 w2,
    migrateEach host ids1 opts [] w = (Returned rs1, w1) /\
    migrateEach host ids2 opts [] w1 = (Returned rs2, w2) /\
    migrateEach host (ids1 ++ ids2) opts [] w = (Returned (rs1 ++ rs2), w2).
Proof.
  revert w. induction ids1 as [|sid rest IH]; intros w.
  - destruct (migrateEach_acc host ids2 opts [] w) as (rs & w' & H & _).
    exists [], w, rs, w'. simpl. auto.
  - destruct (attempt_returns host sid opts w) as (r & wa & Hr).
    destruct (IH wa) as (rs1 & w1 & rs2 & w2 & H1 & H2 & H12).
    exists (r :: rs1), w1, rs2, w2.
    simpl app. rewrite !migrateEach_cons, Hr. simpl.
    destruct (migrateEach_acc host rest opts [r] wa) as (x & wx & Hx0 & Hx).
    rewrite H1 in Hx0. inversion Hx0; subst x wx.
    destruct (migrateEach_acc host (rest ++ ids2) opts [r] wa) as (y & wy & Hy0 & Hy).
    rewrite H12 in Hy0. inversion Hy0; subst y wy.
    rewrite Hx, Hy. auto.
Qed.

Lemma migrateEach_ids host ids opts w rs w' :
  migrateEach host ids opts [] w = (Returned rs, w') ->
  map SessionResult.sessionId rs = ids.
Proof.
  revert w rs w'. induction ids as [|sid rest IH]; intros w rs w' H.
  - inversion H. reflexivity.
  - rewrite migrateEach_cons in H.
    destruct (attempt_effect host sid opts w) as (r & w1 & Hr & Hsid & _).
    rewrite Hr in H.
    destruct (migrateEach_acc host rest opts [r] w1) as (x & wx & Hx0 & Hx).
    simpl in H. rewrite Hx in H. injection H as Hrs Hw. subst rs.
    simpl. rewrite Hsid, (IH _ _ _ Hx0). reflexivity.
Qed.


(** The effect of a whole batch on the destination array. *)
Lemma migrateEach_effect host ids opts w rs w' :
  migrateEach host ids opts [] w = (Returned rs, w') ->
  workspaces w' = workspaces w /\
  Forall (fun r => SessionResult.dryRun r = dryRun opts) rs /\
  (dryRun opts = true -> w' = w) /\
  forall B, destinationOf host (destination opts) w = Some B ->
    (mode opts = Copy -> forall f, f <> dbPath B -> databases w' !! f = databases w !! f) /\
    exists extra,
      recordsOf w' (dbPath B) = recordsOf w (dbPath B) ++ extra /\
      Forall2 (fun rec r => stringComposerId rec = Some (migratedId r))
              extra (List.filter migrated rs).
Proof.
  revert w rs w'. induction ids as [|sid rest IH]; intros w rs w' H.
  - inversion H; subst. split; [reflexivity|]. split; [constructor|]. split; [reflexivity|].
    intros B _. split; [reflexivity|]. exists []. rewrite app_nil_r. split; [reflexivity|constructor].
  - rewrite migrateEach_cons in H.
    destruct (attempt_effect host sid opts w) as (r & w1 & Hr & _ & Hdry & Hws & Hsame & Hcopy & Hdest).
    rewrite Hr in H.
    destruct (migrateEach_acc host rest opts ([] ++ [r]) w1) as (x & wx & Hx0 & Hx).
    rewrite Hx in H. injection H as Hrs Hw. subst rs wx.
    destruct (IH _ _ _ Hx0) as (Hws' & Hall & Hsame' & Hdest').
    split; [congruence|]. split; [constructor; assumption|].
    split; [intros Hd; rewrite (Hsame' Hd); auto|].
    intros B HB.
    assert (HB1 : destinationOf host (destination opts) w1 = Some B)
      by (rewrite (destinationOf_workspaces _ _ _ _ Hws); exact HB).
    destruct (Hdest' B HB1) as (Hcopy' & extra & Hextra & Hids).
    split.
    { intros Hm f Hf. rewrite (Hcopy' Hm f Hf). apply (Hcopy Hm B HB f Hf). }
    specialize (Hdest B HB). simpl.
    change (SessionResult.success r && negb (SessionResult.dryRun r)) with (migrated r) in Hdest.
    destruct (migrated r).
    + destruct Hdest as (rec & Hrec & Hid). exists (rec :: extra).
      rewrite Hextra, Hrec, <- app_assoc. split; [reflexivity|]. constructor; assumption.
    + exists extra. rewrite Hextra, Hdest. split; [reflexivity|assumption].
Qed.

(** ** The whole workspace *)

Lemma migrateWorkspace_unfold host options w :
  migrateWorkspace host options w =
  match validateWorkspace host options w with
  | Threw e => (Threw e, w)
  | Returned ids =>
      match migrateEach host ids (batchOptions host options) [] w with
      | (Returned results, w') => (Returned (aggregate host options results), w')
      | (Threw e, w') => (Threw e, w')
      end
  end.
Proof.
  unfold migrateWorkspace, validateWorkspace, bind, findWorkspaceByPath, throw, batchOptions,
    migrateSessions.
  destruct (pathsEqual _ _ _); [reflexivity|].
  unfold gets at 1. destruct (List.find _ (workspaces w)) as [A|]; [|reflexivity].
  unfold gets at 1. destruct (List.find _ (workspaces w)) as [B|]; [|reflexivity].
  pose proof (openDatabaseReadWrite_world (dbPath A) w) as HwA.
  destruct (openDatabaseReadWrite (dbPath A) w) as [[sourceDb|e] wA]; simpl in HwA; subst wA;
    [|reflexivity].
  simpl fst. unfold getComposerData, gets. simpl fst.
  destruct (match databases w !! sourceDb with Some d => composerData d | None => None end)
    as [cd|]; [|reflexivity].
  destruct (length (composers cd) =? 0)%nat; [reflexivity|].
  destruct (WorkspaceOptions.force options).
  - unfold ret at 1. destruct (length _ =? 0)%nat; [reflexivity|].
    simpl.
    destruct (migrateEach _ _ _ _ _) as [[rs|e] w']; reflexivity.
  - pose proof (openDatabaseReadWrite_world (dbPath B) w) as HwB.
    destruct (openDatabaseReadWrite (dbPath B) w) as [[destDb|e] wB]; simpl in HwB; subst wB;
      [|reflexivity].
    simpl fst. unfold getComposerData, gets. simpl fst.
    destruct (match databases w !! destDb with Some d => composerData d | None => None end)
      as [cdB|].
    + destruct (0 <? length (composers cdB))%nat; [reflexivity|].
      unfold ret at 1. destruct (length _ =? 0)%nat; [reflexivity|].
      simpl.
      destruct (migrateEach _ _ _ _ _) as [[rs|e] w']; reflexivity.
    + unfold ret at 1. destruct (length _ =? 0)%nat; [reflexivity|].
      simpl.
      destruct (migrateEach _ _ _ _ _) as [[rs|e] w']; reflexivity.
Qed.

Lemma migrateWorkspace_thrown host options w e w' :
  migrateWorkspace host options w = (Threw e, w') ->
  w' = w /\ validateWorkspace host options w = Threw e.
Proof.
  rewrite migrateWorkspace_unfold.
  destruct (validateWorkspace _ _ _) as [ids|e0].
  - destruct (migrateEach_acc host ids (batchOptions host options) [] w) as (rs & w1 & H & _).
    rewrite H. discriminate.
  - intros H; inversion H; auto.
Qed.

Lemma validateWorkspace_at_guard host options w A B :
  reachesGuard host options w A B ->
  validateWorkspace host options w =
  let normalizedSource := normalizePath host (WorkspaceOptions.source options) in
  let normalizedDest := normalizePath host (WorkspaceOptions.destination options) in
  let guard :=
    if WorkspaceOptions.force options then Returned tt
    else match fst (openDatabaseReadWrite (dbPath B) w) with
         | Threw e => Threw e
         | Returned _ =>
             match recordsOf w (dbPath B) with
             | [] => Returned tt
             | _ => Threw (DestinationHasSessionsError normalizedDest
                             (length (recordsOf w (dbPath B))))
             end
         end in
  match guard with
  | Threw e => Threw e
  | Returned _ =>
      match omap stringComposerId (recordsOf w (dbPath A)) with
      | [] => Threw (NoSessionsFoundError normalizedSource)
      | ids => Returned ids
      end
  end.
Proof.
  intros (Hne & HA & HB & HoA & HrA).
  unfold findWorkspaceByPath, gets in HA, HB. simpl in HA, HB.
  injection HA as HA. injection HB as HB.
  unfold validateWorkspace. rewrite Hne, HA, HB, HoA.
  destruct (opens_inv _ _ HoA) as (dA & HdA & HlA).
  unfold getComposerData, gets. simpl fst.
  unfold recordsOf in HrA |- *. rewrite HdA in HrA |- *.
  destruct (composerData dA) as [cdA|]; [|contradiction].
  rewrite length_eqb_0. destruct (composers cdA) as [|s0 rest] eqn:Hcs; [contradiction|].
  destruct (WorkspaceOptions.force options).
  - rewrite length_eqb_0. destruct (omap _ _); reflexivity.
  - pose proof (openDatabaseReadWrite_inv w (dbPath B)) as Hinv.
    destruct (openDatabaseReadWrite (dbPath B) w) as [[h|e] w1]; [|reflexivity].
    destruct (Hinv _ _ eq_refl) as (_ & Hh & dB & HdB & _). subst h. simpl fst. cbv beta iota.
    rewrite !HdB. destruct (composerData dB) as [cdB|].
    + rewrite length_ltb_0. destruct (composers cdB); [|reflexivity].
      rewrite length_eqb_0. destruct (omap _ _); reflexivity.
    + rewrite length_eqb_0. destruct (omap _ _); reflexivity.
Qed.

(** ** Keys of the global table *)

Lemma split_no_colon s : containsChar colon s = false -> split colon s = [s].
Proof.
  induction s as [|a s IH]; simpl; intros H; [reflexivity|].
  apply orb_false_elim in H as (Ha & Hs). rewrite Ha, (IH Hs). reflexivity.
Qed.

Lemma split_app_colon a rest :
  containsChar colon a = false ->
  split colon (a ++ String colon rest)%string = a :: split colon rest.
Proof.
  induction a as [|c a IH]; simpl; intros H.
  - reflexivity.
  - apply orb_false_elim in H as (Hc & Ha). rewrite Hc, (IH Ha). reflexivity.
Qed.

Lemma split_bubbleKey c b :
  containsChar colon c = false -> containsChar colon b = false ->
  split colon (bubbleKey c b) = ["bubbleId"%string; c; b].
Proof.
  intros Hc Hb. unfold bubbleKey.
  change ("bubbleId:" ++ c ++ ":" ++ b)%string
    with ("bubbleId" ++ String colon (c ++ String colon b))%string.
  rewrite split_app_colon by reflexivity.
  rewrite (split_app_colon c b Hc), (split_no_colon b Hb). reflexivity.
Qed.

Lemma app_colon_inj a a' x y :
  containsChar colon a = false -> containsChar colon a' = false ->
  (a ++ String colon x)%string = (a' ++ String colon y)%string -> a = a' /\ x = y.
Proof.
  revert a'. induction a as [|c a IH]; intros [|c' a'] Ha Ha' H; simpl in *.
  - inversion H. auto.
  - inversion H; subst. rewrite Ascii.eqb_refl in Ha'. discriminate.
  - inversion H; subst. rewrite Ascii.eqb_refl in Ha. discriminate.
  - apply orb_false_elim in Ha as (_ & Ha). apply orb_false_elim in Ha' as (_ & Ha').
    inversion H; subst. destruct (IH a' Ha Ha' H2). subst. auto.
Qed.

Lemma bubbleKey_inj c c' b b' :
  containsChar colon c = false -> containsChar colon c' = false ->
  bubbleKey c b = bubbleKey c' b' -> c = c' /\ b = b'.
Proof.
  unfold bubbleKey. intros Hc Hc' H.
  simpl in H. injection H as H. apply (app_colon_inj c c' b b' Hc Hc') in H. exact H.
Qed.

Lemma bubbleKey_inj_r c b b' : bubbleKey c b = bubbleKey c b' -> b = b'.
Proof.
  unfold bubbleKey. intros H. simpl in H. injection H as H.
  induction c as [|a c IH]; simpl in H; [injection H; auto|].
  injection H as H. auto.
Qed.

Lemma composerDataKey_inj a b : composerDataKey a = composerDataKey b -> a = b.
Proof. unfold composerDataKey. intros H. simpl in H. injection H. auto. Qed.

Lemma composerDataKey_bubbleKey a c b : composerDataKey a <> bubbleKey c b.
Proof. unfold composerDataKey, bubbleKey. intros H. simpl in H. discriminate. Qed.

Lemma eqNoCase_refl a : eqNoCase a a = true.
Proof. unfold eqNoCase. apply Ascii.eqb_refl. Qed.

Lemma like_star_here p t : like p t = true -> like (String "%"%char p) t = true.
Proof. intros H. simpl. destruct t; rewrite H; reflexivity. Qed.

Lemma like_star_skip p a t :
  like (String "%"%char p) t = true -> like (String "%"%char p) (String a t) = true.
Proof. intros H. simpl in *. rewrite H. apply orb_true_r. Qed.

(** A pattern followed by [%] matches every text that starts with the
    pattern itself. *)
Lemma like_prefix p s : like (p ++ "%")%string (p ++ s)%string = true.
Proof.
  induction p as [|c p IH].
  - change (like "%" s = true).
    induction s as [|a s IHs]; [reflexivity|]. apply like_star_skip. exact IHs.
  - change ((String c p ++ "%")%string) with (String c (p ++ "%")%string).
    change ((String c p ++ s)%string) with (String c (p ++ s)%string).
    destruct (Ascii.eqb c "%"%char) eqn:E.
    + apply Ascii.eqb_eq in E. subst c. apply like_star_skip, like_star_here, IH.
    + simpl. rewrite E, eqNoCase_refl, orb_true_r, IH. reflexivity.
Qed.

Lemma append_assoc (a b c : string) : ((a ++ b) ++ c)%string = (a ++ (b ++ c))%string.
Proof.
  induction a as [|x a IH]; [reflexivity|].
  change (String x ((a ++ b) ++ c)%string = String x (a ++ (b ++ c))%string).
  f_equal. exact IH.
Qed.

Lemma like_bubbleKey c b : like (bubbleKey c "%") (bubbleKey c b) = true.
Proof.
  unfold bubbleKey.
  rewrite <- (append_assoc c ":" "%"), <- (append_assoc c ":" b).
  rewrite <- (append_assoc "bubbleId:" (c ++ ":") "%").
  rewrite <- (append_assoc "bubbleId:" (c ++ ":") b).
  apply like_prefix.
Qed.

Lemma like_composerDataKey old c : like (bubbleKey old "%") (composerDataKey c) = false.
Proof. reflexivity. Qed.

Opaque like.

(** ** Content replication *)

Lemma headerId_getProp h b :
  headerId h = Some b ->
  getProp "bubbleId" h = Returned (Some (JStr b)) /\ truthy (JStr b) = true.
Proof.
  unfold headerId. destruct h; try discriminate.
  simpl. destruct (getField "bubbleId" fields) as [[]|]; try discriminate.
  destruct (String.eqb s "") eqn:E; [discriminate|]. intros H; injection H as <-.
  simpl. rewrite E. auto.
Qed.

Lemma copyHeaders_spec hs bids :
  Forall2 (fun h b => headerId h = Some b) hs bids ->
  forall acc m0 w,
  exists ns w',
    copyHeaders hs acc m0 w =
      (Returned (acc ++ zip_with (fun h n => spreadWith h "bubbleId" (JStr n)) hs ns,
                 assign m0 (zip bids ns)), w') /\
    length ns = length hs /\
    globalStorage w' = globalStorage w /\
    Forall (fun n => n <> ""%string) ns.
Proof.
  induction 1 as [|h b hs bids Hh _ IH]; intros acc m0 w.
  - exists [], w. simpl. rewrite app_nil_r. repeat split. constructor.
  - destruct (headerId_getProp _ _ Hh) as (Hget & Htruthy).
    destruct (generateSessionId_returns w) as (n & w1 & Hgen).
    destruct (IH (acc ++ [spreadWith h "bubbleId" (JStr n)]) (<[b := n]> m0) w1)
      as (ns & w' & Hrun & Hlen & Hglob & Hne).
    exists (n :: ns), w'. simpl copyHeaders. unfold bind at 1. unfold liftJs at 1.
    rewrite Hget, Htruthy. unfold bind at 1. rewrite Hgen. simpl mapSet.
    rewrite Hrun. simpl. rewrite <- app_assoc. simpl.
    split; [reflexivity|]. split; [congruence|].
    split; [rewrite Hglob; apply (generateSessionId_global _ _ _ Hgen)|].
    constructor; [apply (generateSessionId_nonempty _ _ _ Hgen)|exact Hne].
Qed.

Lemma assign_lookup_notin m pairs b :
  ~ In b (map fst pairs) -> assign m pairs !! b = m !! b.
Proof.
  revert m. induction pairs as [|[b0 n0] rest IH]; intros m Hnot; [reflexivity|].
  simpl in *. unfold assign in *. simpl. rewrite IH by tauto.
  apply lookup_insert_ne. intros ->. tauto.
Qed.

Lemma assign_lookup m bids ns i b n :
  NoDup bids -> bids !! i = Some b -> ns !! i = Some n ->
  assign m (zip bids ns) !! b = Some n.
Proof.
  revert m ns i. induction bids as [|b0 bids IH]; intros m ns i Hnd Hb Hn; [discriminate|].
  destruct ns as [|n0 ns]; [discriminate|].
  apply NoDup_cons in Hnd as (Hnotin & Hnd).
  destruct i as [|i]; simpl in *.
  - injection Hb as ->. injection Hn as ->. unfold assign. simpl.
    fold (assign (<[b := n]> m) (zip bids ns)).
    rewrite assign_lookup_notin; [apply lookup_insert_eq|].
    intros Hin. apply Hnotin.
    apply in_map_iff in Hin as ([b' n'] & Heq & Hin). simpl in Heq. subst b'.
    apply list_elem_of_In in Hin. apply elem_of_zip_l in Hin. exact Hin.
  - unfold assign. simpl. apply IH with (i := i); assumption.
Qed.

Lemma assign_values m pairs b n :
  assign m pairs !! b = Some n -> m !! b = Some n \/ In n (map snd pairs).
Proof.
  revert m. induction pairs as [|[b0 n0] rest IH]; intros m H; [left; exact H|].
  unfold assign in H. simpl in H. apply IH in H as [H|H]; [|right; right; exact H].
  rewrite lookup_insert in H. destruct (decide (b0 = b)); [|left; exact H].
  injection H as ->. right. left. reflexivity.
Qed.

Lemma zip_with_rewrite (m : gmap string string) hs bids ns :
  Forall2 (fun h b => headerId h = Some b) hs bids ->
  length ns = length hs ->
  (forall i b n, bids !! i = Some b -> ns !! i = Some n -> m !! b = Some n) ->
  zip_with (fun h n => spreadWith h "bubbleId" (JStr n)) hs ns = map (rewriteHeader m) hs.
Proof.
  intros Hall. revert ns. induction Hall as [|h b hs bids Hh _ IH]; intros ns Hlen Hm.
  - destruct ns; [reflexivity|discriminate].
  - destruct ns as [|n ns]; [discriminate|]. simpl. f_equal.
    + unfold rewriteHeader. rewrite Hh, (Hm 0%nat b n eq_refl eq_refl). reflexivity.
    + apply IH; [simpl in Hlen; lia|]. intros i b' n' Hb Hn. apply (Hm (S i)); assumption.
Qed.

Lemma copyRows_cons new key value rest m :
  copyRows new ((key, value) :: rest) m =
  match split colon key !! 2%nat with
  | None => copyRows new rest m
  | Some oldBubbleId =>
      if String.eqb oldBubbleId "" then copyRows new rest m
      else
        let known :=
          match m !! oldBubbleId with
          | Some n => if String.eqb n "" then None else Some n
          | None => None
          end in
        let* assigned :=
          match known with
          | Some n => ret (n, m)
          | None =>
              let* n := generateSessionId in
              ret (n, <[oldBubbleId := n]> m)
          end in
        let newBubbleId := fst assigned in
        let* bubbleData := liftJs (setProp "bubbleId" (JStr newBubbleId) value) in
        let newKey := ("bubbleId:" ++ new ++ ":" ++ newBubbleId)%string in
        run kvInsertOrReplace newKey bubbleData then
        copyRows new rest (snd assigned)
  end.
Proof. reflexivity. Qed.

Section Rows.
Context (old new : string).
Hypothesis old_colon_free : containsChar colon old = false.

Lemma copyRows_skip v rest m w :
  copyRows new ((bubbleKey old "", v) :: rest) m w = copyRows new rest m w.
Proof.
  pose proof old_colon_free as Hold. rewrite copyRows_cons, (split_bubbleKey old "" Hold eq_refl).
  change (["bubbleId"%string; old; ""%string] !! 2%nat) with (Some ""%string). reflexivity.
Qed.

Lemma copyRows_step b v rest m w :
  containsChar colon b = false -> b <> ""%string ->
  copyRows new ((bubbleKey old b, v) :: rest) m w =
  let '(n, m1, w1) := nextId m b w in
  match setProp "bubbleId" (JStr n) v with
  | Threw e => (Threw e, w1)
  | Returned v' =>
      copyRows new rest m1
        (setGlobalStorage (insert (bubbleKey new n) v' <$> globalStorage w1) w1)
  end.
Proof.
  intros Hb Hne. pose proof old_colon_free as Hold. rewrite copyRows_cons, (split_bubbleKey old b Hold Hb).
  change (["bubbleId"%string; old; b] !! 2%nat) with (Some b).
  cbv beta iota. apply String.eqb_neq in Hne. rewrite Hne.
  unfold nextId, bind.
  destruct (m !! b) as [n|].
  - destruct (String.eqb n "").
    + destruct (generateSessionId_returns w) as (n' & w1 & Hgen). rewrite Hgen.
      unfold ret, liftJs. simpl. destruct (setProp _ _ v); reflexivity.
    + unfold ret, liftJs. simpl. destruct (setProp _ _ v); reflexivity.
  - destruct (generateSessionId_returns w) as (n' & w1 & Hgen). rewrite Hgen.
    unfold ret, liftJs. simpl. destruct (setProp _ _ v); reflexivity.
Qed.

Lemma nextId_spec m b w :
  nonEmptyValues m ->
  exists n m1 w1,
    nextId m b w = (n, m1, w1) /\
    globalStorage w1 = globalStorage w /\
    m ⊆ m1 /\ nonEmptyValues m1 /\ m1 !! b = Some n.
Proof.
  intros Hne. unfold nextId.
  destruct (m !! b) as [n|] eqn:Hb.
  - pose proof (Hne _ _ Hb) as Hn. apply String.eqb_neq in Hn. rewrite Hn.
    exists n, m, w. auto.
  - destruct (generateSessionId_returns w) as (n' & w1 & Hgen). rewrite Hgen.
    exists n', (<[b := n']> m), w1. split; [reflexivity|].
    split; [apply (generateSessionId_global _ _ _ Hgen)|].
    split; [apply insert_subseteq; exact Hb|].
    split; [|apply lookup_insert_eq].
    intros b' n0 H. rewrite lookup_insert in H. destruct (decide (b = b')).
    + injection H as <-. apply (generateSessionId_nonempty _ _ _ Hgen).
    + apply (Hne _ _ H).
Qed.

(** The loop over the selected rows: every canonical row is copied under
    the id the returned map gives its content item, and nothing else in the
    table changes. *)
Lemma copyRows_spec rows :
  Forall (fun row => canonicalKey old (fst row)) rows ->
  NoDup rows.*1 ->
  forall m w T mf w',
    nonEmptyValues m ->
    globalStorage w = Some T ->
    copyRows new rows m w = (Returned mf, w') ->
    injectiveMap mf ->
    m ⊆ mf /\ nonEmptyValues mf /\
    exists T',
      globalStorage w' = Some T' /\
      (forall k,
          (forall b n, In (bubbleKey old b) rows.*1 -> mf !! b = Some n ->
                       k <> bubbleKey new n) ->
          T' !! k = T !! k) /\
      (forall b v, In (bubbleKey old b, v) rows -> b <> ""%string ->
          exists n v',
            mf !! b = Some n /\
            setProp "bubbleId" (JStr n) v = Returned v' /\
            T' !! bubbleKey new n = Some v').
Proof.
  intros Hcanon. induction Hcanon as [|[key v0] rest (b0 & Hkey & Hb0) _ IH];
    intros Hnd m w T mf w' Hne HT Hrun Hinj.
  - simpl in Hrun. injection Hrun as <- <-.
    split; [reflexivity|]. split; [exact Hne|].
    exists T. split; [exact HT|]. split; [reflexivity|]. intros b v [].
  - simpl in Hkey. subst key.
    assert (Hnd' : NoDup rest.*1) by (simpl in Hnd; apply NoDup_cons in Hnd; tauto).
    destruct (decide (b0 = ""%string)) as [->|Hb0ne].
    + rewrite (copyRows_skip v0 rest m w) in Hrun.
      destruct (IH Hnd' m w T mf w' Hne HT Hrun Hinj) as (Hsub & Hnemf & T' & HT' & Hframe & Hcopy).
      split; [exact Hsub|]. split; [exact Hnemf|]. exists T'. split; [exact HT'|].
      split.
      * intros k Hk. apply Hframe. intros b n Hin. apply Hk. right. exact Hin.
      * intros b v [Heq|Hin] Hbne; [|apply Hcopy; assumption].
        pose proof (f_equal fst Heq) as Hk. cbn [fst] in Hk.
        apply bubbleKey_inj_r in Hk. congruence.
    + rewrite (copyRows_step b0 v0 rest m w Hb0 Hb0ne) in Hrun.
      destruct (nextId_spec m b0 w Hne) as (n0 & m1 & w1 & Hnext & Hglob & Hsub1 & Hne1 & Hm1).
      rewrite Hnext in Hrun.
      destruct (setProp "bubbleId" (JStr n0) v0) as [v0'|e] eqn:Hset; [|discriminate].
      rewrite Hglob, HT in Hrun. simpl in Hrun.
      destruct (IH Hnd' m1 (setGlobalStorage (Some (<[bubbleKey new n0 := v0']> T)) w1)
                  (<[bubbleKey new n0 := v0']> T) mf w' Hne1 eq_refl Hrun Hinj)
        as (Hsub & Hnemf & T' & HT' & Hframe & Hcopy).
      assert (Hmf0 : mf !! b0 = Some n0) by (eapply lookup_weaken; eassumption).
      split; [etrans; eassumption|]. split; [exact Hnemf|].
      exists T'. split; [exact HT'|]. split.
      * intros k Hk. rewrite Hframe.
        -- apply lookup_insert_ne. apply not_eq_sym. apply (Hk b0 n0); [left; reflexivity|exact Hmf0].
        -- intros b n Hin. apply Hk. right. exact Hin.
      * intros b v [Heq|Hin] Hbne.
        -- pose proof (f_equal fst Heq) as Hk. pose proof (f_equal snd Heq) as Hv.
           cbn [fst snd] in Hk, Hv. subst v. apply bubbleKey_inj_r in Hk. subst b.
           exists n0, v0'. split; [exact Hmf0|]. split; [exact Hset|].
           rewrite Hframe; [apply lookup_insert_eq|].
           intros b n Hin Hn Hkn. apply bubbleKey_inj_r in Hkn. subst n.
           assert (b = b0) by (eapply Hinj; eassumption). subst b.
           simpl in Hnd. apply NoDup_cons in Hnd as (Hnotin & _).
           apply Hnotin. apply list_elem_of_In. exact Hin.
        -- apply Hcopy; assumption.
Qed.

End Rows.

(** *** Ids assigned from the random source

    When the identifiers generated during a replication are pairwise
    different, the map it builds gives different content items different
    new ids. *)

Section Draws.
Context (w : World) (N : nat).
Hypothesis fresh : distinctDraws w N.

Lemma drawn_inj i j : i < N -> j < N -> drawn w i = drawn w j -> i = j.
Proof.
  intros Hi Hj Heq. unfold distinctDraws in fresh.
  apply (NoDup_lookup _ i j (drawn w i) fresh).
  - rewrite list_lookup_fmap, lookup_seq_lt by exact Hi. reflexivity.
  - rewrite list_lookup_fmap, lookup_seq_lt by exact Hj. simpl. congruence.
Qed.

Lemma assignedFrom_empty c : assignedFrom w c ∅.
Proof.
  split.
  - intros b1 b2 n H. rewrite lookup_empty in H. discriminate.
  - intros b n H. rewrite lookup_empty in H. discriminate.
Qed.

Lemma assignedFrom_mono c c' m : c <= c' -> assignedFrom w c m -> assignedFrom w c' m.
Proof.
  intros Hle (Hinj & Hbelow). split; [exact Hinj|].
  intros b n H. destruct (Hbelow b n H) as (k & Hk & ->). exists k. split; [lia|reflexivity].
Qed.

Lemma assignedFrom_insert c m b :
  c < N -> assignedFrom w c m -> assignedFrom w (S c) (<[b := drawn w c]> m).
Proof.
  intros Hc (Hinj & Hbelow). split.
  - intros b1 b2 n H1 H2. rewrite lookup_insert in H1, H2.
    destruct (decide (b = b1)) as [<-|Hb1], (decide (b = b2)) as [<-|Hb2].
    + reflexivity.
    + injection H1 as <-. destruct (Hbelow _ _ H2) as (k & Hk & Heq).
      apply drawn_inj in Heq; lia.
    + injection H2 as <-. destruct (Hbelow _ _ H1) as (k & Hk & Heq).
      apply drawn_inj in Heq; lia.
    + eapply Hinj; eassumption.
  - intros b' n H. rewrite lookup_insert in H. destruct (decide (b = b')).
    + injection H as <-. exists c. split; [lia|reflexivity].
    + destruct (Hbelow _ _ H) as (k & Hk & ->). exists k. split; [lia|reflexivity].
Qed.

Lemma assignedFrom_mapSet c m key :
  c < N -> assignedFrom w c m -> assignedFrom w (S c) (mapSet key (drawn w c) m).
Proof.
  intros Hc H. destruct key; simpl;
    try (apply (assignedFrom_mono c); [lia|exact H]).
  apply assignedFrom_insert; assumption.
Qed.

Lemma copyHeaders_assigned hs :
  forall acc m0 c wc out m1 w1,
    ahead w c wc -> assignedFrom w c m0 -> c + length hs <= N ->
    copyHeaders hs acc m0 wc = (Returned (out, m1), w1) ->
    exists c1, c <= c1 <= c + length hs /\ ahead w c1 w1 /\ assignedFrom w c1 m1 /\
               globalStorage w1 = globalStorage wc.
Proof.
  induction hs as [|h rest IH]; intros acc m0 c wc out m1 w1 Hahead Hm Hle H.
  - injection H as _ <- <-. exists c. split; [simpl; lia|]. auto.
  - simpl length in Hle.
    assert (Hskip : copyHeaders rest acc m0 wc = (Returned (out, m1), w1) ->
                    exists c1, c <= c1 <= c + length (h :: rest) /\ ahead w c1 w1 /\
                               assignedFrom w c1 m1 /\ globalStorage w1 = globalStorage wc).
    { intros H'. destruct (IH _ _ _ _ _ _ _ Hahead Hm ltac:(lia) H') as (c1 & Hc1 & Ha & Hm1 & Hg).
      exists c1. split; [simpl; lia|]. auto. }
    simpl copyHeaders in H. unfold bind at 1 in H. unfold liftJs at 1 in H.
    destruct (getProp "bubbleId" h) as [[b|]|e]; cbv beta iota in H;
      [|apply Hskip, H|discriminate H].
    destruct (truthy b); [|apply Hskip, H].
    unfold bind at 1 in H.
    destruct (generateSessionId_drawn w c wc Hahead) as (w2 & Hgen & Hahead2 & Hglob).
    rewrite Hgen in H.
    destruct (IH _ _ (S c) _ _ _ _ Hahead2
                (assignedFrom_mapSet c m0 b ltac:(lia) Hm) ltac:(lia) H)
      as (c1 & Hc1 & Ha & Hm1 & Hg).
    exists c1. split; [simpl; lia|]. split; [exact Ha|]. split; [exact Hm1|congruence].
Qed.

Lemma copyRows_assigned new rows :
  forall m c wc mf w',
    ahead w c wc -> assignedFrom w c m -> c + length rows <= N ->
    copyRows new rows m wc = (Returned mf, w') ->
    assignedFrom w (c + length rows) mf.
Proof.
  induction rows as [|[key value] rest IH]; intros m c wc mf w' Hahead Hm Hle H.
  - injection H as <- _. apply (assignedFrom_mono c); [lia|exact Hm].
  - simpl length in *.
    assert (Hskip : forall wx, ahead w c wx -> copyRows new rest m wx = (Returned mf, w') ->
                    assignedFrom w (c + S (length rest)) mf).
    { intros wx Hx H'. apply (assignedFrom_mono (c + length rest)); [lia|].
      apply (IH _ _ _ _ _ Hx Hm ltac:(lia) H'). }
    rewrite copyRows_cons in H.
    destruct (split colon key !! 2%nat) as [ob|]; [|apply (Hskip wc Hahead H)].
    destruct (String.eqb ob ""); [apply (Hskip wc Hahead H)|].
    cbv zeta in H. unfold bind at 1 in H.
    assert (Hdraw :
      (let* n := generateSessionId in ret (n, <[ob := n]> m)) wc
      = (Returned (drawn w c, <[ob := drawn w c]> m),
         snd (generateSessionId wc)) /\ ahead w (S c) (snd (generateSessionId wc))).
    { destruct (generateSessionId_drawn w c wc Hahead) as (w2 & Hgen & Hahead2 & _).
      unfold bind, ret. rewrite Hgen. split; [reflexivity|exact Hahead2]. }
    destruct Hdraw as (Hdraw & Hahead2).
    assert (Hfresh : forall wx,
      ahead w (S c) wx -> copyRows new rest (<[ob := drawn w c]> m) wx = (Returned mf, w') ->
      assignedFrom w (c + S (length rest)) mf).
    { intros wx Hx H'. replace (c + S (length rest)) with (S c + length rest) by lia.
      apply (IH _ _ _ _ _ Hx (assignedFrom_insert c m ob ltac:(lia) Hm) ltac:(lia) H'). }
    destruct (m !! ob) as [n|].
    + destruct (String.eqb n "").
      * rewrite Hdraw in H. cbn [fst snd] in H. unfold bind, liftJs in H.
        destruct (setProp _ _ value); [|discriminate H].
        unfold kvInsertOrReplace, modify in H. eapply Hfresh; [|exact H]. exact Hahead2.
      * unfold ret at 1 in H. cbn [fst snd] in H. unfold bind, liftJs in H.
        destruct (setProp _ _ value); [|discriminate H].
        unfold kvInsertOrReplace, modify in H. eapply Hskip; [|exact H]. exact Hahead.
    + rewrite Hdraw in H. cbn [fst snd] in H. unfold bind, liftJs in H.
      destruct (setProp _ _ value); [|discriminate H].
      unfold kvInsertOrReplace, modify in H. eapply Hfresh; [|exact H]. exact Hahead2.
Qed.

End Draws.

(** The rows selected for a record are rows of the table as it was before
    the new metadata was written. *)
Lemma selected_rows_length (p : string) (T : gmap string json) k cd :
  like p k = false ->
  length (List.filter (fun row : string * json => like p (fst row))
            (map_to_list (<[k := cd]> T))) <= size T.
Proof.
  intros Hk. set (rows := List.filter _ _).
  rewrite <- (length_map_to_list T), <- (length_fmap fst rows), <- (length_fmap fst (map_to_list T)).
  apply NoDup_incl_length.
  - apply NoDup_ListNoDup. subst rows. apply NoDup_fst_filter, NoDup_fst_map_to_list.
  - intros key Hin. apply list_elem_of_In, list_elem_of_fmap in Hin as ([key' v] & -> & Hin).
    apply list_elem_of_In in Hin. subst rows. apply filter_In in Hin as (Hin & Hlike).
    apply list_elem_of_In, elem_of_map_to_list in Hin. cbn [fst] in *.
    rewrite lookup_insert in Hin. destruct (decide (k = key')) as [->|Hne]; [congruence|].
    apply list_elem_of_In, list_elem_of_fmap. exists (key', v). split; [reflexivity|].
    apply elem_of_map_to_list. exact Hin.
Qed.

Lemma replication_assigned w N c wc T old new fields hs m w' :
  distinctDraws w N ->
  ahead w c wc ->
  globalStorage wc = Some T ->
  T !! composerDataKey old = Some (JObj fields) ->
  getField "fullConversationHeadersOnly" fields = Some (JArr hs) ->
  c + length hs + size T <= N ->
  copyBubbleDataInGlobalStorage old new wc = (Returned m, w') ->
  assignedFrom w N m.
Proof.
  intros Hfresh Hahead HT Hrow Hhs Hle Hrun.
  unfold copyBubbleDataInGlobalStorage, bind in Hrun.
  unfold gets at 1 in Hrun. rewrite HT in Hrun.
  unfold kvGet, gets in Hrun. rewrite HT in Hrun.
  change ("composerData:" ++ old)%string with (composerDataKey old) in Hrun.
  rewrite Hrow in Hrun. unfold bind, liftJs in Hrun. simpl setProp in Hrun.
  cbv beta iota in Hrun. simpl getProp in Hrun.
  rewrite (getField_setField_ne "composerId" "fullConversationHeadersOnly") in Hrun
    by discriminate.
  rewrite Hhs in Hrun. simpl truthy in Hrun. cbv beta iota in Hrun. simpl iterate in Hrun.
  cbv beta iota in Hrun.
  destruct (copyHeaders hs [] ∅ wc) as [[[out m1]|e] w1] eqn:Hheaders; [|discriminate Hrun].
  destruct (copyHeaders_assigned w N Hfresh hs _ _ _ _ _ _ _ Hahead (assignedFrom_empty w c)
              ltac:(lia) Hheaders) as (c1 & Hc1 & Hahead1 & Hm1 & Hglob).
  cbn [fst snd] in Hrun.
  unfold kvInsertOrReplace, modify, kvSelectLike, gets in Hrun. simpl in Hrun.
  rewrite Hglob, HT in Hrun. simpl in Hrun.
  change ("bubbleId:" ++ old ++ ":%")%string with (bubbleKey old "%") in Hrun.
  match type of Hrun with
  | copyRows _ ?rows _ ?wx = _ =>
      assert (Hlen : length rows <= size T)
        by (apply selected_rows_length, (like_composerDataKey old new));
      apply (assignedFrom_mono w (c1 + length rows)); [lia|];
      apply (copyRows_assigned w N Hfresh new rows m1 c1 wx m w' Hahead1 Hm1 ltac:(lia) Hrun)
  end.
Qed.

Lemma replication_assigned_orphan w N c wc T old new m w' :
  distinctDraws w N ->
  ahead w c wc ->
  globalStorage wc = Some T ->
  T !! composerDataKey old = None ->
  c + size T <= N ->
  copyBubbleDataInGlobalStorage old new wc = (Returned m, w') ->
  assignedFrom w N m.
Proof.
  intros Hfresh Hahead HT Hrow Hle Hrun.
  unfold copyBubbleDataInGlobalStorage, bind in Hrun.
  unfold gets at 1 in Hrun. rewrite HT in Hrun.
  unfold kvGet, gets in Hrun. rewrite HT in Hrun.
  change ("composerData:" ++ old)%string with (composerDataKey old) in Hrun.
  rewrite Hrow in Hrun. unfold ret at 1 in Hrun.
  unfold kvSelectLike, gets in Hrun. rewrite HT in Hrun.
  match type of Hrun with
  | copyRows _ ?rows _ ?wx = _ =>
      assert (Hlen : length rows <= size T)
        by (rewrite <- (length_map_to_list T); apply List.filter_length_le);
      apply (assignedFrom_mono w (c + length rows)); [lia|];
      apply (copyRows_assigned w N Hfresh new rows ∅ c wx m w' Hahead
               (assignedFrom_empty w c) ltac:(lia) Hrun)
  end.
Qed.

(** The replication on its own, for a map that gives different content
    items different new ids: the new metadata has every header entry
    rewritten, every content item a header names is stored again under the
    new ids, and the metadata and content items of [old] are untouched. *)
Lemma copyBubbleDataInGlobalStorage_duplicates (w : World) (T : gmap string json)
    (old new : string) (fields : JObject) (hs : list json) (bids : list string)
    (m : gmap string string) (w' : World) :
  globalStorage w = Some T ->
  T !! composerDataKey old = Some (JObj fields) ->
  getField "fullConversationHeadersOnly" fields = Some (JArr hs) ->
  Forall2 (fun h b => headerId h = Some b) hs bids ->
  NoDup bids ->
  containsChar colon old = false ->
  containsChar colon new = false ->
  new <> old ->
  (forall k v, T !! k = Some v -> like (bubbleKey old "%") k = true ->
               canonicalKey old k) ->
  copyBubbleDataInGlobalStorage old new w = (Returned m, w') ->
  injectiveMap m ->
  exists T',
    globalStorage w' = Some T' /\
    T' !! composerDataKey new =
      Some (JObj (setField "fullConversationHeadersOnly"
                    (JArr (map (rewriteHeader m) hs))
                    (setField "composerId" (JStr new) fields))) /\
    (forall b, In b bids ->
       exists n,
         m !! b = Some n /\
         forall v, T !! bubbleKey old b = Some v ->
           exists v',
             setProp "bubbleId" (JStr n) v = Returned v' /\
             T' !! bubbleKey new n = Some v') /\
    T' !! composerDataKey old = T !! composerDataKey old /\
    (forall b, T' !! bubbleKey old b = T !! bubbleKey old b).
Proof.
  intros HT Hrow Hhs Hvalid Hnd Hold Hnew Hneq Hcanon Hrun Hinj.
  unfold copyBubbleDataInGlobalStorage, bind in Hrun.
  unfold gets at 1 in Hrun. rewrite HT in Hrun.
  unfold kvGet, gets in Hrun. rewrite HT in Hrun.
  change ("composerData:" ++ old)%string with (composerDataKey old) in Hrun.
  rewrite Hrow in Hrun. unfold bind, liftJs in Hrun. simpl setProp in Hrun.
  cbv beta iota in Hrun. simpl getProp in Hrun.
  rewrite (getField_setField_ne "composerId" "fullConversationHeadersOnly") in Hrun
    by discriminate.
  rewrite Hhs in Hrun. simpl truthy in Hrun. cbv beta iota in Hrun. simpl iterate in Hrun.
  cbv beta iota in Hrun.
  destruct (copyHeaders_spec hs bids Hvalid [] ∅ w) as (ns & w1 & Hheaders & Hlen & Hglob & Hnens).
  rewrite Hheaders in Hrun. simpl in Hrun.
  unfold kvInsertOrReplace, modify, kvSelectLike, gets in Hrun. simpl in Hrun.
  rewrite Hglob, HT in Hrun. simpl in Hrun.
  change ("composerData:" ++ new)%string with (composerDataKey new) in Hrun.
  change ("bubbleId:" ++ old ++ ":%")%string with (bubbleKey old "%") in Hrun.
  set (cd2 := JObj (setField "fullConversationHeadersOnly" _ _)) in Hrun.
  set (T1 := <[composerDataKey new := cd2]> T) in Hrun.
  set (rows := List.filter _ (map_to_list T1)) in Hrun.
  set (m1 := assign ∅ (zip bids ns)) in Hrun.
  assert (Hlen' : length ns = length bids).
  { rewrite Hlen. apply (Forall2_length _ _ _ Hvalid). }
  assert (Hrows : forall k v, In (k, v) rows <-> (T1 !! k = Some v /\ like (bubbleKey old "%") k = true)).
  { intros k v. subst rows. rewrite filter_In. simpl.
    rewrite <- list_elem_of_In, elem_of_map_to_list. reflexivity. }
  assert (HT1 : forall k, k <> composerDataKey new -> T1 !! k = T !! k).
  { intros k Hk. subst T1. apply lookup_insert_ne. congruence. }
  assert (Hcanon1 : Forall (fun row => canonicalKey old (fst row)) rows).
  { apply Forall_forall. intros [k v] Hin. apply list_elem_of_In in Hin.
    apply Hrows in Hin as (Hlook & Hlike). simpl.
    destruct (decide (k = composerDataKey new)) as [->|Hk].
    - rewrite like_composerDataKey in Hlike. discriminate.
    - rewrite (HT1 k Hk) in Hlook. eapply Hcanon; eassumption. }
  assert (Hnd1 : NoDup rows.*1).
  { subst rows. apply NoDup_fst_filter, NoDup_fst_map_to_list. }
  assert (Hne1 : nonEmptyValues m1).
  { intros b n Hb. subst m1. apply assign_values in Hb as [Hb|Hb]; [rewrite lookup_empty in Hb; discriminate|].
    rewrite Forall_forall in Hnens. apply Hnens.
    apply in_map_iff in Hb as ([b' n'] & Heq & Hin). simpl in Heq. subst n'.
    apply list_elem_of_In in Hin. apply elem_of_zip_r in Hin. exact Hin. }
  destruct (copyRows_spec old new Hold rows Hcanon1 Hnd1 m1
              (setGlobalStorage (Some T1) w1) T1 m w' Hne1 eq_refl Hrun Hinj)
    as (Hsub & Hnem & T' & HT' & Hframe & Hcopy).
  assert (Hassigned : forall i b n, bids !! i = Some b -> ns !! i = Some n -> m !! b = Some n).
  { intros i b n Hb Hn. eapply lookup_weaken; [|exact Hsub].
    subst m1. eapply assign_lookup; eassumption. }
  assert (Huntouched : forall k, (forall n, k <> bubbleKey new n) -> T' !! k = T1 !! k).
  { intros k Hk. apply Hframe. intros b n _ _. apply Hk. }
  exists T'. split; [exact HT'|]. split; [|split; [|split]].
  - rewrite Huntouched by (intros n; apply composerDataKey_bubbleKey).
    subst T1. rewrite lookup_insert_eq. subst cd2. simpl.
    rewrite (zip_with_rewrite m hs bids ns Hvalid Hlen Hassigned). reflexivity.
  - intros b Hb. apply list_elem_of_In, list_elem_of_lookup in Hb as (i & Hi).
    destruct (lookup_lt_is_Some_2 ns i) as (n & Hn).
    { rewrite Hlen'. eapply lookup_lt_Some. exact Hi. }
    exists n. split; [eapply Hassigned; eassumption|].
    intros v Hv.
    assert (Hbne : b <> ""%string).
    { rewrite Forall2_lookup in Hvalid. specialize (Hvalid i).
      rewrite Hi in Hvalid. inversion Hvalid as [h b' Hh|]; subst.
      unfold headerId in Hh. destruct h; try discriminate.
      destruct (getField "bubbleId" fields0) as [[]|]; try discriminate.
      destruct (String.eqb s "") eqn:E; [discriminate|]. injection Hh as ->.
      apply String.eqb_neq in E. exact E. }
    assert (Hin : In (bubbleKey old b, v) rows).
    { apply Hrows. split; [|apply like_bubbleKey].
      rewrite HT1; [exact Hv|]. apply not_eq_sym, composerDataKey_bubbleKey. }
    destruct (Hcopy b v Hin Hbne) as (n' & v' & Hn' & Hset & Hlook).
    assert (n' = n) by (pose proof (Hassigned _ _ _ Hi Hn); congruence). subst n'.
    exists v'. auto.
  - rewrite Huntouched by (intros n; apply composerDataKey_bubbleKey).
    apply HT1. intros Heq. apply composerDataKey_inj in Heq. congruence.
  - intros b. rewrite Huntouched.
    + apply HT1. apply not_eq_sym, composerDataKey_bubbleKey.
    + intros n Heq. apply (bubbleKey_inj old new b n Hold Hnew) in Heq as (Heq & _). congruence.
Qed.

(** ** The claims *)

(** Claim C1 (move is a transfer, not a clone).  Let record [R], with
    identifier [sid], be the only record of that identifier in the array of
    store [A], the store resolution finds for [sid]; let the destination
    path name an existing store [B] whose path differs from [A]'s after
    normalization, [A] and [B] being different store files that both open
    and accept writes.  Then [migrateSession] in move mode, not a dry run,
    returns a success result and removes [R] from [A]'s array and appends
    that very record to [B]'s: [A] has one record fewer, [B] one more, the
    identifier is found in [B] and no longer in [A], and no other store's
    array changes. *)
Theorem move_is_a_transfer (host : Host) (w : World) (sid dest : string) (f : bool)
    (A B : Workspace) :
  resolvesTo host w sid dest A B ->
  dbPath A <> dbPath B ->
  writable w (dbPath A) = true ->
  writable w (dbPath B) = true ->
  length (List.filter (hasComposerId sid) (recordsOf w (dbPath A))) = 1%nat ->
  exists R w',
    migrateSession host sid (mkSessionOptions dest Move false f) w =
      (Returned {| SessionResult.success := true;
                   SessionResult.sessionId := sid;
                   SessionResult.sourceWorkspace := path A;
                   SessionResult.destinationWorkspace := normalizePath host dest;
                   SessionResult.mode := Move;
                   SessionResult.newSessionId := None;
                   SessionResult.error := None;
                   SessionResult.dryRun := false |}, w') /\
    In R (recordsOf w (dbPath A)) /\
    hasComposerId sid R = true /\
    recordsOf w' (dbPath B) = recordsOf w (dbPath B) ++ [R] /\
    S (length (recordsOf w' (dbPath A))) = length (recordsOf w (dbPath A)) /\
    length (recordsOf w' (dbPath B)) = S (length (recordsOf w (dbPath B))) /\
    existsb (hasComposerId sid) (recordsOf w' (dbPath B)) = true /\
    existsb (hasComposerId sid) (recordsOf w' (dbPath A)) = false /\
    (forall other, other <> dbPath A -> other <> dbPath B ->
                   recordsOf w' other = recordsOf w other).
Proof.
  intros Hres Hne HwA HwB Hone.
  destruct (move_effect host w sid dest f A B Hres HwA HwB)
    as (dA & dB & cdA & idx & R & HdA & HdB & HcA & Hidx & HR & HRid & Hrun).
  exists R, (movedWorld w (dbPath A) (dbPath B) dA dB cdA idx).
  assert (HrecA : recordsOf w (dbPath A) = composers cdA).
  { rewrite (recordsOf_composersOf _ _ _ HdA). unfold composersOf. rewrite HcA. reflexivity. }
  split; [exact Hrun|].
  split. { rewrite HrecA. apply list_elem_of_In. eapply list_elem_of_lookup_2; eauto. }
  split; [exact HRid|].
  rewrite recordsOf_movedWorld_dest, (recordsOf_movedWorld_source _ _ _ _ _ _ _ Hne).
  rewrite (recordsOf_composersOf _ _ _ HdB), HrecA, HR. simpl.
  split; [reflexivity|].
  split; [apply (length_delete_lookup _ _ _ HR)|].
  split; [rewrite length_app; simpl; lia|].
  split. { rewrite existsb_app. simpl. rewrite HRid. apply orb_true_r. }
  split.
  { apply filter_nil_existsb. rewrite HrecA in Hone.
    rewrite (filter_length_delete_found _ _ _ Hidx) in Hone. lia. }
  intros other HoA HoB. apply recordsOf_movedWorld_other; assumption.
Qed.

(** Claim C2, as amended (copy preserves the source).  Let resolution of
    [sid] find store [A] and the destination name a different store file
    [B].  Then whatever [migrateSession] in copy mode (not a dry run)
    returns, store [A] is exactly as it was: its array is read, never
    written.  When the result is a success, [B]'s array is the old array
    followed by exactly one new record: the deep copy of the record [R]
    found in [A], equal to [R] in every field except [composerId], which
    holds the identifier [generateSessionId] returned, reported as
    [newSessionId].  That identifier has the layout of the template; it is
    not compared with [sid], so it is sure to differ from [sid] only when
    [sid] does not have that layout itself. *)
Theorem copy_preserves_the_source (host : Host) (w : World) (sid dest : string)
    (f : bool) (A B : Workspace) :
  resolvesTo host w sid dest A B ->
  dbPath A <> dbPath B ->
  forall o w',
    migrateSession host sid (mkSessionOptions dest Copy false f) w = (o, w') ->
    databases w' !! dbPath A = databases w !! dbPath A /\
    recordsOf w' (dbPath A) = recordsOf w (dbPath A) /\
    (forall r, o = Returned r -> SessionResult.success r = true ->
       exists R nid,
         In R (recordsOf w (dbPath A)) /\
         hasComposerId sid R = true /\
         fst (generateSessionId w) = Returned nid /\
         fitsTemplate uuidTemplate nid = true /\
         (fitsTemplate uuidTemplate sid = false -> nid <> sid) /\
         SessionResult.newSessionId r = Some nid /\
         recordsOf w' (dbPath B) =
           recordsOf w (dbPath B) ++ [setField "composerId" (JStr nid) (deepClone R)] /\
         stringComposerId (setField "composerId" (JStr nid) (deepClone R)) = Some nid /\
         (forall name, name <> "composerId" ->
            getField name (setField "composerId" (JStr nid) (deepClone R)) = getField name R)).
Proof.
  intros Hres Hne o w' Hrun.
  apply resolvesTo_resolve in Hres.
  rewrite migrateSession_unfold in Hrun. simpl in Hrun. rewrite Hres in Hrun.
  unfold tryCatch in Hrun.
  pose proof (performMigration_effect sid Copy A B (path A) (normalizePath host dest) w) as Heff.
  destruct (performMigration sid Copy A B (path A) (normalizePath host dest) w)
    as [[r0|e] w0] eqn:Hperf.
  - injection Hrun as <- <-.
    destruct Heff as (_ & _ & _ & _ & _ & Hframe & _).
    assert (HdbA : databases w0 !! dbPath A = databases w !! dbPath A)
      by (apply Hframe; [reflexivity|exact Hne]).
    split; [exact HdbA|]. split; [unfold recordsOf; rewrite HdbA; reflexivity|].
    intros r Hr _. injection Hr as <-.
    destruct (performMigration_copy_inv _ _ _ _ _ _ _ _ Hperf)
      as (dA & dB & cdA & idx & R & nid & w1 & m & w2 & HdA & HdB & HcA & Hidx & HR & HRid
          & Hgen & Hcopy & -> & ->).
    pose proof (generateSessionId_fits _ _ _ Hgen) as Hfits.
    exists R, nid.
    split. { rewrite (recordsOf_composersOf _ _ _ HdA). unfold composersOf. rewrite HcA.
             apply list_elem_of_In. eapply list_elem_of_lookup_2; eauto. }
    split; [exact HRid|].
    split; [rewrite Hgen; reflexivity|].
    split; [exact Hfits|].
    split. { intros Hsid ->. congruence. }
    split; [reflexivity|].
    split. { rewrite recordsOf_setDatabases_insert. destruct (decide _); [|contradiction].
             simpl. rewrite (recordsOf_composersOf _ _ _ HdB). reflexivity. }
    split. { unfold stringComposerId. rewrite getField_setField_eq. reflexivity. }
    intros name Hname. apply getField_setField_ne. congruence.
  - unfold ret in Hrun. injection Hrun as <- <-.
    destruct Heff as (_ & _ & Hsame). specialize (Hsame eq_refl).
    split; [rewrite Hsame; reflexivity|].
    split; [apply recordsOf_sameStores; exact Hsame|].
    intros r Hr Hs. injection Hr as <-. discriminate.
Qed.

(** Claim C3 (dry run is a no-op).  With [dryRun = true],
    [migrateSession], [migrateSessions] and [migrateWorkspace] leave the
    whole world (every store, the global table, even the random source)
    identical to what it was, whatever they return.  When resolution and
    validation of a record pass, [migrateSession] returns the result with
    [success = true], [dryRun = true], the path of the store found and the
    normalized destination; every result of a dry-run batch carries
    [dryRun = true], and a dry-run workspace result carries the normalized
    source and destination paths. *)
Theorem dry_run_is_a_no_op (host : Host) :
  (forall sid dest md f w,
      snd (migrateSession host sid (mkSessionOptions dest md true f) w) = w) /\
  (forall ids dest md f w,
      snd (migrateSessions host
             (mkMigrateSessionOptions ids (mkSessionOptions dest md true f)) w) = w) /\
  (forall src dest md f w,
      snd (migrateWorkspace host (WorkspaceOptions.mk src dest md true f) w) = w) /\
  (forall sid dest md f w A B,
      resolvesTo host w sid dest A B ->
      fst (migrateSession host sid (mkSessionOptions dest md true f) w) =
      Returned {| SessionResult.success := true;
                  SessionResult.sessionId := sid;
                  SessionResult.sourceWorkspace := path A;
                  SessionResult.destinationWorkspace := normalizePath host dest;
                  SessionResult.mode := md;
                  SessionResult.newSessionId := None;
                  SessionResult.error := None;
                  SessionResult.dryRun := true |}) /\
  (forall ids dest md f w results,
      fst (migrateSessions host
             (mkMigrateSessionOptions ids (mkSessionOptions dest md true f)) w)
        = Returned results ->
      Forall (fun r => SessionResult.dryRun r = true) results) /\
  (forall src dest md f w r,
      fst (migrateWorkspace host (WorkspaceOptions.mk src dest md true f) w) = Returned r ->
      WorkspaceResult.dryRun r = true /\
      WorkspaceResult.source r = normalizePath host src /\
      WorkspaceResult.destination r = normalizePath host dest /\
      Forall (fun s => SessionResult.dryRun s = true) (WorkspaceResult.results r)).
Proof.
  split; [apply migrateSession_dry|].
  split.
  { intros ids dest md f w. unfold migrateSessions. simpl.
    destruct (migrateEach_acc host ids (mkSessionOptions dest md true f) [] w)
      as (rs & w' & H & _).
    rewrite H. simpl. destruct (migrateEach_effect _ _ _ _ _ _ H) as (_ & _ & Hsame & _).
    apply Hsame. reflexivity. }
  split.
  { intros src dest md f w. rewrite migrateWorkspace_unfold.
    destruct (validateWorkspace _ _ _) as [ids|e]; [|reflexivity].
    destruct (migrateEach_acc host ids
                (batchOptions host (WorkspaceOptions.mk src dest md true f)) [] w)
      as (rs & w' & H & _).
    rewrite H. simpl. destruct (migrateEach_effect _ _ _ _ _ _ H) as (_ & _ & Hsame & _).
    apply Hsame. reflexivity. }
  split.
  { intros sid dest md f w A B Hres. apply resolvesTo_resolve in Hres.
    rewrite migrateSession_unfold. simpl. rewrite Hres. reflexivity. }
  split.
  { intros ids dest md f w results. unfold migrateSessions. simpl.
    destruct (migrateEach host ids _ [] w) as [[rs|e] w'] eqn:H; simpl; [|discriminate].
    intros E; inversion E; subst.
    destruct (migrateEach_effect _ _ _ _ _ _ H) as (_ & Hall & _). exact Hall. }
  intros src dest md f w r. rewrite migrateWorkspace_unfold.
  destruct (validateWorkspace _ _ _) as [ids|e]; [|discriminate].
  destruct (migrateEach host ids _ [] w) as [[rs|e] w'] eqn:H; simpl; [|discriminate].
  intros E; inversion E; subst. simpl.
  repeat (split; [reflexivity|]).
  destruct (migrateEach_effect _ _ _ _ _ _ H) as (_ & Hall & _). exact Hall.
Qed.

(** Claim C4 (batch order and independence).  [migrateSessions] never
    throws: it returns one result per identifier, in input order, the
    [i]-th result carrying the [i]-th identifier.  The [i]-th identifier is
    always attempted, in the world the attempts before it left behind,
    whatever those attempts did: the [i]-th result is what [migrateSession]
    returned there, or, when it threw, the conversion of the thrown error
    into a result with [success = false] and the error's message. *)
Theorem migrateSessions_one_result_per_identifier (host : Host)
    (options : MigrateSessionOptions) (w : World) :
  exists results w',
    migrateSessions host options w = (Returned results, w') /\
    length results = length (sessionIds options) /\
    map SessionResult.sessionId results = sessionIds options /\
    (forall (i : nat) (sid : string),
        sessionIds options !! i = Some sid ->
        let before :=
          snd (migrateSessions host
                 {| sessionIds := take i (sessionIds options);
                    sessionOptions := sessionOptions options |} w) in
        results !! i =
          Some (settled sid (sessionOptions options)
                  (migrateSession host sid (sessionOptions options) before))) /\
    (forall (sid : string) (e : Thrown),
        let r := thrownResult sid (sessionOptions options) e in
        SessionResult.success r = false /\
        SessionResult.sessionId r = sid /\
        SessionResult.error r = Some (errorMessage e)).
Proof.
  destruct options as [ids opts]. unfold migrateSessions. simpl.
  destruct (migrateEach_acc host ids opts [] w) as (rs & w' & Hrun & _).
  exists rs, w'. split; [exact Hrun|].
  pose proof (migrateEach_ids _ _ _ _ _ _ Hrun) as Hids.
  split; [apply (f_equal (@length _)) in Hids; rewrite length_map in Hids; exact Hids|].
  split; [exact Hids|]. split; [|intros; repeat split].
  intros i sid Hi.
  pose proof (take_drop_middle _ _ _ Hi) as Hsplit.
  destruct (migrateEach_app host (take i ids) (sid :: drop (S i) ids) opts w)
    as (rs1 & w1 & rs2 & w2 & H1 & H2 & H12).
  rewrite Hsplit, Hrun in H12. injection H12 as Hrs Hw. subst rs.
  rewrite H1. simpl.
  rewrite migrateEach_cons in H2.
  destruct (attempt_returns host sid opts w1) as (r & wa & Hr). rewrite Hr in H2.
  destruct (migrateEach_acc host (drop (S i) ids) opts ([] ++ [r]) wa) as (x & wx & _ & Hx).
  rewrite Hx in H2. injection H2 as Hrs2 _. subst rs2.
  assert (Hlen : length rs1 = i).
  { pose proof (migrateEach_ids _ _ _ _ _ _ H1) as Hl.
    apply (f_equal (@length _)) in Hl. rewrite length_map, length_take in Hl.
    apply lookup_lt_Some in Hi. lia. }
  rewrite lookup_app_r by lia. rewrite Hlen, Nat.sub_diag. simpl.
  f_equal. eapply attempt_settled. exact Hr.
Qed.


(** Claim C6, as amended (a race is reported as a failed result).  When
    resolution of [sid] succeeded but, by the time the mutation phase reads
    it, the source array no longer holds a record with that identifier,
    [migrateSessionInterleaved] throws nothing and writes nothing: it
    returns a result with [success = false] whose error is the message of
    [SessionNotFoundError], the very error a failed resolution carries. *)
Theorem race_is_reported_as_failed_result (host : Host) (interleave : World -> World)
    (w : World) (sid : string) (options : SessionOptions) (A B : Workspace)
    (cd : ComposerData) :
  resolvesTo host w sid (destination options) A B ->
  dryRun options = false ->
  opens (interleave w) (dbPath A) ->
  opens (interleave w) (dbPath B) ->
  fst (getComposerData (dbPath A) (interleave w)) = Returned (Some cd) ->
  existsb (hasComposerId sid) (composers cd) = false ->
  migrateSessionInterleaved host interleave sid options w =
  (Returned {| SessionResult.success := false;
               SessionResult.sessionId := sid;
               SessionResult.sourceWorkspace := path A;
               SessionResult.destinationWorkspace := normalizePath host (destination options);
               SessionResult.mode := mode options;
               SessionResult.newSessionId := None;
               SessionResult.error := Some (errorMessage (SessionNotFoundError sid));
               SessionResult.dryRun := false |},
   interleave w).
Proof.
  intros Hres Hdry HoA HoB Hcd Habsent.
  apply resolvesTo_resolve in Hres.
  rewrite migrateSessionInterleaved_unfold, Hres. simpl. rewrite Hdry.
  unfold tryCatch, performMigration, bind.
  unfold opens in HoA, HoB.
  destruct (openDatabaseReadWrite (dbPath A) (interleave w)) as [oA wA] eqn:EA.
  destruct (openDatabaseReadWrite_inv _ _ _ _ EA) as (-> & _). simpl in HoA. subst oA.
  destruct (openDatabaseReadWrite (dbPath B) (interleave w)) as [oB wB] eqn:EB.
  destruct (openDatabaseReadWrite_inv _ _ _ _ EB) as (-> & _). simpl in HoB. subst oB.
  unfold getComposerData, gets in Hcd |- *. simpl in Hcd. injection Hcd as Hcd.
  rewrite Hcd. apply findIndex_None in Habsent. rewrite Habsent. reflexivity.
Qed.

(** Claim C7 (round trip).  Let [sid] name exactly one record, in store
    [A] and nowhere else, with one store file per workspace, both stores
    writable.  Moving the record to [B] and then back to [A] succeeds both
    times; afterwards [A] and [B] hold as many records as at the start,
    [B]'s array is exactly what it was, and the identifier is again found
    in [A] and not in [B]. *)
Theorem move_round_trip (host : Host) (w : World) (sid destB destA : string)
    (f1 f2 : bool) (A B : Workspace) :
  resolvesTo host w sid destB A B ->
  dbPath A <> dbPath B ->
  fst (findWorkspaceByPath host (normalizePath host destA) w) = Returned (Some A) ->
  pathsEqual host (path B) (normalizePath host destA) = false ->
  NoDup (map dbPath (workspaces w)) ->
  length (List.filter (hasComposerId sid) (recordsOf w (dbPath A))) = 1%nat ->
  (forall ws, In ws (workspaces w) -> ownsSession w sid ws = true -> ws = A) ->
  writable w (dbPath A) = true ->
  writable w (dbPath B) = true ->
  exists r1 w1 r2 w2,
    migrateSession host sid (mkSessionOptions destB Move false f1) w = (Returned r1, w1) /\
    SessionResult.success r1 = true /\
    migrateSession host sid (mkSessionOptions destA Move false f2) w1 = (Returned r2, w2) /\
    SessionResult.success r2 = true /\
    length (recordsOf w2 (dbPath A)) = length (recordsOf w (dbPath A)) /\
    length (recordsOf w2 (dbPath B)) = length (recordsOf w (dbPath B)) /\
    recordsOf w2 (dbPath B) = recordsOf w (dbPath B) /\
    existsb (hasComposerId sid) (recordsOf w2 (dbPath A)) = true /\
    existsb (hasComposerId sid) (recordsOf w2 (dbPath B)) = false.
Proof.
  intros Hres Hne HbackA HbackB Hnodup Hone Huniq HwA HwB.
  destruct (move_effect host w sid destB f1 A B Hres HwA HwB)
    as (dA & dB & cdA & idx & R & HdA & HdB & HcA & Hidx & HR & HRid & Hrun1).
  set (w1 := movedWorld w (dbPath A) (dbPath B) dA dB cdA idx) in *.
  pose proof Hres as (HfindA & HneqAB & HfindB).
  unfold findWorkspaceForSession, findWorkspaceByPath, gets in HfindA, HfindB, HbackA.
  simpl in HfindA, HfindB, HbackA.
  injection HfindA as HfindA. injection HfindB as HfindB. injection HbackA as HbackA.
  assert (HinB : In B (workspaces w)) by (apply find_some in HfindB; tauto).
  assert (HrecA : recordsOf w (dbPath A) = composers cdA).
  { rewrite (recordsOf_composersOf _ _ _ HdA). unfold composersOf. rewrite HcA. reflexivity. }
  assert (HrecB : recordsOf w (dbPath B) = composersOf dB)
    by apply (recordsOf_composersOf _ _ _ HdB).
  assert (HnotB : existsb (hasComposerId sid) (composersOf dB) = false).
  { rewrite <- HrecB. destruct (existsb _ _) eqn:E; [|reflexivity].
    exfalso. apply Hne. f_equal. symmetry. apply Huniq; assumption. }
  assert (Hrec1A : recordsOf w1 (dbPath A) = delete idx (composers cdA))
    by (apply recordsOf_movedWorld_source; exact Hne).
  assert (Hrec1B : recordsOf w1 (dbPath B) = composersOf dB ++ [R]).
  { subst w1. rewrite recordsOf_movedWorld_dest, HR. reflexivity. }
  assert (HnotA1 : existsb (hasComposerId sid) (delete idx (composers cdA)) = false).
  { apply filter_nil_existsb. rewrite HrecA in Hone.
    rewrite (filter_length_delete_found _ _ _ Hidx) in Hone. lia. }
  assert (Hfind1 : List.find (ownsSession w1 sid) (workspaces w1) = Some B).
  { apply find_unique.
    - exact HinB.
    - unfold ownsSession. rewrite Hrec1B, existsb_app. simpl. rewrite HRid. apply orb_true_r.
    - intros ws Hin Hown. unfold ownsSession in Hown.
      destruct (decide (dbPath ws = dbPath B)) as [e|n].
      + apply (NoDup_map_inj dbPath (workspaces w)); assumption.
      + exfalso. destruct (decide (dbPath ws = dbPath A)) as [e|n'].
        * rewrite e, Hrec1A, HnotA1 in Hown. discriminate.
        * subst w1. rewrite recordsOf_movedWorld_other in Hown by assumption.
          apply n'. f_equal. apply Huniq; assumption. }
  assert (Hres1 : resolvesTo host w1 sid destA B A).
  { split; [|split; [exact HbackB|]].
    - unfold findWorkspaceForSession, gets. cbn [fst]. f_equal. exact Hfind1.
    - unfold findWorkspaceByPath, gets. cbn [fst]. f_equal. exact HbackA. }
  assert (HwB1 : writable w1 (dbPath B) = true)
    by (subst w1; rewrite writable_movedWorld; assumption).
  assert (HwA1 : writable w1 (dbPath A) = true)
    by (subst w1; rewrite writable_movedWorld; assumption).
  destruct (move_effect host w1 sid destA f2 B A Hres1 HwB1 HwA1)
    as (dB1 & dA1 & cdB1 & idx1 & R1 & HdB1 & HdA1 & HcB1 & Hidx1 & HR1 & HRid1 & Hrun2).
  assert (HcsB1 : composers cdB1 = composersOf dB ++ [R]).
  { rewrite <- Hrec1B, (recordsOf_composersOf _ _ _ HdB1). unfold composersOf.
    rewrite HcB1. reflexivity. }
  assert (Hi1 : idx1 = length (composersOf dB)).
  { rewrite HcsB1, (findIndex_app_r _ _ _ HnotB HRid) in Hidx1. congruence. }
  exists (moveResult sid (path A) (normalizePath host destB)), w1,
         (moveResult sid (path B) (normalizePath host destA)),
         (movedWorld w1 (dbPath B) (dbPath A) dB1 dA1 cdB1 idx1).
  split; [exact Hrun1|]. split; [reflexivity|]. split; [exact Hrun2|]. split; [reflexivity|].
  rewrite recordsOf_movedWorld_dest.
  rewrite (recordsOf_movedWorld_source _ _ _ _ _ _ _ (not_eq_sym Hne)).
  rewrite <- (recordsOf_composersOf _ _ _ HdA1), Hrec1A, HR1, HcsB1, Hi1, delete_app_last.
  rewrite HrecA, HrecB. simpl.
  split. { rewrite length_app. simpl. pose proof (length_delete_lookup _ _ _ HR). lia. }
  split; [reflexivity|]. split; [reflexivity|].
  split; [|exact HnotB].
  rewrite existsb_app. simpl. rewrite HRid1. apply orb_true_r.
Qed.

(** Claim C8, as amended (content replication).  Let [migrateSession] in
    copy mode, not a dry run, return a success result for record [sid].
    Let the global table hold the metadata of [sid] with a header list
    whose entries each name a content item by a non-empty string id, no two
    the same; let [sid] hold no colon and the keys selected for it be its
    content-item keys, ids without a colon; and let the identifiers the
    random source yields during the copy be pairwise different, the first
    of them, the new record identifier, different from [sid].  Then the
    new record's metadata is stored under the identifier the result
    reports, with every header entry rewritten to point at a newly
    generated id, a different one for each content item; every content
    item a header names is stored again under the key made of the new
    record identifier and that new id, with its own [bubbleId] set to it;
    and the metadata and content items of [sid] are untouched. *)
Theorem replication_duplicates_content (host : Host) (w : World) (sid dest : string)
    (f : bool) (r : SessionMigrationResult) (w' : World) (T : gmap string json)
    (fields : JObject) (hs : list json) (bids : list string) :
  migrateSession host sid (mkSessionOptions dest Copy false f) w = (Returned r, w') ->
  SessionResult.success r = true ->
  globalStorage w = Some T ->
  T !! composerDataKey sid = Some (JObj fields) ->
  getField "fullConversationHeadersOnly" fields = Some (JArr hs) ->
  Forall2 (fun h b => headerId h = Some b) hs bids ->
  NoDup bids ->
  containsChar colon sid = false ->
  (forall k v, T !! k = Some v -> like (bubbleKey sid "%") k = true ->
               canonicalKey sid k) ->
  distinctDraws w (1 + length hs + size T) ->
  drawn w 0 <> sid ->
  exists nid m T',
    SessionResult.newSessionId r = Some nid /\
    globalStorage w' = Some T' /\
    T' !! composerDataKey nid =
      Some (JObj (setField "fullConversationHeadersOnly"
                    (JArr (map (rewriteHeader m) hs))
                    (setField "composerId" (JStr nid) fields))) /\
    (forall b, In b bids ->
       exists n,
         m !! b = Some n /\
         fitsTemplate uuidTemplate n = true /\
         (forall b', In b' bids -> m !! b' = Some n -> b' = b) /\
         forall v, T !! bubbleKey sid b = Some v ->
           exists v',
             setProp "bubbleId" (JStr n) v = Returned v' /\
             T' !! bubbleKey nid n = Some v') /\
    T' !! composerDataKey sid = T !! composerDataKey sid /\
    (forall b, T' !! bubbleKey sid b = T !! bubbleKey sid b).
Proof.
  intros Hrun Hsucc HT Hrow Hhs Hvalid Hnd Hold Hcanon Hfresh Hneq.
  rewrite migrateSession_unfold in Hrun.
  destruct (resolve host sid _ w) as [[A B]|e0]; [|discriminate Hrun].
  cbn [dryRun mode destination] in Hrun. cbv zeta in Hrun. unfold tryCatch in Hrun.
  destruct (performMigration sid Copy A B _ _ w) as [[r0|e] w0] eqn:Hperf.
  2:{ unfold ret in Hrun. injection Hrun as <- _. discriminate Hsucc. }
  injection Hrun as -> ->.
  destruct (performMigration_copy_inv _ _ _ _ _ _ _ _ Hperf)
    as (dA & dB & cdA & idx & R & nid & w1 & m & w2 & _ & _ & _ & _ & _ & _
        & Hgen & Hcopy & -> & ->).
  destruct (generateSessionId_drawn w 0 w (ahead_refl w)) as (w1' & Hgen' & Hahead & Hglob).
  rewrite Hgen in Hgen'. injection Hgen' as -> <-.
  rewrite HT in Hglob.
  pose proof (generateSessionId_colon_free _ _ _ Hgen) as Hnew.
  pose proof (replication_assigned w _ 1 w1 T sid (drawn w 0) fields hs m w2
                Hfresh Hahead Hglob Hrow Hhs ltac:(lia) Hcopy) as (Hinj & Hbelow).
  destruct (copyBubbleDataInGlobalStorage_duplicates w1 T sid (drawn w 0) fields hs bids m w2
              Hglob Hrow Hhs Hvalid Hnd Hold Hnew Hneq Hcanon Hcopy Hinj)
    as (T' & HT' & Hmeta & Hitems & Hkeep & Hkeeps).
  exists (drawn w 0), m, T'.
  split; [reflexivity|]. split; [exact HT'|]. split; [exact Hmeta|].
  split; [|split; assumption].
  intros b Hb. destruct (Hitems b Hb) as (n & Hn & Hv).
  exists n. split; [exact Hn|].
  split. { destruct (Hbelow _ _ Hn) as (k & _ & ->). apply drawn_fits. }
  split; [|exact Hv].
  intros b' _ Hn'. eapply Hinj; eassumption.
Qed.

(** Claim C10 (only string identifiers are migrated).  When validation
    reaches and passes the destination guard, [migrateWorkspace] migrates
    exactly the identifiers of the source records whose [composerId] is a
    string, in array order; records without one are left out of the batch
    without any error.  When no source record has a string identifier it
    throws [NoSessionsFoundError] and the world is unchanged. *)
Theorem workspace_batch_only_string_identifiers (host : Host)
    (options : MigrateWorkspaceOptions) (w : World) (A B : Workspace) :
  reachesGuard host options w A B ->
  (WorkspaceOptions.force options = true \/
   (opens w (dbPath B) /\ recordsOf w (dbPath B) = [])) ->
  let ids := omap stringComposerId (recordsOf w (dbPath A)) in
  (ids = [] ->
   migrateWorkspace host options w =
   (Threw (NoSessionsFoundError (normalizePath host (WorkspaceOptions.source options))), w)) /\
  (ids <> [] ->
   exists r w',
     migrateWorkspace host options w = (Returned r, w') /\
     map SessionResult.sessionId (WorkspaceResult.results r) = ids /\
     WorkspaceResult.totalSessions r = length ids).
Proof.
  intros Hreach Hguard ids. subst ids.
  remember (omap stringComposerId (recordsOf w (dbPath A))) as ids eqn:Hids.
  assert (Hval : validateWorkspace host options w =
                 match ids with
                 | [] => Threw (NoSessionsFoundError
                                  (normalizePath host (WorkspaceOptions.source options)))
                 | _ => Returned ids
                 end).
  { rewrite (validateWorkspace_at_guard _ _ _ _ _ Hreach). simpl. rewrite <- Hids.
    destruct Hguard as [Hf | (Ho & He)].
    - rewrite Hf. destruct ids; reflexivity.
    - rewrite Ho, He.
      destruct (WorkspaceOptions.force options); destruct ids; reflexivity. }
  clear Hids. rewrite migrateWorkspace_unfold, Hval. split.
  - intros ->. reflexivity.
  - intros Hne. destruct ids as [|i0 rest]; [contradiction|].
    destruct (migrateEach_acc host (i0 :: rest) (batchOptions host options) [] w)
      as (rs & w' & Hrun & _).
    rewrite Hrun. eexists _, w'. split; [reflexivity|]. simpl.
    pose proof (migrateEach_ids _ _ _ _ _ _ Hrun) as Hmap.
    split; [exact Hmap|].
    apply (f_equal (@length _)) in Hmap. rewrite length_map in Hmap. exact Hmap.
Qed.

(** * Instances on the example installation *)

(** C1 on the example: moving [R2] from [wsA] to the empty [wsB]. *)
Lemma move_is_a_transfer_witness :
  exists R w',
    fst (migrateSession posixHost "R2" (mkSessionOptions "/proj/b/" Move false false)
           exampleWorld) = Returned (moveResult "R2" "/proj/a" "/proj/b") /\
    snd (migrateSession posixHost "R2" (mkSessionOptions "/proj/b/" Move false false)
           exampleWorld) = w' /\
    recordsOf w' (dbPath wsB) = [R] /\
    length (recordsOf w' (dbPath wsA)) = 2%nat.
Proof.
  destruct (move_is_a_transfer posixHost exampleWorld "R2" "/proj/b/" false wsA wsB)
    as (R & w' & Hrun & _ & _ & HB & HA & _).
  - repeat split; vm_compute; reflexivity.
  - vm_compute. discriminate.
  - vm_compute. reflexivity.
  - vm_compute. reflexivity.
  - vm_compute. reflexivity.
  - exists R, w'. rewrite Hrun. split; [reflexivity|]. split; [reflexivity|].
    split; [exact HB|].
    change (length (recordsOf exampleWorld (dbPath wsA))) with 3%nat in HA. congruence.
Defined.

(** C2 on the example: copying [R1] leaves the array of [wsA] as it was and
    adds one record, under the generated identifier, to [wsB]. *)
Lemma copy_preserves_the_source_witness :
  recordsOf (snd (migrateSession posixHost "R1" copyR1 exampleWorld)) (dbPath wsA)
  = recordsOf exampleWorld (dbPath wsA) /\
  exists R nid,
    nid <> "R1"%string /\
    recordsOf (snd (migrateSession posixHost "R1" copyR1 exampleWorld)) (dbPath wsB)
    = recordsOf exampleWorld (dbPath wsB)
      ++ [setField "composerId" (JStr nid) (deepClone R)].
Proof.
  destruct (copy_preserves_the_source posixHost exampleWorld "R1" "/proj/b/" false wsA wsB)
    with (o := fst (migrateSession posixHost "R1" copyR1 exampleWorld))
         (w' := snd (migrateSession posixHost "R1" copyR1 exampleWorld))
    as (_ & Hsource & Hcopy).
  - repeat split; vm_compute; reflexivity.
  - vm_compute. discriminate.
  - apply surjective_pairing.
  - split; [exact Hsource|].
    destruct (Hcopy (copyResult "R1" "/proj/a" "/proj/b" firstIdentifier))
      as (R & nid & _ & _ & _ & _ & Hfresh & _ & Hdest & _).
    + vm_compute. reflexivity.
    + reflexivity.
    + exists R, nid. split; [apply Hfresh; reflexivity|exact Hdest].
Defined.

(** C2 as first stated does not hold: the new identifier is not compared
    with the old one.  A record whose identifier is the one the random
    source yields next is copied under that same identifier. *)
Lemma copy_can_repeat_the_identifier :
  ~ (forall r w',
       migrateSession posixHost firstIdentifier copyR1 (worldWith dbGenerated dbEmpty)
       = (Returned r, w') ->
       SessionResult.success r = true ->
       SessionResult.newSessionId r <> Some firstIdentifier).
Proof.
  intros H.
  refine (H (copyResult firstIdentifier "/proj/a" "/proj/b" firstIdentifier)
            (snd (migrateSession posixHost firstIdentifier copyR1
                    (worldWith dbGenerated dbEmpty))) _ _ _).
  - vm_compute. reflexivity.
  - reflexivity.
  - reflexivity.
Qed.

(** C3 on the example: the planned move of [R2], nothing written. *)
Lemma dry_run_is_a_no_op_witness :
  migrateSession posixHost "R2" (mkSessionOptions "/proj/b/" Move true false) exampleWorld
  = (Returned (dryRunResult "R2" "/proj/a" "/proj/b" Move), exampleWorld).
Proof.
  destruct (dry_run_is_a_no_op posixHost) as (Hsame & _ & _ & Hresult & _).
  rewrite (surjective_pairing (migrateSession _ _ _ _)).
  rewrite Hsame.
  rewrite (Hresult "R2" "/proj/b/" Move false exampleWorld wsA wsB).
  - reflexivity.
  - repeat split; vm_compute; reflexivity.
Defined.

(** C4 on the example: three identifiers, three results, the unknown one
    converted into a failed result. *)
Lemma migrateSessions_one_result_per_identifier_witness :
  exists results w',
    migrateSessions posixHost batchExample exampleWorld = (Returned results, w') /\
    length results = 3%nat /\
    results !! 1%nat =
      Some (thrownResult "nope" (sessionOptions batchExample) (SessionNotFoundError "nope")).
Proof.
  destruct (migrateSessions_one_result_per_identifier posixHost batchExample exampleWorld)
    as (results & w' & Hrun & Hlen & _ & Hnth & _).
  exists results, w'. split; [exact Hrun|]. split; [exact Hlen|].
  rewrite (Hnth 1%nat "nope" eq_refl). vm_compute. reflexivity.
Defined.


(** C6 on the example: [R2] disappears from [wsA] after resolution. *)
Lemma race_is_reported_as_failed_result_witness :
  migrateSessionInterleaved posixHost loseR2 "R2"
    (mkSessionOptions "/proj/b/" Move false false) exampleWorld =
  (Returned (failureResult "R2" Move "/proj/a" "/proj/b" (SessionNotFoundError "R2")),
   loseR2 exampleWorld).
Proof.
  apply (race_is_reported_as_failed_result posixHost loseR2 exampleWorld "R2"
           (mkSessionOptions "/proj/b/" Move false false) wsA wsB
           (mkComposerData [exampleRecord "R1"; exampleRecord "R3"] true None)).
  - repeat split; vm_compute; reflexivity.
  - reflexivity.
  - vm_compute. reflexivity.
  - vm_compute. reflexivity.
  - vm_compute. reflexivity.
  - vm_compute. reflexivity.
Defined.

(** C6 as first stated does not hold: in that race the error reported is
    the one of a record that was never found, not a distinct
    internal-consistency error. *)
Lemma race_reports_session_not_found :
  ~ (forall r w',
       migrateSessionInterleaved posixHost loseR2 "R2"
         (mkSessionOptions "/proj/b/" Move false false) exampleWorld = (Returned r, w') ->
       SessionResult.error r <> Some (errorMessage (SessionNotFoundError "R2"))).
Proof.
  intros H.
  refine (H (failureResult "R2" Move "/proj/a" "/proj/b" (SessionNotFoundError "R2"))
            (loseR2 exampleWorld) _ _).
  - vm_compute. reflexivity.
  - reflexivity.
Qed.

(** C7 on the example: [R2] to [wsB] and back. *)
Lemma move_round_trip_witness :
  exists r1 w1 r2 w2,
    migrateSession posixHost "R2" (mkSessionOptions "/proj/b/" Move false false) exampleWorld
      = (Returned r1, w1) /\
    migrateSession posixHost "R2" (mkSessionOptions "/proj/a" Move false false) w1
      = (Returned r2, w2) /\
    length (recordsOf w2 (dbPath wsA)) = 3%nat /\
    recordsOf w2 (dbPath wsB) = [].
Proof.
  destruct (move_round_trip posixHost exampleWorld "R2" "/proj/b/" "/proj/a" false false wsA wsB)
    as (r1 & w1 & r2 & w2 & H1 & _ & H2 & _ & HA & _ & HB & _).
  - repeat split; vm_compute; reflexivity.
  - vm_compute. discriminate.
  - vm_compute. reflexivity.
  - vm_compute. reflexivity.
  - apply (bool_decide_unpack _). vm_compute. exact I.
  - vm_compute. reflexivity.
  - intros ws [<-|[<-|[]]].
    + reflexivity.
    + vm_compute. discriminate.
  - vm_compute. reflexivity.
  - vm_compute. reflexivity.
  - exists r1, w1, r2, w2. split; [exact H1|]. split; [exact H2|].
    split; [exact HA|exact HB].
Defined.

(** C10 on the example: a source with only identifier-less records, and
    the usual source whose three records all have one. *)
Lemma workspace_batch_only_string_identifiers_witness :
  migrateWorkspace posixHost (wholeWorkspace false) identifierlessWorld
    = (Threw (NoSessionsFoundError "/proj/a"), identifierlessWorld) /\
  exists r w',
    migrateWorkspace posixHost (wholeWorkspace false) exampleWorld = (Returned r, w') /\
    map SessionResult.sessionId (WorkspaceResult.results r) = ["R1"; "R2"; "R3"].
Proof.
  split.
  - apply (workspace_batch_only_string_identifiers posixHost (wholeWorkspace false)
             identifierlessWorld wsA wsB).
    + split; [vm_compute; reflexivity|]. split; [vm_compute; reflexivity|].
      split; [vm_compute; reflexivity|]. split; [vm_compute; reflexivity|].
      vm_compute. discriminate.
    + right. split; vm_compute; reflexivity.
    + vm_compute. reflexivity.
  - destruct (workspace_batch_only_string_identifiers posixHost (wholeWorkspace false)
                exampleWorld wsA wsB) as (_ & Hbatch).
    + split; [vm_compute; reflexivity|]. split; [vm_compute; reflexivity|].
      split; [vm_compute; reflexivity|]. split; [vm_compute; reflexivity|].
      vm_compute. discriminate.
    + right. split; vm_compute; reflexivity.
    + destruct Hbatch as (r & w' & Hrun & Hids & _).
      * vm_compute. discriminate.
      * exists r, w'. split; [exact Hrun|exact Hids].
Defined.

(** C8 on the example: copying [R1] stores its content again under the
    new record identifier and leaves the content of [R1] as it was. *)
Lemma replication_duplicates_content_witness :
  exists nid T',
    SessionResult.newSessionId
      (copyResult "R1" "/proj/a" "/proj/b" firstIdentifier) = Some nid /\
    globalStorage (snd (migrateSession posixHost "R1" copyR1 exampleWorld)) = Some T' /\
    (exists n v', T' !! bubbleKey nid n = Some v') /\
    T' !! bubbleKey "R1" "b1" = exampleTable !! bubbleKey "R1" "b1".
Proof.
  destruct (replication_duplicates_content posixHost exampleWorld "R1" "/proj/b/" false
              (copyResult "R1" "/proj/a" "/proj/b" firstIdentifier)
              (snd (migrateSession posixHost "R1" copyR1 exampleWorld))
              exampleTable
              [("composerId", JStr "R1");
               ("fullConversationHeadersOnly",
                JArr [JObj [("bubbleId", JStr "b1"); ("type", JNum 1)];
                      JObj [("bubbleId", JStr "b2"); ("type", JNum 2)]])]
              [JObj [("bubbleId", JStr "b1"); ("type", JNum 1)];
               JObj [("bubbleId", JStr "b2"); ("type", JNum 2)]]
              ["b1"; "b2"]%string)
    as (nid & m & T' & Hnid & HT' & _ & Hcopies & _ & Hkept).
  - vm_compute. reflexivity.
  - reflexivity.
  - reflexivity.
  - vm_compute. reflexivity.
  - reflexivity.
  - repeat constructor.
  - apply (bool_decide_unpack _). vm_compute. exact I.
  - reflexivity.
  - intros k v Hk Hlike.
    assert (Hkeys : (map_to_list exampleTable).*1 =
                    ["composerData:R1"; "bubbleId:R1:b1"; "bubbleId:R1:b2"]%string)
      by (vm_compute; reflexivity).
    assert (Hin : k ∈ (map_to_list exampleTable).*1).
    { apply list_elem_of_fmap. exists (k, v). split; [reflexivity|].
      apply elem_of_map_to_list. exact Hk. }
    rewrite Hkeys in Hin. clear Hk Hkeys.
    apply elem_of_cons in Hin as [->|Hin]; [vm_compute in Hlike; discriminate Hlike|].
    apply elem_of_cons in Hin as [->|Hin]; [exists "b1"%string; split; reflexivity|].
    apply elem_of_cons in Hin as [->|Hin]; [exists "b2"%string; split; reflexivity|].
    inversion Hin.
  - apply (bool_decide_unpack _). vm_compute. exact I.
  - vm_compute. discriminate.
  - exists nid, T'. split; [exact Hnid|]. split; [exact HT'|]. split; [|apply Hkept].
    destruct (Hcopies "b1"%string (or_introl eq_refl)) as (n & _ & _ & _ & Hv).
    destruct (Hv (JObj [("bubbleId", JStr "b1"); ("text", JStr "hi")])) as (v' & _ & Hlook);
      [vm_compute; reflexivity|].
    exists n, v'. exact Hlook.
Defined.

(** C8 as first stated does not hold for every copy: when the header list
    names the same content item twice, or names one by a number, the
    metadata of the copy has a header entry that names an id under which
    no content item is stored. *)
Lemma copy_can_leave_a_header_without_content :
  ~ (forall r w' nid,
       migrateSession posixHost "R1" copyR1 (withTable repeatedTable) = (Returned r, w') ->
       SessionResult.newSessionId r = Some nid ->
       headersResolve w' nid) /\
  ~ (forall r w' nid,
       migrateSession posixHost "R1" copyR1 (withTable numberedTable) = (Returned r, w') ->
       SessionResult.newSessionId r = Some nid ->
       headersResolve w' nid).
Proof.
  pose (h := JObj [("bubbleId", JStr "f0123456-789a-4bcd-af01-23456789abcd");
                   ("type", JNum 1)]).
  pose (h' := JObj [("bubbleId", JStr "ef012345-6789-4abc-9ef0-123456789abc");
                    ("type", JNum 2)]).
  split; intros H.
  - destruct (migrateSession posixHost "R1" copyR1 (withTable repeatedTable))
      as [o w'] eqn:Hrun.
    assert (Ho : o = Returned (copyResult "R1" "/proj/a" "/proj/b" firstIdentifier))
      by (apply (f_equal fst) in Hrun; vm_compute in Hrun; symmetry; exact Hrun).
    assert (Hlook :
      match globalStorage w' with
      | Some T =>
          T !! composerDataKey firstIdentifier
          = Some (JObj [("composerId", JStr firstIdentifier);
                        ("fullConversationHeadersOnly", JArr [h; h'])]) /\
          T !! bubbleKey firstIdentifier "f0123456-789a-4bcd-af01-23456789abcd" = None
      | None => False
      end).
    { apply (f_equal snd) in Hrun. cbn [snd] in Hrun. rewrite <- Hrun. clear.
      vm_compute. split; reflexivity. }
    subst o. destruct (globalStorage w') as [T|] eqn:HT; [|contradiction].
    destruct Hlook as (Hmeta & Hnone).
    destruct (H _ _ firstIdentifier eq_refl eq_refl T _ [h; h'] h
                "f0123456-789a-4bcd-af01-23456789abcd"
                HT Hmeta eq_refl (or_introl eq_refl) eq_refl) as (v & Hv).
    congruence.
  - destruct (migrateSession posixHost "R1" copyR1 (withTable numberedTable))
      as [o w'] eqn:Hrun.
    assert (Ho : o = Returned (copyResult "R1" "/proj/a" "/proj/b" firstIdentifier))
      by (apply (f_equal fst) in Hrun; vm_compute in Hrun; symmetry; exact Hrun).
    assert (Hlook :
      match globalStorage w' with
      | Some T =>
          T !! composerDataKey firstIdentifier
          = Some (JObj [("composerId", JStr firstIdentifier);
                        ("fullConversationHeadersOnly", JArr [h])]) /\
          T !! bubbleKey firstIdentifier "f0123456-789a-4bcd-af01-23456789abcd" = None
      | None => False
      end).
    { apply (f_equal snd) in Hrun. cbn [snd] in Hrun. rewrite <- Hrun. clear.
      vm_compute. split; reflexivity. }
    subst o. destruct (globalStorage w') as [T|] eqn:HT; [|contradiction].
    destruct Hlook as (Hmeta & Hnone).
    destruct (H _ _ firstIdentifier eq_refl eq_refl T _ [h] h
                "f0123456-789a-4bcd-af01-23456789abcd"
                HT Hmeta eq_refl (or_introl eq_refl) eq_refl) as (v & Hv).
    congruence.
Qed.

(** * Further properties of the code

    What the code guarantees beyond the claims above: the shape of its
    identifiers and results, the errors it can throw, what a move or a
    replication leaves behind, and how paths, error messages and table
    cells behave. *)

(** ** More on lists and strings *)

Lemma filter_partition_length {A} (p : A -> bool) (l : list A) :
  (length (List.filter p l) + length (List.filter (fun x => negb (p x)) l))%nat = length l.
Proof.
  induction l as [|a l IH]; [reflexivity|]. simpl.
  destruct (p a); simpl; lia.
Qed.

Lemma filter_negb_nil {A} (p : A -> bool) (l : list A) :
  length (List.filter (fun x => negb (p x)) l) = 0%nat <-> Forall (fun x => p x = true) l.
Proof.
  induction l as [|a l IH]; simpl.
  - split; [constructor|reflexivity].
  - destruct (p a) eqn:E; simpl.
    + rewrite IH. split; [constructor; assumption|]. intros H. inversion H; assumption.
    + split; [discriminate|]. intros H. inversion H; congruence.
Qed.

Lemma omap_cons_inv {A B} (f : A -> option B) (l : list A) (b : B) (rest : list B) :
  omap f l = b :: rest ->
  exists pre x post,
    l = pre ++ x :: post /\ Forall (fun a => f a = None) pre /\
    f x = Some b /\ omap f post = rest.
Proof.
  induction l as [|a l IH]; [discriminate|].
  simpl. destruct (f a) as [b'|] eqn:Hfa.
  - intros H. injection H as -> <-. exists [], a, l. repeat split; auto.
  - intros H. destruct (IH H) as (pre & x & post & -> & Hpre & Hx & Hpost).
    exists (a :: pre), x, post. repeat split; auto.
Qed.

Lemma omap_none {A B} (f : A -> option B) (l : list A) :
  Forall (fun a => f a = None) l -> omap f l = [].
Proof. induction 1 as [|a l Ha _ IH]; simpl; [reflexivity|]. rewrite Ha. exact IH. Qed.

Lemma findIndex_skip {A} (p : A -> bool) (pre : list A) (x : A) (post : list A) :
  Forall (fun a => p a = false) pre -> p x = true ->
  findIndex p (pre ++ x :: post) = Some (length pre).
Proof.
  induction 1 as [|a pre Ha _ IH]; intros Hx; simpl.
  - rewrite Hx. reflexivity.
  - rewrite Ha, (IH Hx). reflexivity.
Qed.

Lemma delete_middle {A} (pre : list A) (x : A) (post : list A) :
  delete (length pre) (pre ++ x :: post) = pre ++ post.
Proof. induction pre as [|a pre IH]; simpl; [reflexivity|]. rewrite IH. reflexivity. Qed.

Lemma chars_app (a b : string) :
  list_ascii_of_string (a ++ b)%string = list_ascii_of_string a ++ list_ascii_of_string b.
Proof.
  induction a as [|x a IH]; [reflexivity|].
  change (x :: list_ascii_of_string (a ++ b)%string
          = x :: (list_ascii_of_string a ++ list_ascii_of_string b)).
  f_equal. exact IH.
Qed.

Lemma length_chars (s : string) : length (list_ascii_of_string s) = String.length s.
Proof. induction s as [|c s IH]; [reflexivity|]. simpl. f_equal. exact IH. Qed.

Lemma chars_inj (a b : string) : list_ascii_of_string a = list_ascii_of_string b -> a = b.
Proof.
  intros H. rewrite <- (string_of_list_ascii_of_string a), H.
  apply string_of_list_ascii_of_string.
Qed.

Lemma string_of_chars_app (l1 l2 : list ascii) :
  string_of_list_ascii (l1 ++ l2) = (string_of_list_ascii l1 ++ string_of_list_ascii l2)%string.
Proof. induction l1 as [|x l1 IH]; [reflexivity|]. simpl. rewrite IH. reflexivity. Qed.

Lemma append_nil_r (s : string) : (s ++ "")%string = s.
Proof.
  induction s as [|x s IH]; [reflexivity|].
  change (String x (s ++ "")%string = String x s). f_equal. exact IH.
Qed.

Lemma length_append (a b : string) :
  String.length (a ++ b)%string = (String.length a + String.length b)%nat.
Proof.
  induction a as [|c a IH]; [reflexivity|].
  change (S (String.length (a ++ b)%string) = S (String.length a + String.length b)).
  f_equal. exact IH.
Qed.

Lemma append_cancel_l (a x y : string) : (a ++ x)%string = (a ++ y)%string -> x = y.
Proof.
  intros H. apply chars_inj. apply (f_equal list_ascii_of_string) in H.
  rewrite !chars_app in H. exact (app_inv_head _ _ _ H).
Qed.

Lemma append_cancel_r (x y s : string) : (x ++ s)%string = (y ++ s)%string -> x = y.
Proof.
  intros H. apply chars_inj. apply (f_equal list_ascii_of_string) in H.
  rewrite !chars_app in H. exact (app_inv_tail _ _ _ H).
Qed.

Lemma append_same_length (a b x y : string) :
  String.length a = String.length b ->
  (a ++ x)%string = (b ++ y)%string -> a = b /\ x = y.
Proof.
  revert b. induction a as [|c a IH]; intros [|d b] Hlen H; try discriminate.
  - auto.
  - change (String c (a ++ x)%string = String d (b ++ y)%string) in H.
    injection H as -> H. injection Hlen as Hlen.
    destruct (IH b Hlen H) as (-> & ->). auto.
Qed.

Lemma append_sep_inj (c : ascii) (a a' x y : string) :
  containsChar c a = false -> containsChar c a' = false ->
  (a ++ String c x)%string = (a' ++ String c y)%string -> a = a' /\ x = y.
Proof.
  revert a'. induction a as [|d a IH]; intros [|d' a'] Ha Ha' H.
  - injection H as ->. auto.
  - change (String c x = String d' (a' ++ String c y)%string) in H.
    injection H as <- _. simpl in Ha'. rewrite Ascii.eqb_refl in Ha'. discriminate.
  - change (String d (a ++ String c x)%string = String c y) in H.
    injection H as -> _. simpl in Ha. rewrite Ascii.eqb_refl in Ha. discriminate.
  - change (String d (a ++ String c x)%string = String d' (a' ++ String c y)%string) in H.
    injection H as -> H. simpl in Ha, Ha'.
    apply orb_false_elim in Ha as (_ & Ha). apply orb_false_elim in Ha' as (_ & Ha').
    destruct (IH a' Ha Ha' H) as (-> & ->). auto.
Qed.

Lemma prefix_append (a b : string) : String.prefix a (a ++ b)%string = true.
Proof.
  induction a as [|x a IH]; [destruct b; reflexivity|].
  change (String.prefix (String x a) (String x (a ++ b)%string) = true).
  simpl. destruct (ascii_dec x x); [exact IH|contradiction].
Qed.

Lemma prefix_split (a s : string) :
  String.prefix a s = true -> exists rest, s = (a ++ rest)%string.
Proof.
  revert s. induction a as [|x a IH]; intros s H.
  - exists s. reflexivity.
  - destruct s as [|y s]; [discriminate|]. simpl in H.
    destruct (ascii_dec x y) as [->|]; [|discriminate].
    destruct (IH s H) as (rest & ->). exists rest. reflexivity.
Qed.

Lemma sliceFrom_append (a b : string) : sliceFrom (String.length a) (a ++ b)%string = b.
Proof. induction a as [|x a IH]; [destruct b; reflexivity|]. exact IH. Qed.

Lemma containsChar_chars c s :
  containsChar c s = false <-> ~ In c (list_ascii_of_string s).
Proof.
  induction s as [|a s IH]; simpl; [tauto|].
  rewrite orb_false_iff, IH, Ascii.eqb_neq. tauto.
Qed.

Lemma containsChar_prefix c a b :
  containsChar c (a ++ b)%string = false -> containsChar c a = false.
Proof.
  induction a as [|x a IH]; [reflexivity|].
  change (containsChar c (String x (a ++ b)%string) = false -> containsChar c (String x a) = false).
  simpl. rewrite !orb_false_iff. intros (H1 & H2). auto.
Qed.

Lemma startsWithChar_prefix c a b :
  a <> ""%string -> startsWithChar c (a ++ b)%string = startsWithChar c a.
Proof. destruct a; [contradiction|reflexivity]. Qed.

(** ** Generated identifiers *)

(** Property X1 (identifier layout).  Every call of [generateSessionId]
    returns a string of 36 characters in the version-4 layout of its
    template: hyphens after the 8th, 13th, 18th and 23rd character, the
    digit [4] in the version position, one of [8], [9], [a], [b] in the
    variant position, lower-case hexadecimal digits everywhere else.  It
    draws exactly 31 random numbers and changes nothing else. *)
Theorem generateSessionId_uuid_layout (w : World) :
  exists s,
    generateSessionId w = (Returned s, setRandomCalls (randomCalls w + 31) w) /\
    fitsTemplate uuidTemplate s = true /\
    String.length s = 36%nat.
Proof.
  rewrite generateSessionId_run.
  destruct (replaceXY_fits (randomDigit w) (randomCalls w) uuidTemplate) as (Hfit & Hk).
  eexists. split; [rewrite Hk; reflexivity|]. split; [exact Hfit|].
  apply fitsTemplate_length in Hfit. exact Hfit.
Qed.

(** ** One record, continued *)

Lemma updateComposerData_rest db cs f r w :
  let w' := snd (updateComposerData db cs f r w) in
  globalStorage w' = globalStorage w /\ randomCalls w' = randomCalls w /\
  workspaces w' = workspaces w.
Proof.
  unfold updateComposerData.
  destruct (databases w !! db) as [d|]; [destruct (readOnly d)|]; simpl; auto.
Qed.

Lemma performMigration_move_rest sid A B sw nd w :
  let w' := snd (performMigration sid Move A B sw nd w) in
  globalStorage w' = globalStorage w /\ randomCalls w' = randomCalls w /\
  workspaces w' = workspaces w.
Proof.
  unfold performMigration, bind.
  pose proof (openDatabaseReadWrite_world (dbPath A) w) as HwA.
  destruct (openDatabaseReadWrite (dbPath A) w) as [[hA|e] wA]; simpl in HwA; subst wA; [|simpl; auto].
  pose proof (openDatabaseReadWrite_world (dbPath B) w) as HwB.
  destruct (openDatabaseReadWrite (dbPath B) w) as [[hB|e] wB]; simpl in HwB; subst wB; [|simpl; auto].
  unfold getComposerData, gets.
  destruct (match databases w !! hA with Some d => composerData d | None => None end) as [cdA|];
    [|simpl; auto].
  destruct (findIndex _ _) as [idx|]; [|simpl; auto].
  match goal with |- context [updateComposerData ?a ?b ?c ?d w] =>
    pose proof (updateComposerData_rest a b c d w) as H1;
    destruct (updateComposerData a b c d w) as [[[]|e] w1] end; simpl in H1; [|simpl; exact H1].
  match goal with |- context [updateComposerData ?a ?b ?c ?d w1] =>
    pose proof (updateComposerData_rest a b c d w1) as H2;
    destruct (updateComposerData a b c d w1) as [[[]|e] w2] end; simpl in H2; simpl;
    destruct H1 as (?&?&?), H2 as (?&?&?); repeat split; congruence.
Qed.

Lemma performMigration_move_result sid A B sw nd w r w' :
  performMigration sid Move A B sw nd w = (Returned r, w') -> r = moveResult sid sw nd.
Proof.
  unfold performMigration, bind.
  destruct (openDatabaseReadWrite (dbPath A) w) as [[hA|e] wA]; [|discriminate].
  destruct (openDatabaseReadWrite (dbPath B) wA) as [[hB|e] wB]; [|discriminate].
  unfold getComposerData, gets.
  destruct (match databases wB !! hA with Some d => composerData d | None => None end) as [cdA|];
    [|discriminate].
  destruct (findIndex _ _) as [idx|]; [|discriminate].
  match goal with |- context [updateComposerData ?a ?b ?c ?d wB] =>
    destruct (updateComposerData a b c d wB) as [[[]|e] w1] end; [|discriminate].
  match goal with |- context [updateComposerData ?a ?b ?c ?d w1] =>
    destruct (updateComposerData a b c d w1) as [[[]|e] w2] end; [|discriminate].
  unfold ret. intros H. injection H as <- _. reflexivity.
Qed.

Lemma resolve_thrown host sid dest w e :
  resolve host sid dest w = Threw e ->
  let nd := normalizePath host dest in
  (e = SessionNotFoundError sid /\
   fst (findWorkspaceForSession sid w) = Returned None) \/
  (e = SameWorkspaceError nd /\
   exists A, fst (findWorkspaceForSession sid w) = Returned (Some A) /\
             pathsEqual host (path A) nd = true) \/
  (e = WorkspaceNotFoundError nd /\
   exists A, fst (findWorkspaceForSession sid w) = Returned (Some A) /\
             pathsEqual host (path A) nd = false /\
             fst (findWorkspaceByPath host nd w) = Returned None).
Proof.
  unfold resolve, findWorkspaceForSession, findWorkspaceByPath, gets. cbn [fst]. cbv zeta.
  destruct (List.find (ownsSession w sid) (workspaces w)) as [A|].
  - destruct (pathsEqual host (path A) _) eqn:Heq.
    + intros H; injection H as <-. right; left. eauto.
    + destruct (List.find _ (workspaces w)) as [B|]; [discriminate|].
      intros H; injection H as <-. right; right. eauto.
  - intros H; injection H as <-. left. auto.
Qed.

Lemma resolvesTo_source host w sid dest A B :
  resolvesTo host w sid dest A B ->
  exists dA cdA idx R,
    databases w !! dbPath A = Some dA /\ composerData dA = Some cdA /\
    recordsOf w (dbPath A) = composers cdA /\
    findIndex (hasComposerId sid) (composers cdA) = Some idx /\
    composers cdA !! idx = Some R /\ hasComposerId sid R = true.
Proof.
  intros (Hfind & _ & _).
  unfold findWorkspaceForSession, gets in Hfind. simpl in Hfind. injection Hfind as Hfind.
  destruct (find_some_owner _ _ _ Hfind) as (dA & cdA & idx & R & HdA & HcA & Hidx & HR & HRid).
  exists dA, cdA, idx, R. repeat (split; [assumption|]).
  split; [|auto]. rewrite (recordsOf_composersOf _ _ _ HdA). unfold composersOf.
  rewrite HcA. reflexivity.
Qed.

(** After the only record named [sid] has moved from [A] to [B], the
    identifier resolves to [B]. *)
Lemma owner_after_move host w sid dest f A B :
  resolvesTo host w sid dest A B ->
  dbPath A <> dbPath B ->
  NoDup (map dbPath (workspaces w)) ->
  length (List.filter (hasComposerId sid) (recordsOf w (dbPath A))) = 1%nat ->
  (forall ws, In ws (workspaces w) -> ownsSession w sid ws = true -> ws = A) ->
  writable w (dbPath A) = true ->
  writable w (dbPath B) = true ->
  exists w1,
    migrateSession host sid (mkSessionOptions dest Move false f) w
    = (Returned (moveResult sid (path A) (normalizePath host dest)), w1) /\
    workspaces w1 = workspaces w /\
    fst (findWorkspaceForSession sid w1) = Returned (Some B).
Proof.
  intros Hres Hne Hnodup Hone Huniq HwA HwB.
  destruct (move_effect host w sid dest f A B Hres HwA HwB)
    as (dA & dB & cdA & idx & R & HdA & HdB & HcA & Hidx & HR & HRid & Hrun1).
  set (w1 := movedWorld w (dbPath A) (dbPath B) dA dB cdA idx) in *.
  pose proof Hres as (HfindA & HneqAB & HfindB).
  unfold findWorkspaceForSession, findWorkspaceByPath, gets in HfindA, HfindB.
  simpl in HfindA, HfindB.
  injection HfindA as HfindA. injection HfindB as HfindB.
  assert (HinB : In B (workspaces w)) by (apply find_some in HfindB; tauto).
  assert (HrecA : recordsOf w (dbPath A) = composers cdA).
  { rewrite (recordsOf_composersOf _ _ _ HdA). unfold composersOf. rewrite HcA. reflexivity. }
  assert (Hrec1A : recordsOf w1 (dbPath A) = delete idx (composers cdA))
    by (apply recordsOf_movedWorld_source; exact Hne).
  assert (Hrec1B : recordsOf w1 (dbPath B) = composersOf dB ++ [R]).
  { subst w1. rewrite recordsOf_movedWorld_dest, HR. reflexivity. }
  assert (HnotA1 : existsb (hasComposerId sid) (delete idx (composers cdA)) = false).
  { apply filter_nil_existsb. rewrite HrecA in Hone.
    rewrite (filter_length_delete_found _ _ _ Hidx) in Hone. lia. }
  exists w1. split; [exact Hrun1|]. split; [reflexivity|].
  unfold findWorkspaceForSession, gets. cbn [fst]. f_equal.
  apply find_unique.
  - exact HinB.
  - unfold ownsSession. rewrite Hrec1B, existsb_app. simpl. rewrite HRid. apply orb_true_r.
  - intros ws Hin Hown. unfold ownsSession in Hown.
    destruct (decide (dbPath ws = dbPath B)) as [e|n].
    + apply (NoDup_map_inj dbPath (workspaces w)); assumption.
    + exfalso. destruct (decide (dbPath ws = dbPath A)) as [e|n'].
      * rewrite e, Hrec1A, HnotA1 in Hown. discriminate.
      * subst w1. rewrite recordsOf_movedWorld_other in Hown by assumption.
        apply n'. f_equal. apply Huniq; assumption.
Qed.

Ltac shape_tail :=
  try (intros; congruence);
  try (intros (? & ? & ?); congruence);
  try (intros ?; exfalso; congruence).

(** Property X2 (errors of [migrateSession]).  [migrateSession] throws only
    while it resolves its arguments, before it has opened any store: the
    world is unchanged, and the error is [SessionNotFoundError] when no
    workspace owns the identifier, [SameWorkspaceError] when the owner's
    path equals the normalized destination, [WorkspaceNotFoundError] when
    no workspace has the normalized destination as its path, in this order
    of precedence.  Whatever goes wrong later is returned as a result. *)
Theorem migrateSession_throws_only_at_resolution (host : Host) (sid : string)
    (options : SessionOptions) (w : World) (e : Thrown) (w' : World) :
  migrateSession host sid options w = (Threw e, w') ->
  let normalizedDest := normalizePath host (destination options) in
  w' = w /\
  ((e = SessionNotFoundError sid /\
    fst (findWorkspaceForSession sid w) = Returned None) \/
   (e = SameWorkspaceError normalizedDest /\
    exists A, fst (findWorkspaceForSession sid w) = Returned (Some A) /\
              pathsEqual host (path A) normalizedDest = true) \/
   (e = WorkspaceNotFoundError normalizedDest /\
    exists A, fst (findWorkspaceForSession sid w) = Returned (Some A) /\
              pathsEqual host (path A) normalizedDest = false /\
              fst (findWorkspaceByPath host normalizedDest w) = Returned None)).
Proof.
  intros H. split; [exact (migrateSession_thrown _ _ _ _ _ _ H)|].
  rewrite migrateSession_unfold in H.
  destruct (resolve host sid (destination options) w) as [[A B]|e0] eqn:Hres.
  - simpl in H. destruct (dryRun options); [discriminate|].
    unfold tryCatch in H. destruct (performMigration _ _ _ _ _ _ _) as [[r|e1] w1]; discriminate.
  - injection H as <- _. exact (resolve_thrown _ _ _ _ _ Hres).
Qed.

(** X2 on the example: an identifier no store owns. *)
Lemma migrateSession_throws_only_at_resolution_witness :
  exists e w',
    migrateSession posixHost "nope" copyR1 exampleWorld = (Threw e, w') /\
    w' = exampleWorld /\
    ((e = SessionNotFoundError "nope" /\
      fst (findWorkspaceForSession "nope" exampleWorld) = Returned None) \/
     (e = SameWorkspaceError "/proj/b" /\
      exists A, fst (findWorkspaceForSession "nope" exampleWorld) = Returned (Some A) /\
                pathsEqual posixHost (path A) "/proj/b" = true) \/
     (e = WorkspaceNotFoundError "/proj/b" /\
      exists A, fst (findWorkspaceForSession "nope" exampleWorld) = Returned (Some A) /\
                pathsEqual posixHost (path A) "/proj/b" = false /\
                fst (findWorkspaceByPath posixHost "/proj/b" exampleWorld) = Returned None)).
Proof.
  assert (Hrun : migrateSession posixHost "nope" copyR1 exampleWorld
                 = (Threw (SessionNotFoundError "nope"), exampleWorld))
    by (vm_compute; reflexivity).
  exists (SessionNotFoundError "nope"), exampleWorld. split; [exact Hrun|].
  exact (migrateSession_throws_only_at_resolution posixHost "nope" copyR1 exampleWorld
           _ _ Hrun).
Defined.

(** Property X3 (shape of a result).  Whatever [migrateSession] returns
    echoes the request: the identifier, the normalized destination, the
    mode and the dry-run flag, with the path of the workspace that owns the
    record as source.  A result carries an error message exactly when it is
    not a success; a dry run always succeeds; and a new identifier is
    reported exactly by a successful copy that was not a dry run. *)
Theorem migrateSession_result_shape (host : Host) (sid : string)
    (options : SessionOptions) (w : World) (r : SessionMigrationResult) (w' : World) :
  migrateSession host sid options w = (Returned r, w') ->
  SessionResult.sessionId r = sid /\
  SessionResult.destinationWorkspace r = normalizePath host (destination options) /\
  SessionResult.mode r = mode options /\
  SessionResult.dryRun r = dryRun options /\
  (exists A, fst (findWorkspaceForSession sid w) = Returned (Some A) /\
             SessionResult.sourceWorkspace r = path A) /\
  (SessionResult.success r = true <-> SessionResult.error r = None) /\
  (dryRun options = true -> SessionResult.success r = true) /\
  (SessionResult.newSessionId r <> None <->
   SessionResult.success r = true /\ mode options = Copy /\ dryRun options = false).
Proof.
  intros H. rewrite migrateSession_unfold in H.
  destruct (resolve host sid (destination options) w) as [[A B]|e0] eqn:Hres; [|discriminate].
  apply resolvesTo_resolve in Hres. destruct Hres as (HA & _ & _).
  cbv zeta in H. destruct (dryRun options) eqn:Hdry.
  { injection H as <- _. simpl. repeat split; eauto; try discriminate; shape_tail. }
  unfold tryCatch in H.
  destruct (performMigration _ _ _ _ _ _ _) as [[r1|e1] w1] eqn:Hrun.
  - injection H as <- _.
    destruct (mode options) eqn:Hmode.
    + rewrite (performMigration_move_result _ _ _ _ _ _ _ _ Hrun). simpl.
      repeat split; eauto; try discriminate; shape_tail.
    + destruct (performMigration_copy_inv _ _ _ _ _ _ _ _ Hrun)
        as (dA & dB & cdA & idx & R & nid & w2 & m & w3 & _ & _ & _ & _ & _ & _ & _ & _ & -> & _).
      simpl. repeat split; eauto; try discriminate; shape_tail.
  - injection H as <- _. simpl.
    repeat split; eauto; try discriminate; shape_tail.
Qed.

(** X3 on the example: the result of copying [R1]. *)
Lemma migrateSession_result_shape_witness :
  let r := copyResult "R1" "/proj/a" "/proj/b" "01234567-89ab-4cde-b012-3456789abcde" in
  migrateSession posixHost "R1" copyR1 exampleWorld
  = (Returned r, snd (migrateSession posixHost "R1" copyR1 exampleWorld)) /\
  SessionResult.sessionId r = "R1"%string /\
  (SessionResult.success r = true <-> SessionResult.error r = None) /\
  (SessionResult.newSessionId r <> None <->
   SessionResult.success r = true /\ mode copyR1 = Copy /\ dryRun copyR1 = false).
Proof.
  intros r.
  assert (Hrun : migrateSession posixHost "R1" copyR1 exampleWorld
                 = (Returned r, snd (migrateSession posixHost "R1" copyR1 exampleWorld)))
    by (vm_compute; reflexivity).
  split; [exact Hrun|].
  destruct (migrateSession_result_shape posixHost "R1" copyR1 exampleWorld r _ Hrun)
    as (Hsid & _ & _ & _ & _ & Hsucc & _ & Hnew).
  split; [exact Hsid|]. split; [exact Hsucc|exact Hnew].
Defined.

(** Property X4 (a move stays in the workspace stores).  In move mode
    [migrateSession] leaves the global content table as it is and draws no
    random number, whatever it returns or throws; nor does it change which
    workspaces exist. *)
Theorem move_never_touches_the_global_store (host : Host) (sid dest : string)
    (dry f : bool) (w : World) :
  let w' := snd (migrateSession host sid (mkSessionOptions dest Move dry f) w) in
  globalStorage w' = globalStorage w /\
  randomCalls w' = randomCalls w /\
  workspaces w' = workspaces w.
Proof.
  rewrite migrateSession_unfold. cbn [destination dryRun mode].
  destruct (resolve host sid dest w) as [[A B]|e]; [|simpl; auto].
  destruct dry; [simpl; auto|].
  cbv zeta. unfold tryCatch.
  pose proof (performMigration_move_rest sid A B (path A) (normalizePath host dest) w) as H.
  destruct (performMigration _ _ _ _ _ _ _) as [[r|e] w1]; simpl in *; exact H.
Qed.

(** Property X5 (a move takes the first occurrence).  When the source array
    holds the identifier more than once, a successful move removes the
    first record that carries it and appends that record to the
    destination; every other record of the source, later records with the
    same identifier included, stays where it was, in order. *)
Theorem move_removes_the_first_occurrence (host : Host) (w : World)
    (sid dest : string) (f : bool) (A B : Workspace) :
  resolvesTo host w sid dest A B ->
  dbPath A <> dbPath B ->
  writable w (dbPath A) = true ->
  writable w (dbPath B) = true ->
  let w' := snd (migrateSession host sid (mkSessionOptions dest Move false f) w) in
  let source := recordsOf w (dbPath A) in
  exists i R,
    findIndex (hasComposerId sid) source = Some i /\
    source !! i = Some R /\
    recordsOf w' (dbPath A) = take i source ++ drop (S i) source /\
    recordsOf w' (dbPath B) = recordsOf w (dbPath B) ++ [R] /\
    S (length (List.filter (hasComposerId sid) (recordsOf w' (dbPath A))))
    = length (List.filter (hasComposerId sid) source).
Proof.
  intros Hres Hne HwA HwB.
  destruct (move_effect host w sid dest f A B Hres HwA HwB)
    as (dA & dB & cdA & idx & R & HdA & HdB & HcA & Hidx & HR & HRid & Hrun).
  rewrite Hrun. cbn [snd]. cbv zeta.
  assert (HrecA : recordsOf w (dbPath A) = composers cdA).
  { rewrite (recordsOf_composersOf _ _ _ HdA). unfold composersOf. rewrite HcA. reflexivity. }
  rewrite HrecA. exists idx, R.
  split; [exact Hidx|]. split; [exact HR|].
  rewrite (recordsOf_movedWorld_source _ _ _ _ _ _ _ Hne), recordsOf_movedWorld_dest.
  split; [apply delete_take_drop|].
  split; [rewrite HR, (recordsOf_composersOf _ _ _ HdB); reflexivity|].
  symmetry. apply filter_length_delete_found. exact Hidx.
Qed.

(** X5 on a store that holds [R1] twice. *)
Lemma move_removes_the_first_occurrence_witness :
  let w := worldWith dbTwice dbEmpty in
  let w' := snd (migrateSession posixHost "R1" moveR1 w) in
  exists i R,
    findIndex (hasComposerId "R1") (recordsOf w (dbPath wsA)) = Some i /\
    recordsOf w (dbPath wsA) !! i = Some R /\
    recordsOf w' (dbPath wsA)
    = take i (recordsOf w (dbPath wsA)) ++ drop (S i) (recordsOf w (dbPath wsA)) /\
    recordsOf w' (dbPath wsB) = recordsOf w (dbPath wsB) ++ [R] /\
    S (length (List.filter (hasComposerId "R1") (recordsOf w' (dbPath wsA))))
    = length (List.filter (hasComposerId "R1") (recordsOf w (dbPath wsA))).
Proof.
  apply (move_removes_the_first_occurrence posixHost (worldWith dbTwice dbEmpty)
           "R1" "/proj/b/" false wsA wsB).
  - repeat split; vm_compute; reflexivity.
  - vm_compute. discriminate.
  - vm_compute. reflexivity.
  - vm_compute. reflexivity.
Defined.

(** Property X6 (a failed move is not rolled back).  The two array writes
    of a move are separate statements.  When the source store accepts its
    write and the destination store then refuses its own, [migrateSession]
    returns a failed result with the error's message, and the record is
    gone from the source without having reached the destination. *)
Theorem failed_move_is_not_rolled_back (host : Host) (w : World)
    (sid dest : string) (f : bool) (A B : Workspace) (dB : Database) :
  resolvesTo host w sid dest A B ->
  dbPath A <> dbPath B ->
  writable w (dbPath A) = true ->
  databases w !! dbPath B = Some dB ->
  locked dB = false ->
  readOnly dB = true ->
  exists r w' i,
    migrateSession host sid (mkSessionOptions dest Move false f) w = (Returned r, w') /\
    SessionResult.success r = false /\
    SessionResult.error r <> None /\
    findIndex (hasComposerId sid) (recordsOf w (dbPath A)) = Some i /\
    recordsOf w' (dbPath A) = delete i (recordsOf w (dbPath A)) /\
    S (length (recordsOf w' (dbPath A))) = length (recordsOf w (dbPath A)) /\
    recordsOf w' (dbPath B) = recordsOf w (dbPath B).
Proof.
  intros Hres Hne HwA HdB HlB HrB.
  destruct (resolvesTo_source _ _ _ _ _ _ Hres)
    as (dA & cdA & idx & R & HdA & HcA & HrecA & Hidx & HR & HRid).
  destruct (writable_inv _ _ HwA) as (dA' & HdA' & HlA & HrA).
  rewrite HdA in HdA'. injection HdA' as <-.
  apply resolvesTo_resolve in Hres.
  rewrite migrateSession_unfold. cbn [destination dryRun mode]. rewrite Hres. cbv zeta.
  unfold tryCatch, performMigration, bind.
  rewrite (openDatabaseReadWrite_ok _ _ _ HdA HlA), (openDatabaseReadWrite_ok _ _ _ HdB HlB).
  unfold getComposerData, gets. rewrite HdA, HdB, HcA, Hidx.
  rewrite (updateComposerData_ok _ _ _ _ _ _ HdA HrA).
  unfold updateComposerData. cbn [databases setDatabases].
  rewrite lookup_insert_ne by exact Hne. rewrite HdB, HrB.
  eexists _, _, idx. split; [reflexivity|].
  split; [reflexivity|]. split; [discriminate|].
  rewrite HrecA. split; [exact Hidx|].
  rewrite !recordsOf_setDatabases_insert.
  destruct (decide (dbPath A = dbPath A)) as [_|n]; [|contradiction].
  destruct (decide (dbPath A = dbPath B)) as [e|_]; [contradiction|].
  cbn [composerData withRecords composers].
  split; [reflexivity|]. split; [apply (length_delete_lookup _ _ _ HR)|].
  apply recordsOf_sameStores. reflexivity.
Qed.

(** X6 on the example, with a destination store that refuses writes. *)
Lemma failed_move_is_not_rolled_back_witness :
  let w := worldWith dbA dbRefusing in
  exists r w' i,
    migrateSession posixHost "R1" moveR1 w = (Returned r, w') /\
    SessionResult.success r = false /\
    SessionResult.error r <> None /\
    findIndex (hasComposerId "R1") (recordsOf w (dbPath wsA)) = Some i /\
    recordsOf w' (dbPath wsA) = delete i (recordsOf w (dbPath wsA)) /\
    S (length (recordsOf w' (dbPath wsA))) = length (recordsOf w (dbPath wsA)) /\
    recordsOf w' (dbPath wsB) = recordsOf w (dbPath wsB).
Proof.
  apply (failed_move_is_not_rolled_back posixHost (worldWith dbA dbRefusing)
           "R1" "/proj/b/" false wsA wsB dbRefusing).
  - repeat split; vm_compute; reflexivity.
  - vm_compute. discriminate.
  - vm_compute. reflexivity.
  - vm_compute. reflexivity.
  - reflexivity.
  - reflexivity.
Defined.

(** Property X7 (a repeated move is rejected).  Once the only record named
    [sid] has moved to the destination, every further [migrateSession] of
    [sid] to the same destination, in any mode, throws
    [SameWorkspaceError] and changes nothing, provided normalization
    leaves the normalized destination as it is. *)
Theorem repeated_move_is_rejected (host : Host) (w : World) (sid dest : string)
    (f : bool) (A B : Workspace) :
  resolvesTo host w sid dest A B ->
  dbPath A <> dbPath B ->
  NoDup (map dbPath (workspaces w)) ->
  length (List.filter (hasComposerId sid) (recordsOf w (dbPath A))) = 1%nat ->
  (forall ws, In ws (workspaces w) -> ownsSession w sid ws = true -> ws = A) ->
  writable w (dbPath A) = true ->
  writable w (dbPath B) = true ->
  normalizePath host (normalizePath host dest) = normalizePath host dest ->
  exists r w1,
    migrateSession host sid (mkSessionOptions dest Move false f) w = (Returned r, w1) /\
    SessionResult.success r = true /\
    forall md dry f',
      migrateSession host sid (mkSessionOptions dest md dry f') w1
      = (Threw (SameWorkspaceError (normalizePath host dest)), w1).
Proof.
  intros Hres Hne Hnodup Hone Huniq HwA HwB Hstable.
  destruct (owner_after_move host w sid dest f A B Hres Hne Hnodup Hone Huniq HwA HwB)
    as (w1 & Hrun & Hws & Hown).
  eexists _, w1. split; [exact Hrun|]. split; [reflexivity|].
  intros md dry f'. rewrite migrateSession_unfold. cbn [destination].
  unfold findWorkspaceForSession, gets in Hown. cbn [fst] in Hown. injection Hown as Hown.
  unfold resolve. rewrite Hown.
  destruct Hres as (_ & _ & HfindB).
  unfold findWorkspaceByPath, gets in HfindB. cbn [fst] in HfindB. injection HfindB as HfindB.
  apply find_some in HfindB as (_ & HB). apply String.eqb_eq in HB.
  assert (Heq : pathsEqual host (path B) (normalizePath host dest) = true).
  { unfold pathsEqual. rewrite Hstable, HB.
    destruct (isWin32 host); apply String.eqb_refl. }
  rewrite Heq. reflexivity.
Qed.

(** X7 on the example: [R1] moved, then moved again. *)
Lemma repeated_move_is_rejected_witness :
  exists r w1,
    migrateSession posixHost "R1" moveR1 exampleWorld = (Returned r, w1) /\
    SessionResult.success r = true /\
    forall md dry f',
      migrateSession posixHost "R1" (mkSessionOptions "/proj/b/" md dry f') w1
      = (Threw (SameWorkspaceError (normalizePath posixHost "/proj/b/")), w1).
Proof.
  apply (repeated_move_is_rejected posixHost exampleWorld "R1" "/proj/b/" false wsA wsB).
  - repeat split; vm_compute; reflexivity.
  - vm_compute. discriminate.
  - apply (bool_decide_unpack _). vm_compute. exact I.
  - vm_compute. reflexivity.
  - intros ws [<-|[<-|[]]]; vm_compute; [reflexivity|discriminate].
  - vm_compute. reflexivity.
  - vm_compute. reflexivity.
  - vm_compute. reflexivity.
Defined.

(** ** The whole workspace, continued *)

Lemma validateWorkspace_returns host options w ids :
  validateWorkspace host options w = Returned ids -> ids <> [].
Proof.
  unfold validateWorkspace.
  destruct (pathsEqual _ _ _); [discriminate|].
  destruct (List.find _ _) as [A|]; [|discriminate].
  destruct (List.find _ _) as [B|]; [|discriminate].
  destruct (fst (openDatabaseReadWrite (dbPath A) w)) as [h|e]; [|discriminate].
  destruct (fst (getComposerData h w)) as [[cd|]|e]; try discriminate.
  destruct (length (composers cd) =? 0)%nat; [discriminate|].
  match goal with |- context [match ?g with Returned _ => _ | Threw e => Threw e end] =>
    destruct g as [[]|e] end; [|discriminate].
  rewrite length_eqb_0.
  destruct (omap stringComposerId (composers cd)) as [|i rest]; [discriminate|].
  intros H; injection H as <-. discriminate.
Qed.

Lemma hasComposerId_unidentified sid s :
  stringComposerId s = None -> hasComposerId sid s = false.
Proof.
  intros H. destruct (hasComposerId sid s) eqn:E; [|reflexivity].
  apply hasComposerId_stringComposerId in E. congruence.
Qed.

Lemma filter_identified_none l :
  Forall (fun s => stringComposerId s = None) l ->
  List.filter identified l = [] /\ List.filter (fun s => negb (identified s)) l = l.
Proof.
  induction 1 as [|a l Ha _ (IH1 & IH2)]; [auto|].
  assert (Hid : identified a = false) by (unfold identified; rewrite Ha; reflexivity).
  cbn [List.filter]. rewrite Hid, IH1, IH2. auto.
Qed.

Section WholeWorkspace.
Context (host : Host) (A B : Workspace) (nd : string) (f : bool).
Hypothesis stores_differ : dbPath A <> dbPath B.
Hypothesis paths_differ : pathsEqual host (path A) (normalizePath host nd) = false.

(** A batch over the identifiers of the source array, each of them owned
    by the source alone, moves every identified record, first to last. *)
Lemma migrateEach_moves_all ids :
  forall w,
    omap stringComposerId (recordsOf w (dbPath A)) = ids ->
    NoDup ids ->
    In A (workspaces w) ->
    (forall sid ws, In sid ids -> In ws (workspaces w) ->
                    ownsSession w sid ws = true -> ws = A) ->
    fst (findWorkspaceByPath host (normalizePath host nd) w) = Returned (Some B) ->
    writable w (dbPath A) = true ->
    writable w (dbPath B) = true ->
    exists w',
      migrateEach host ids (mkSessionOptions nd Move false f) [] w
      = (Returned (map (fun sid => moveResult sid (path A) (normalizePath host nd)) ids), w') /\
      recordsOf w' (dbPath A)
      = List.filter (fun s => negb (identified s)) (recordsOf w (dbPath A)) /\
      recordsOf w' (dbPath B)
      = recordsOf w (dbPath B) ++ List.filter identified (recordsOf w (dbPath A)) /\
      (forall other, other <> dbPath A -> other <> dbPath B ->
                     recordsOf w' other = recordsOf w other) /\
      globalStorage w' = globalStorage w.
Proof.
  induction ids as [|sid rest IH]; intros w Hids Hnd HinA Huniq HfindB HwA HwB.
  - exists w. split; [reflexivity|].
    assert (Hall : Forall (fun s => stringComposerId s = None) (recordsOf w (dbPath A))).
    { apply Forall_forall. intros s Hs.
      destruct (stringComposerId s) as [i|] eqn:E; [|reflexivity].
      exfalso.
      assert (Hin : i ∈ omap stringComposerId (recordsOf w (dbPath A))).
      { apply list_elem_of_omap. exists s. split; [exact Hs|exact E]. }
      rewrite Hids in Hin. inversion Hin. }
    destruct (filter_identified_none _ Hall) as (H1 & H2).
    rewrite H1, H2, app_nil_r. auto.
  - destruct (omap_cons_inv _ _ _ _ Hids) as (pre & R & post & Hcs & Hpre & HR & Hpost).
    apply NoDup_cons in Hnd as (Hnotin & Hnd).
    assert (HRid : hasComposerId sid R = true) by (apply hasComposerId_stringComposerId; exact HR).
    assert (Hres : resolvesTo host w sid nd A B).
    { split; [|split; [exact paths_differ|exact HfindB]].
      unfold findWorkspaceForSession, gets. cbn [fst]. f_equal.
      apply find_unique; [exact HinA| |].
      - unfold ownsSession. rewrite Hcs, existsb_app. simpl. rewrite HRid.
        apply orb_true_r.
      - intros ws Hin Hown. apply (Huniq sid ws); [left; reflexivity|exact Hin|exact Hown]. }
    destruct (move_effect host w sid nd f A B Hres HwA HwB)
      as (dA & dB & cdA & idx & R' & HdA & HdB & HcA & Hidx & HR' & _ & Hrun).
    assert (HrecA : recordsOf w (dbPath A) = composers cdA).
    { rewrite (recordsOf_composersOf _ _ _ HdA). unfold composersOf. rewrite HcA. reflexivity. }
    rewrite <- HrecA, Hcs in Hidx, HR'.
    rewrite (findIndex_skip (hasComposerId sid) pre R post) in Hidx.
    2:{ eapply Forall_impl; [exact Hpre|]. intros s Hs. apply hasComposerId_unidentified, Hs. }
    2:{ exact HRid. }
    injection Hidx as <-.
    rewrite lookup_app_r, Nat.sub_diag in HR' by lia. injection HR' as <-.
    set (w1 := movedWorld w (dbPath A) (dbPath B) dA dB cdA (length pre)) in *.
    assert (Hrec1A : recordsOf w1 (dbPath A) = pre ++ post).
    { subst w1. rewrite (recordsOf_movedWorld_source _ _ _ _ _ _ _ stores_differ).
      rewrite <- HrecA, Hcs. apply delete_middle. }
    assert (Hrec1B : recordsOf w1 (dbPath B) = recordsOf w (dbPath B) ++ [R]).
    { subst w1. rewrite recordsOf_movedWorld_dest, (recordsOf_composersOf _ _ _ HdB).
      rewrite <- HrecA, Hcs, lookup_app_r, Nat.sub_diag by lia. reflexivity. }
    assert (Hids1 : omap stringComposerId (recordsOf w1 (dbPath A)) = rest).
    { rewrite Hrec1A, omap_app, (omap_none _ _ Hpre), Hpost. reflexivity. }
    assert (Huniq1 : forall sid' ws, In sid' rest -> In ws (workspaces w1) ->
                       ownsSession w1 sid' ws = true -> ws = A).
    { intros sid' ws Hin' Hws Hown.
      apply (Huniq sid' ws); [right; exact Hin'|exact Hws|].
      unfold ownsSession in *.
      destruct (decide (dbPath ws = dbPath B)) as [e|n].
      - rewrite e, Hrec1B, existsb_app in Hown. rewrite e.
        apply orb_true_iff in Hown as [Hold|Hnew]; [exact Hold|].
        exfalso. simpl in Hnew. rewrite orb_false_r in Hnew.
        apply hasComposerId_stringComposerId in Hnew. rewrite HR in Hnew.
        injection Hnew as ->. apply Hnotin. apply list_elem_of_In. exact Hin'.
      - destruct (decide (dbPath ws = dbPath A)) as [e|n'].
        + rewrite e, Hrec1A in Hown. rewrite e, Hcs.
          rewrite existsb_app in Hown |- *. simpl.
          apply orb_true_iff in Hown as [H|H]; rewrite H; rewrite ?orb_true_r; reflexivity.
        + subst w1. rewrite recordsOf_movedWorld_other in Hown by assumption. exact Hown. }
    destruct (IH w1 Hids1 Hnd HinA Huniq1 HfindB) as (w' & Hrest & HA' & HB' & Hother & Hglob).
    { subst w1. rewrite writable_movedWorld; assumption. }
    { subst w1. rewrite writable_movedWorld; assumption. }
    exists w'. split.
    { rewrite migrateEach_cons. unfold attempt, tryCatch. rewrite Hrun.
      destruct (migrateEach_acc host rest (mkSessionOptions nd Move false f)
                  ([] ++ [moveResult sid (path A) (normalizePath host nd)]) w1)
        as (rs & wx & H0 & Hacc).
      rewrite Hrest in H0. injection H0 as <- <-. rewrite Hacc. reflexivity. }
    destruct (filter_identified_none _ Hpre) as (Hp1 & Hp2).
    assert (HidR : identified R = true) by (unfold identified; rewrite HR; reflexivity).
    split.
    { rewrite HA', Hrec1A, Hcs, !List.filter_app. cbn [List.filter].
      rewrite HidR. reflexivity. }
    split.
    { rewrite HB', Hrec1B, Hrec1A, Hcs, !List.filter_app, Hp1. cbn [List.filter].
      rewrite HidR, <- app_assoc. reflexivity. }
    split.
    { intros other HoA HoB. rewrite (Hother other HoA HoB). subst w1.
      apply recordsOf_movedWorld_other; assumption. }
    rewrite Hglob. reflexivity.
Qed.

End WholeWorkspace.

(** Property X8 (the counts of a workspace result add up).  Whenever
    [migrateWorkspace] returns, its result lists at least one session,
    [totalSessions] is the number of results, [successCount] and
    [failureCount] add up to it, and [success] holds exactly when no result
    failed. *)
Theorem migrateWorkspace_counts_add_up (host : Host) (options : MigrateWorkspaceOptions)
    (w : World) (r : WorkspaceMigrationResult) (w' : World) :
  migrateWorkspace host options w = (Returned r, w') ->
  WorkspaceResult.totalSessions r = length (WorkspaceResult.results r) /\
  (WorkspaceResult.successCount r + WorkspaceResult.failureCount r)%nat
  = WorkspaceResult.totalSessions r /\
  (0 < WorkspaceResult.totalSessions r)%nat /\
  (WorkspaceResult.success r = true <-> WorkspaceResult.failureCount r = 0%nat) /\
  (WorkspaceResult.success r = true <->
   Forall (fun s => SessionResult.success s = true) (WorkspaceResult.results r)) /\
  WorkspaceResult.successCount r
  = length (List.filter SessionResult.success (WorkspaceResult.results r)).
Proof.
  rewrite migrateWorkspace_unfold.
  destruct (validateWorkspace host options w) as [ids|e] eqn:Hv; [|discriminate].
  destruct (migrateEach _ _ _ _ _) as [[rs|e] w1] eqn:Hrun; [|discriminate].
  intros H; injection H as <- _. cbn.
  split; [reflexivity|]. split; [apply filter_partition_length|].
  split.
  { pose proof (migrateEach_ids _ _ _ _ _ _ Hrun) as Hids.
    pose proof (validateWorkspace_returns _ _ _ _ Hv) as Hne.
    destruct rs; [simpl in Hids; congruence|simpl; lia]. }
  split; [apply Nat.eqb_eq|]. split; [|reflexivity].
  rewrite Nat.eqb_eq. apply filter_negb_nil.
Qed.

(** X8 on the example: the three records of [wsA] moved to [wsB]. *)
Lemma migrateWorkspace_counts_add_up_witness :
  let r := match fst (migrateWorkspace posixHost (wholeWorkspace false) exampleWorld) with
           | Returned r => r
           | Threw _ => WorkspaceResult.mk false "" "" Move 0 0 0 [] false
           end in
  WorkspaceResult.totalSessions r = 3%nat /\
  (WorkspaceResult.successCount r + WorkspaceResult.failureCount r)%nat = 3%nat /\
  WorkspaceResult.success r = true.
Proof.
  intros r.
  destruct (migrateWorkspace_counts_add_up posixHost (wholeWorkspace false) exampleWorld r
              (snd (migrateWorkspace posixHost (wholeWorkspace false) exampleWorld)))
    as (Htotal & Hsum & _ & _ & Hall & _).
  - vm_compute. reflexivity.
  - split; [vm_compute; reflexivity|]. split; [rewrite Hsum; vm_compute; reflexivity|].
    apply Hall. vm_compute. repeat constructor.
Defined.

(** Property X9 (errors of [migrateWorkspace]).  [migrateWorkspace] throws
    only from its validation, with the world unchanged: [SameWorkspaceError],
    [WorkspaceNotFoundError] for the source or the destination,
    [NoSessionsFoundError], [DestinationHasSessionsError] (only without
    [force], and with a positive count), or the error of opening one of the
    two stores.  The failure of a single record never makes it throw. *)
Theorem migrateWorkspace_throws_only_validation_errors (host : Host)
    (options : MigrateWorkspaceOptions) (w : World) (e : Thrown) (w' : World) :
  migrateWorkspace host options w = (Threw e, w') ->
  let normalizedSource := normalizePath host (WorkspaceOptions.source options) in
  let normalizedDest := normalizePath host (WorkspaceOptions.destination options) in
  w' = w /\
  (e = SameWorkspaceError normalizedSource \/
   e = WorkspaceNotFoundError normalizedSource \/
   e = WorkspaceNotFoundError normalizedDest \/
   e = NoSessionsFoundError normalizedSource \/
   (exists n, (0 < n)%nat /\ WorkspaceOptions.force options = false /\
              e = DestinationHasSessionsError normalizedDest n) \/
   (exists ws, In ws (workspaces w) /\
               fst (openDatabaseReadWrite (dbPath ws) w) = Threw e)).
Proof.
  intros H. destruct (migrateWorkspace_thrown _ _ _ _ _ H) as (Hw & Hv).
  split; [exact Hw|]. clear H Hw. revert Hv.
  unfold validateWorkspace.
  destruct (pathsEqual _ _ _); [intros H; injection H as <-; auto|].
  destruct (List.find _ _) as [A|] eqn:HA; [|intros H; injection H as <-; auto].
  destruct (List.find (fun ws => String.eqb (normalizePath host (path ws))
                        (normalizePath host (WorkspaceOptions.destination options))) _)
    as [B|] eqn:HB; [|intros H; injection H as <-; auto].
  apply find_some in HA as (HinA & _). apply find_some in HB as (HinB & _).
  destruct (fst (openDatabaseReadWrite (dbPath A) w)) as [h|e0] eqn:HoA.
  2:{ intros H; injection H as <-. do 5 right. eauto. }
  destruct (fst (getComposerData h w)) as [[cd|]|e0] eqn:Hg.
  3:{ unfold getComposerData, gets in Hg. discriminate. }
  2:{ intros H; injection H as <-. auto. }
  destruct (length (composers cd) =? 0)%nat; [intros H; injection H as <-; auto|].
  destruct (WorkspaceOptions.force options) eqn:Hf.
  { rewrite length_eqb_0. destruct (omap _ _); [|discriminate].
    intros H; injection H as <-. auto. }
  destruct (fst (openDatabaseReadWrite (dbPath B) w)) as [hB|e0] eqn:HoB.
  2:{ intros H; injection H as <-. do 5 right. eauto. }
  destruct (fst (getComposerData hB w)) as [[cdB|]|e0] eqn:HgB.
  3:{ unfold getComposerData, gets in HgB. discriminate. }
  - destruct (0 <? length (composers cdB))%nat eqn:Hlen.
    + intros H; injection H as <-. do 4 right. left.
      exists (length (composers cdB)). apply Nat.ltb_lt in Hlen. auto.
    + rewrite length_eqb_0. destruct (omap _ _); [|discriminate].
      intros H; injection H as <-. auto.
  - rewrite length_eqb_0. destruct (omap _ _); [|discriminate].
    intros H; injection H as <-. auto.
Qed.

(** X9 on the example: the destination already owns a record. *)
Lemma migrateWorkspace_throws_only_validation_errors_witness :
  exists e w',
    migrateWorkspace posixHost (wholeWorkspace false) guardedWorld = (Threw e, w') /\
    w' = guardedWorld /\
    (e = SameWorkspaceError "/proj/a" \/
     e = WorkspaceNotFoundError "/proj/a" \/
     e = WorkspaceNotFoundError "/proj/b" \/
     e = NoSessionsFoundError "/proj/a" \/
     (exists n, (0 < n)%nat /\ WorkspaceOptions.force (wholeWorkspace false) = false /\
                e = DestinationHasSessionsError "/proj/b" n) \/
     (exists ws, In ws (workspaces guardedWorld) /\
                 fst (openDatabaseReadWrite (dbPath ws) guardedWorld) = Threw e)).
Proof.
  assert (Hrun : migrateWorkspace posixHost (wholeWorkspace false) guardedWorld
                 = (Threw (DestinationHasSessionsError "/proj/b" 1), guardedWorld))
    by (vm_compute; reflexivity).
  exists (DestinationHasSessionsError "/proj/b" 1), guardedWorld. split; [exact Hrun|].
  exact (migrateWorkspace_throws_only_validation_errors posixHost (wholeWorkspace false)
           guardedWorld _ _ Hrun).
Defined.

(** Property X10 (moving a whole workspace).  Let validation reach and pass
    the destination guard, in move mode and not as a dry run, with source
    and destination paths that normalization leaves as they are, two
    different store files that accept writes, and source identifiers that
    are pairwise different and owned by no other workspace.  Then
    [migrateWorkspace] succeeds for every identifier: the destination array
    ends as its old contents followed by the identified records of the
    source in their order, the source keeps exactly its records without a
    string identifier, and no other store and nothing of the global table
    changes. *)
Theorem workspace_move_transfers_every_record (host : Host)
    (options : MigrateWorkspaceOptions) (w : World) (A B : Workspace) :
  let normalizedSource := normalizePath host (WorkspaceOptions.source options) in
  let normalizedDest := normalizePath host (WorkspaceOptions.destination options) in
  let ids := omap stringComposerId (recordsOf w (dbPath A)) in
  reachesGuard host options w A B ->
  WorkspaceOptions.mode options = Move ->
  WorkspaceOptions.dryRun options = false ->
  (WorkspaceOptions.force options = true \/
   (opens w (dbPath B) /\ recordsOf w (dbPath B) = [])) ->
  normalizePath host normalizedSource = normalizedSource ->
  normalizePath host normalizedDest = normalizedDest ->
  dbPath A <> dbPath B ->
  writable w (dbPath A) = true ->
  writable w (dbPath B) = true ->
  ids <> [] ->
  NoDup ids ->
  (forall sid ws, In sid ids -> In ws (workspaces w) ->
                  ownsSession w sid ws = true -> ws = A) ->
  exists r w',
    migrateWorkspace host options w = (Returned r, w') /\
    WorkspaceResult.success r = true /\
    WorkspaceResult.successCount r = length ids /\
    WorkspaceResult.failureCount r = 0%nat /\
    map SessionResult.sessionId (WorkspaceResult.results r) = ids /\
    recordsOf w' (dbPath A)
    = List.filter (fun s => negb (identified s)) (recordsOf w (dbPath A)) /\
    recordsOf w' (dbPath B)
    = recordsOf w (dbPath B) ++ List.filter identified (recordsOf w (dbPath A)) /\
    (forall other, other <> dbPath A -> other <> dbPath B ->
                   recordsOf w' other = recordsOf w other) /\
    globalStorage w' = globalStorage w.
Proof.
  intros ns nd ids Hreach Hmode Hdry Hguard Hsrc Hdst Hne HwA HwB Hids Hnd Huniq.
  pose proof Hreach as (Hpaths & HfindA & HfindB & HoA & HrA).
  rewrite migrateWorkspace_unfold, (validateWorkspace_at_guard _ _ _ _ _ Hreach).
  cbv zeta.
  assert (Hg : (if WorkspaceOptions.force options then Returned tt
                else match fst (openDatabaseReadWrite (dbPath B) w) with
                     | Threw e => Threw e
                     | Returned _ =>
                         match recordsOf w (dbPath B) with
                         | [] => Returned tt
                         | _ => Threw (DestinationHasSessionsError nd
                                         (length (recordsOf w (dbPath B))))
                         end
                     end) = Returned tt).
  { destruct (WorkspaceOptions.force options); [reflexivity|].
    destruct Hguard as [Hf|(Ho & Hempty)]; [discriminate|].
    unfold opens in Ho. rewrite Ho, Hempty. reflexivity. }
  fold nd. rewrite Hg. fold ids.
  destruct ids as [|i0 rest] eqn:Eids; [contradiction|]. rewrite <- Eids in *.
  unfold findWorkspaceByPath, gets in HfindA. cbn [fst] in HfindA. injection HfindA as HfindA.
  pose proof (find_some _ _ HfindA) as (HinA & HpA). apply String.eqb_eq in HpA. fold ns in HpA.
  assert (Hpd : pathsEqual host (path A) (normalizePath host nd) = false).
  { rewrite <- Hpaths. unfold pathsEqual. fold ns nd. rewrite HpA, Hsrc, !Hdst. reflexivity. }
  assert (HfB : fst (findWorkspaceByPath host (normalizePath host nd) w) = Returned (Some B))
    by (rewrite Hdst; exact HfindB).
  destruct (migrateEach_moves_all host A B nd (WorkspaceOptions.force options) Hne Hpd ids w
              eq_refl Hnd HinA Huniq HfB HwA HwB)
    as (w' & Hrun & HA' & HB' & Hother & Hglob).
  unfold batchOptions. fold nd. rewrite Hmode, Hdry, Hrun.
  eexists _, w'. split; [reflexivity|]. cbn.
  assert (Hall : forall l : list string,
             List.filter SessionResult.success
               (map (fun sid => moveResult sid (path A) (normalizePath host nd)) l)
             = map (fun sid => moveResult sid (path A) (normalizePath host nd)) l /\
             List.filter (fun r => negb (SessionResult.success r))
               (map (fun sid => moveResult sid (path A) (normalizePath host nd)) l) = []).
  { induction l as [|x l (IH1 & IH2)]; simpl; [auto|]. rewrite IH1, IH2. auto. }
  destruct (Hall ids) as (H1 & H2). rewrite H1, H2, length_map, map_map. cbn.
  repeat split; try assumption; try reflexivity. apply map_id.
Qed.

(** X10 on the example: everything of [wsA] ends in [wsB]. *)
Lemma workspace_move_transfers_every_record_witness :
  exists r w',
    migrateWorkspace posixHost (wholeWorkspace false) exampleWorld = (Returned r, w') /\
    WorkspaceResult.success r = true /\
    WorkspaceResult.successCount r = 3%nat /\
    recordsOf w' (dbPath wsA) = [] /\
    recordsOf w' (dbPath wsB) = recordsOf exampleWorld (dbPath wsA).
Proof.
  destruct (workspace_move_transfers_every_record posixHost (wholeWorkspace false)
              exampleWorld wsA wsB)
    as (r & w' & Hrun & Hs & Hn & _ & _ & HA & HB & _).
  - repeat split; try (vm_compute; reflexivity). vm_compute. discriminate.
  - reflexivity.
  - reflexivity.
  - right. split; vm_compute; reflexivity.
  - vm_compute. reflexivity.
  - vm_compute. reflexivity.
  - vm_compute. discriminate.
  - vm_compute. reflexivity.
  - vm_compute. reflexivity.
  - vm_compute. discriminate.
  - apply (bool_decide_unpack _). vm_compute. exact I.
  - intros sid ws _ [<-|[<-|[]]] Hown; [reflexivity|].
    exfalso. revert Hown. unfold ownsSession.
    replace (recordsOf exampleWorld (dbPath wsB)) with ([] : list JObject)
      by (vm_compute; reflexivity).
    discriminate.
  - exists r, w'. split; [exact Hrun|]. split; [exact Hs|]. split; [exact Hn|].
    split; [rewrite HA|rewrite HB]; vm_compute; reflexivity.
Defined.

(** Property X22 (a workspace copy writes to the destination only).  In
    copy mode [migrateWorkspace] changes no workspace store other than the
    one its batch writes to, whatever it returns or throws: the source
    store and every other store are exactly as they were, and so is the
    list of workspaces. *)
Theorem workspace_copy_writes_only_the_destination (host : Host)
    (options : MigrateWorkspaceOptions) (w : World) (B : Workspace) :
  let normalizedDest := normalizePath host (WorkspaceOptions.destination options) in
  let w' := snd (migrateWorkspace host options w) in
  WorkspaceOptions.mode options = Copy ->
  fst (findWorkspaceByPath host (normalizePath host normalizedDest) w) = Returned (Some B) ->
  workspaces w' = workspaces w /\
  forall file, file <> dbPath B -> databases w' !! file = databases w !! file.
Proof.
  intros nd w' Hmode HB. subst w'. rewrite migrateWorkspace_unfold.
  destruct (validateWorkspace host options w) as [ids|e]; [|cbn [snd]; auto].
  destruct (migrateEach host ids (batchOptions host options) [] w) as [[rs|e] w1] eqn:Hrun.
  - cbn [snd].
    destruct (migrateEach_effect _ _ _ _ _ _ Hrun) as (Hws & _ & _ & Hdest).
    split; [exact Hws|].
    destruct (Hdest B) as (Hcopy & _).
    { unfold findWorkspaceByPath, gets in HB. cbn [fst] in HB. injection HB as HB. exact HB. }
    apply Hcopy. exact Hmode.
  - destruct (migrateEach_acc host ids (batchOptions host options) [] w) as (rs & w2 & H & _).
    rewrite H in Hrun. discriminate Hrun.
Qed.

(** X22 on the example: the store of [wsA] after its records were copied
    to [wsB]. *)
Lemma workspace_copy_writes_only_the_destination_witness :
  let options := WorkspaceOptions.mk "/proj/a" "/proj/b/" Copy false false in
  let w' := snd (migrateWorkspace posixHost options exampleWorld) in
  recordsOf w' (dbPath wsB) <> [] /\
  databases w' !! dbPath wsA = databases exampleWorld !! dbPath wsA.
Proof.
  intros options w'. split; [vm_compute; discriminate|].
  apply (workspace_copy_writes_only_the_destination posixHost options exampleWorld wsB).
  - reflexivity.
  - vm_compute. reflexivity.
  - vm_compute. discriminate.
Defined.

(** ** Content replication, continued *)

Lemma addsItemsOf_refl new T : addsItemsOf new T T.
Proof. split; auto. Qed.

Lemma addsItemsOf_trans new T1 T2 T3 :
  addsItemsOf new T1 T2 -> addsItemsOf new T2 T3 -> addsItemsOf new T1 T3.
Proof.
  intros (Ha & Hb) (Hc & Hd). split; [auto|].
  intros k Hk. rewrite (Hd k Hk). apply Hb, Hk.
Qed.

Lemma addsItemsOf_insert new n v T : addsItemsOf new T (<[bubbleKey new n := v]> T).
Proof.
  split.
  - intros k Hk. rewrite lookup_insert. destruct (decide _); [eauto|exact Hk].
  - intros k Hk. apply lookup_insert_ne. apply not_eq_sym, Hk.
Qed.

Lemma copyHeaders_global headers acc m w :
  globalStorage (snd (copyHeaders headers acc m w)) = globalStorage w.
Proof.
  revert acc m w. induction headers as [|h rest IH]; intros acc m w; simpl; [reflexivity|].
  unfold bind. unfold liftJs at 1.
  destruct (getProp "bubbleId" h) as [[b|]|e]; simpl; try apply IH; try reflexivity.
  destruct (truthy b); [|apply IH].
  destruct (generateSessionId w) as [[n|e] w1] eqn:Hg; simpl.
  - rewrite IH. apply (generateSessionId_global _ _ _ Hg).
  - apply (generateSessionId_global _ _ _ Hg).
Qed.

(** The loop over the rows writes content items of the copy and nothing
    else, whether it returns or throws. *)
Lemma copyRows_adds new rows :
  forall m w T,
    globalStorage w = Some T ->
    exists T', globalStorage (snd (copyRows new rows m w)) = Some T' /\
               addsItemsOf new T T'.
Proof.
  induction rows as [|[key value] rest IH]; intros m w T HT.
  - exists T. split; [exact HT|apply addsItemsOf_refl].
  - rewrite copyRows_cons.
    destruct (split colon key !! 2%nat) as [ob|]; [|apply IH; exact HT].
    destruct (String.eqb ob ""); [apply IH; exact HT|].
    cbv zeta. unfold bind.
    match goal with |- context [match ?x with Some _ => _ | None => _ end w] => destruct x end.
    + unfold ret at 1. cbn [fst snd]. unfold liftJs.
      destruct (setProp _ _ _) as [v'|e]; cbn [snd].
      2:{ exists T. split; [exact HT|apply addsItemsOf_refl]. }
      unfold kvInsertOrReplace, modify. rewrite HT. cbn [fmap option_fmap option_map].
      edestruct (IH m (setGlobalStorage (Some (<[("bubbleId:" ++ new ++ ":" ++ s)%string := v']> T)) w))
        as (T' & HT' & Hadd); [reflexivity|].
      exists T'. split; [exact HT'|].
      eapply addsItemsOf_trans; [|exact Hadd]. apply (addsItemsOf_insert new s).
    + unfold bind. destruct (generateSessionId w) as [[n|e] w1] eqn:Hg; cbn [snd].
      2:{ exists T. split; [|apply addsItemsOf_refl].
          rewrite (generateSessionId_global _ _ _ Hg). exact HT. }
      pose proof (generateSessionId_global _ _ _ Hg) as Hglob.
      unfold ret at 1. cbn [fst snd]. unfold liftJs.
      destruct (setProp _ _ _) as [v'|e]; cbn [snd].
      2:{ exists T. split; [congruence|apply addsItemsOf_refl]. }
      unfold kvInsertOrReplace, modify. rewrite Hglob, HT.
      cbn [fmap option_fmap option_map].
      edestruct (IH (<[ob := n]> m)
                   (setGlobalStorage (Some (<[("bubbleId:" ++ new ++ ":" ++ n)%string := v']> T)) w1))
        as (T' & HT' & Hadd); [reflexivity|].
      exists T'. split; [exact HT'|].
      eapply addsItemsOf_trans; [|exact Hadd]. apply (addsItemsOf_insert new n).
Qed.

(** The loop over the header entries keeps those that name a content
    item, each pointed at a newly generated id. *)
Lemma copyHeaders_kept hs :
  forall acc m w out m' w',
    copyHeaders hs acc m w = (Returned (out, m'), w') ->
    exists extra,
      out = acc ++ extra /\
      Forall2 (fun h h' => exists n, h' = spreadWith h "bubbleId" (JStr n) /\
                                     fitsTemplate uuidTemplate n = true)
              (List.filter hasBubbleId hs) extra.
Proof.
  induction hs as [|h rest IH]; intros acc m w out m' w' H.
  - injection H as <- _ _. exists []. rewrite app_nil_r. split; [reflexivity|constructor].
  - simpl copyHeaders in H. unfold bind at 1 in H. unfold liftJs at 1 in H.
    destruct h as [| | | |items|fields]; simpl getProp in H; cbv beta iota in H;
      try discriminate H; try (apply IH in H; exact H).
    cbn [List.filter hasBubbleId].
    destruct (getField "bubbleId" fields) as [b|]; [|apply IH in H; exact H].
    destruct (truthy b); [|apply IH in H; exact H].
    unfold bind at 1 in H.
    destruct (generateSessionId w) as [[n|e] w1] eqn:Hg; [|discriminate H].
    apply IH in H as (extra & -> & Hall).
    exists (spreadWith (JObj fields) "bubbleId" (JStr n) :: extra).
    rewrite <- app_assoc. split; [reflexivity|].
    constructor; [|exact Hall].
    exists n. split; [reflexivity|]. apply (generateSessionId_fits _ _ _ Hg).
Qed.

(** Property X11 (replication only adds keys of the copy).  Whatever
    [copyBubbleDataInGlobalStorage old new] returns or throws, it removes
    no key of the global table and leaves every key other than the
    metadata key and the content-item keys of [new] with the value it had.
    Without a global store file it returns the empty map and does
    nothing. *)
Theorem replication_only_adds_keys_of_the_copy (old new : string) (w : World) :
  let w' := snd (copyBubbleDataInGlobalStorage old new w) in
  match globalStorage w with
  | None => copyBubbleDataInGlobalStorage old new w = (Returned ∅, w)
  | Some T =>
      exists T',
        globalStorage w' = Some T' /\
        (forall k, is_Some (T !! k) -> is_Some (T' !! k)) /\
        (forall k, k <> composerDataKey new -> (forall n, k <> bubbleKey new n) ->
                   T' !! k = T !! k)
  end.
Proof.
  cbv zeta. destruct (globalStorage w) as [T|] eqn:HT.
  2:{ unfold copyBubbleDataInGlobalStorage, bind, gets. rewrite HT. reflexivity. }
  unfold copyBubbleDataInGlobalStorage, bind. unfold gets at 1. rewrite HT.
  unfold kvGet, gets. rewrite HT.
  assert (Hsame : exists T', Some T = Some T' /\
            (forall k, is_Some (T !! k) -> is_Some (T' !! k)) /\
            (forall k, k <> composerDataKey new -> (forall n, k <> bubbleKey new n) ->
                       T' !! k = T !! k)).
  { exists T. split; [reflexivity|]. split; auto. }
  destruct (T !! _) as [value|].
  - unfold bind, liftJs.
    destruct (setProp "composerId" _ value) as [cd|e]; cbn [snd]; [|rewrite HT; exact Hsame].
    destruct (getProp _ cd) as [hp|e]; cbn [snd]; [|rewrite HT; exact Hsame].
    match goal with |- context [iterate ?x] => destruct (iterate x) as [hs|e] end;
      cbn [snd]; [|rewrite HT; exact Hsame].
    pose proof (copyHeaders_global hs [] ∅ w) as Hh.
    destruct (copyHeaders hs [] ∅ w) as [[copied|e] w1]; cbn [snd] in *;
      [|rewrite Hh, HT; exact Hsame].
    destruct (setProp _ _ cd) as [cd2|e]; cbn [snd]; [|rewrite Hh, HT; exact Hsame].
    unfold kvInsertOrReplace, modify, ret, kvSelectLike, gets.
    rewrite Hh, HT. cbn [fmap option_fmap option_map globalStorage setGlobalStorage].
    match goal with |- context [copyRows new ?rows ?m ?w0] =>
      destruct (copyRows_adds new rows m w0 _ eq_refl) as (T' & HT' & Hadd & Hnew) end.
    exists T'. split; [exact HT'|]. split.
    + intros k Hk. apply Hadd. rewrite lookup_insert. destruct (decide _); [eauto|exact Hk].
    + intros k Hk1 Hk2. rewrite (Hnew k Hk2). apply lookup_insert_ne.
      apply not_eq_sym, Hk1.
  - unfold ret, kvSelectLike, gets. rewrite HT.
    match goal with |- context [copyRows new ?rows ?m ?w0] =>
      destruct (copyRows_adds new rows m w0 T HT) as (T' & HT' & Hadd & Hnew) end.
    exists T'. split; [exact HT'|]. split; [exact Hadd|].
    intros k _ Hk. apply Hnew, Hk.
Qed.

(** Property X12 (header entries without an id are dropped).  When the
    metadata of [old] holds a header list and the replication returns, the
    metadata stored for [new] lists exactly the header entries whose
    [bubbleId] is truthy, in order, each with an identifier of the
    generated layout in its place; entries that name no content item are
    left out, so the new list can be shorter than the old one. *)
Theorem replication_keeps_only_headers_with_an_id (w : World) (T : gmap string json)
    (old new : string) (fields : JObject) (hs : list json)
    (m : gmap string string) (w' : World) :
  globalStorage w = Some T ->
  T !! composerDataKey old = Some (JObj fields) ->
  getField "fullConversationHeadersOnly" fields = Some (JArr hs) ->
  copyBubbleDataInGlobalStorage old new w = (Returned m, w') ->
  exists T' hs',
    globalStorage w' = Some T' /\
    T' !! composerDataKey new =
      Some (JObj (setField "fullConversationHeadersOnly" (JArr hs')
                    (setField "composerId" (JStr new) fields))) /\
    Forall2 (fun h h' => exists n, h' = spreadWith h "bubbleId" (JStr n) /\
                                   fitsTemplate uuidTemplate n = true)
            (List.filter hasBubbleId hs) hs' /\
    (length hs' <= length hs)%nat.
Proof.
  intros HT Hrow Hhs Hrun.
  unfold copyBubbleDataInGlobalStorage, bind in Hrun.
  unfold gets at 1 in Hrun. rewrite HT in Hrun.
  unfold kvGet, gets in Hrun. rewrite HT in Hrun.
  change ("composerData:" ++ old)%string with (composerDataKey old) in Hrun.
  rewrite Hrow in Hrun. unfold bind, liftJs in Hrun. simpl setProp in Hrun.
  cbv beta iota in Hrun. simpl getProp in Hrun.
  rewrite (getField_setField_ne "composerId" "fullConversationHeadersOnly") in Hrun
    by discriminate.
  rewrite Hhs in Hrun. simpl truthy in Hrun. cbv beta iota in Hrun. simpl iterate in Hrun.
  cbv beta iota in Hrun.
  pose proof (copyHeaders_global hs [] ∅ w) as Hglob.
  destruct (copyHeaders hs [] ∅ w) as [[[out m1]|e] w1] eqn:Hheaders; [|discriminate Hrun].
  cbn [snd] in Hglob.
  destruct (copyHeaders_kept _ _ _ _ _ _ _ Hheaders) as (hs' & Hout & Hkept).
  simpl in Hout. subst out.
  cbn [fst snd] in Hrun. simpl setProp in Hrun. cbv beta iota in Hrun.
  unfold kvInsertOrReplace, modify, kvSelectLike, gets in Hrun.
  rewrite Hglob, HT in Hrun.
  cbn [fmap option_fmap option_map globalStorage setGlobalStorage] in Hrun.
  change ("composerData:" ++ new)%string with (composerDataKey new) in Hrun.
  unfold ret at 1 in Hrun. cbn [globalStorage setGlobalStorage] in Hrun.
  match type of Hrun with copyRows new ?rows ?m0 ?w0 = _ =>
    destruct (copyRows_adds new rows m0 w0 _ eq_refl) as (T' & HT' & _ & Hnew) end.
  rewrite Hrun in HT'. cbn [snd] in HT'.
  exists T', hs'. split; [exact HT'|]. split; [|split; [exact Hkept|]].
  - rewrite Hnew by (intros n; apply composerDataKey_bubbleKey). apply lookup_insert_eq.
  - apply Forall2_length in Hkept. rewrite <- Hkept. apply List.filter_length_le.
Qed.

(** X12 on a header list of three entries, one of which names a content
    item. *)
Lemma replication_keeps_only_headers_with_an_id_witness :
  exists T' hs',
    globalStorage (snd (copyBubbleDataInGlobalStorage "R1" "N1" (withTable sparseTable)))
    = Some T' /\
    T' !! composerDataKey "N1" =
      Some (JObj [("composerId", JStr "N1"); ("fullConversationHeadersOnly", JArr hs')]) /\
    length hs' = 1%nat.
Proof.
  destruct (replication_keeps_only_headers_with_an_id (withTable sparseTable) sparseTable
              "R1" "N1"
              [("composerId", JStr "R1");
               ("fullConversationHeadersOnly",
                JArr [JObj [("bubbleId", JStr "b1"); ("type", JNum 1)];
                      JObj [("type", JNum 2)];
                      JNum 5])]
              [JObj [("bubbleId", JStr "b1"); ("type", JNum 1)];
               JObj [("type", JNum 2)];
               JNum 5]
              (idsOf (fst (copyBubbleDataInGlobalStorage "R1" "N1" (withTable sparseTable))))
              (snd (copyBubbleDataInGlobalStorage "R1" "N1" (withTable sparseTable))))
    as (T' & hs' & HT' & Hrow & Hkept & _).
  - reflexivity.
  - vm_compute. reflexivity.
  - reflexivity.
  - vm_compute. reflexivity.
  - exists T', hs'. split; [exact HT'|]. split; [exact Hrow|].
    apply Forall2_length in Hkept. rewrite <- Hkept. reflexivity.
Defined.

(** Property X13 (content without metadata).  Let the global table hold
    no metadata for [old]; let [old] hold no colon and the keys selected
    for it be its content-item keys, ids without a colon; let the
    identifiers the random source yields, one for each row of the table at
    most, be pairwise different; and let the replication return.  Then it
    writes no metadata for [new], and copies every content item of [old]
    with a non-empty id: each is stored again under the key made of [new]
    and a newly generated, non-empty id, with its own [bubbleId] set to
    that id, and the returned map takes the old id to the new one. *)
Theorem replication_without_metadata (w : World) (T : gmap string json)
    (old new : string) (m : gmap string string) (w' : World) :
  globalStorage w = Some T ->
  T !! composerDataKey old = None ->
  containsChar colon old = false ->
  (forall k v, T !! k = Some v -> like (bubbleKey old "%") k = true ->
               canonicalKey old k) ->
  distinctDraws w (size T) ->
  copyBubbleDataInGlobalStorage old new w = (Returned m, w') ->
  exists T',
    globalStorage w' = Some T' /\
    T' !! composerDataKey new = T !! composerDataKey new /\
    (forall b v, T !! bubbleKey old b = Some v -> b <> ""%string ->
       exists n v',
         m !! b = Some n /\ n <> ""%string /\
         setProp "bubbleId" (JStr n) v = Returned v' /\
         T' !! bubbleKey new n = Some v').
Proof.
  intros HT Hrow Hold Hcanon Hfresh Hrun.
  pose proof (replication_assigned_orphan w _ 0 w T old new m w' Hfresh (ahead_refl w)
                HT Hrow ltac:(lia) Hrun) as (Hinj & _).
  unfold copyBubbleDataInGlobalStorage, bind in Hrun.
  unfold gets at 1 in Hrun. rewrite HT in Hrun.
  unfold kvGet, gets in Hrun. rewrite HT in Hrun.
  change ("composerData:" ++ old)%string with (composerDataKey old) in Hrun.
  rewrite Hrow in Hrun. unfold ret at 1 in Hrun.
  unfold kvSelectLike, gets in Hrun. rewrite HT in Hrun.
  change ("bubbleId:" ++ old ++ ":%")%string with (bubbleKey old "%") in Hrun.
  set (rows := List.filter _ (map_to_list T)) in Hrun.
  assert (Hrows : forall k v, In (k, v) rows <-> (T !! k = Some v /\ like (bubbleKey old "%") k = true)).
  { intros k v. subst rows. rewrite filter_In. simpl.
    rewrite <- list_elem_of_In, elem_of_map_to_list. reflexivity. }
  assert (Hcanon1 : Forall (fun row => canonicalKey old (fst row)) rows).
  { apply Forall_forall. intros [k v] Hin. apply list_elem_of_In in Hin.
    apply Hrows in Hin as (Hlook & Hlike). simpl. eapply Hcanon; eassumption. }
  assert (Hnd1 : NoDup rows.*1).
  { subst rows. apply NoDup_fst_filter, NoDup_fst_map_to_list. }
  assert (Hne0 : nonEmptyValues (∅ : gmap string string)).
  { intros b n Hb. rewrite lookup_empty in Hb. discriminate. }
  destruct (copyRows_spec old new Hold rows Hcanon1 Hnd1 ∅ w T m w' Hne0 HT Hrun Hinj)
    as (_ & Hnem & T' & HT' & Hframe & Hcopy).
  exists T'. split; [exact HT'|]. split.
  - apply Hframe. intros b n _ _. apply composerDataKey_bubbleKey.
  - intros b v Hv Hb.
    destruct (Hcopy b v) as (n & v' & Hn & Hset & Hlook); [|exact Hb|].
    { apply Hrows. split; [exact Hv|apply like_bubbleKey]. }
    exists n, v'. split; [exact Hn|]. split; [exact (Hnem _ _ Hn)|]. auto.
Qed.

(** X13 on a table that holds one content item of [R1] and no metadata. *)
Lemma replication_without_metadata_witness :
  exists T',
    globalStorage (snd (copyBubbleDataInGlobalStorage "R1" "N1" (withTable orphanTable)))
    = Some T' /\
    T' !! composerDataKey "N1" = None /\
    exists n v',
      idsOf (fst (copyBubbleDataInGlobalStorage "R1" "N1" (withTable orphanTable)))
        !! "b1"%string = Some n /\
      T' !! bubbleKey "N1" n = Some v'.
Proof.
  destruct (replication_without_metadata (withTable orphanTable) orphanTable "R1" "N1"
              (idsOf (fst (copyBubbleDataInGlobalStorage "R1" "N1" (withTable orphanTable))))
              (snd (copyBubbleDataInGlobalStorage "R1" "N1" (withTable orphanTable))))
    as (T' & HT' & Hnone & Hitems).
  - reflexivity.
  - vm_compute. reflexivity.
  - reflexivity.
  - intros k v Hk Hlike.
    assert (Hkeys : (map_to_list orphanTable).*1 = ["bubbleId:R1:b1"]%string)
      by (vm_compute; reflexivity).
    assert (Hin : k ∈ (map_to_list orphanTable).*1).
    { apply list_elem_of_fmap. exists (k, v). split; [reflexivity|].
      apply elem_of_map_to_list. exact Hk. }
    rewrite Hkeys in Hin. clear Hk Hkeys.
    apply elem_of_cons in Hin as [->|Hin]; [exists "b1"%string; split; reflexivity|].
    inversion Hin.
  - apply (bool_decide_unpack _). vm_compute. exact I.
  - vm_compute. reflexivity.
  - exists T'. split; [exact HT'|]. split; [rewrite Hnone; vm_compute; reflexivity|].
    destruct (Hitems "b1"%string (JObj [("bubbleId", JStr "b1"); ("text", JStr "hi")]))
      as (n & v' & Hn & _ & _ & Hlook); [vm_compute; reflexivity|discriminate|].
    exists n, v'. split; assumption.
Defined.

(** ** Paths (src/lib/platform.ts) *)

Lemma dropLeading_suffix c l :
  exists dropped, l = dropped ++ dropLeading c l /\ Forall (fun a => a = c) dropped /\
                  (l <> [] -> dropLeading c l <> []).
Proof.
  induction l as [|a l IH].
  - exists []. repeat split; auto.
  - destruct l as [|b l'].
    + exists []. repeat split; auto.
    + cbn [dropLeading]. destruct (Ascii.eqb a c) eqn:E.
      * apply Ascii.eqb_eq in E. subst a.
        destruct IH as (dropped & Hl & Hall & Hne).
        exists (c :: dropped). split; [simpl; f_equal; exact Hl|].
        split; [constructor; auto|]. intros _. apply Hne. discriminate.
      * exists []. repeat split; auto.
Qed.

Lemma dropLeading_idem c l : dropLeading c (dropLeading c l) = dropLeading c l.
Proof.
  induction l as [|a l IH]; [reflexivity|].
  destruct l as [|b l']; [reflexivity|].
  cbn [dropLeading]. destruct (Ascii.eqb a c) eqn:E; [exact IH|].
  cbn [dropLeading]. rewrite E. reflexivity.
Qed.

Lemma dropLeading_other c a l : a <> c -> dropLeading c (a :: l) = a :: l.
Proof.
  intros H. destruct l as [|b l']; [reflexivity|].
  cbn [dropLeading]. apply Ascii.eqb_neq in H. rewrite H. reflexivity.
Qed.

Lemma dropLeading_cons c b l : dropLeading c (c :: b :: l) = dropLeading c (b :: l).
Proof. cbn [dropLeading]. rewrite Ascii.eqb_refl. reflexivity. Qed.

Lemma stripTrailing_chars c s :
  rev (list_ascii_of_string (stripTrailing c s)) = dropLeading c (rev (list_ascii_of_string s)).
Proof.
  unfold stripTrailing. rewrite list_ascii_of_string_of_list_ascii. apply rev_involutive.
Qed.

Lemma stripTrailing_idem c s : stripTrailing c (stripTrailing c s) = stripTrailing c s.
Proof.
  unfold stripTrailing at 1. rewrite stripTrailing_chars, dropLeading_idem. reflexivity.
Qed.

Lemma stripTrailing_snoc c s :
  s <> ""%string -> stripTrailing c (s ++ String c "")%string = stripTrailing c s.
Proof.
  intros Hne. unfold stripTrailing. rewrite chars_app. simpl list_ascii_of_string at 2.
  rewrite rev_unit.
  destruct (rev (list_ascii_of_string s)) as [|b l] eqn:E.
  - exfalso. apply Hne. apply (f_equal (@rev ascii)) in E. rewrite rev_involutive in E.
    simpl in E. rewrite <- (string_of_list_ascii_of_string s), E. reflexivity.
  - rewrite dropLeading_cons. reflexivity.
Qed.

(** What the loop removes is a run of [c] at the end, and it never removes
    the last character. *)
Lemma stripTrailing_prefix c s :
  exists removed,
    s = (stripTrailing c s ++ removed)%string /\
    Forall (fun a => a = c) (list_ascii_of_string removed) /\
    (s <> ""%string -> stripTrailing c s <> ""%string).
Proof.
  destruct (dropLeading_suffix c (rev (list_ascii_of_string s))) as (dropped & Hl & Hall & Hne).
  exists (string_of_list_ascii (rev dropped)). split; [|split].
  - unfold stripTrailing. rewrite <- string_of_chars_app, <- rev_app_distr, <- Hl.
    rewrite rev_involutive, string_of_list_ascii_of_string. reflexivity.
  - rewrite list_ascii_of_string_of_list_ascii. apply Forall_forall.
    intros a Ha. rewrite Forall_forall in Hall. apply Hall.
    apply list_elem_of_In. apply list_elem_of_In in Ha. apply in_rev. exact Ha.
  - intros Hs Hempty. apply Hne.
    + intros E. apply Hs. apply (f_equal (@rev ascii)) in E. rewrite rev_involutive in E.
      simpl in E. rewrite <- (string_of_list_ascii_of_string s), E. reflexivity.
    + unfold stripTrailing in Hempty.
      apply (f_equal list_ascii_of_string) in Hempty.
      rewrite list_ascii_of_string_of_list_ascii in Hempty. simpl in Hempty.
      apply (f_equal (@rev ascii)) in Hempty. rewrite rev_involutive in Hempty. exact Hempty.
Qed.

Lemma stripTrailing_absent c s :
  containsChar c s = false -> stripTrailing c s = s.
Proof.
  intros H. apply containsChar_chars in H. unfold stripTrailing.
  destruct (rev (list_ascii_of_string s)) as [|a l] eqn:E.
  - simpl. apply (f_equal (@rev ascii)) in E. rewrite rev_involutive in E. simpl in E.
    rewrite <- (string_of_list_ascii_of_string s), E. reflexivity.
  - rewrite dropLeading_other.
    + rewrite <- E, rev_involutive. apply string_of_list_ascii_of_string.
    + intros ->. apply H. apply in_rev. rewrite E. left. reflexivity.
Qed.

Lemma stripTrailing_startsWith c x s :
  startsWithChar x (stripTrailing c s) = startsWithChar x s.
Proof.
  destruct (stripTrailing_prefix c s) as (removed & Hs & _ & Hne).
  destruct (string_dec s "") as [->|Hnonempty]; [reflexivity|].
  rewrite Hs at 2. symmetry. apply startsWithChar_prefix. auto.
Qed.

Lemma separators_app a b : separators (a ++ b)%string = separators a && separators b.
Proof.
  induction a as [|x a IH]; [reflexivity|].
  change (separators (String x (a ++ b)%string) = separators (String x a) && separators b).
  simpl. rewrite IH, andb_assoc. reflexivity.
Qed.

Lemma separators_run c s :
  (c = "/"%char \/ c = "\"%char) ->
  Forall (fun a => a = c) (list_ascii_of_string s) -> separators s = true.
Proof.
  intros Hc. induction s as [|a s IH]; intros H; [reflexivity|].
  simpl in H. apply Forall_cons in H as (-> & H). simpl. rewrite (IH H), andb_true_r.
  destruct Hc as [->| ->]; reflexivity.
Qed.

Lemma append_slashes (p : string) (n : nat) :
  (p ++ slashes (S n))%string = ((p ++ String "/"%char "") ++ slashes n)%string.
Proof. rewrite append_assoc. reflexivity. Qed.

Lemma stripTrailing_slashes p n :
  p <> ""%string -> stripTrailing "/" (p ++ slashes n)%string = stripTrailing "/" p.
Proof.
  revert p. induction n as [|n IH]; intros p Hp.
  - simpl. rewrite append_nil_r. reflexivity.
  - rewrite append_slashes, IH; [apply stripTrailing_snoc; exact Hp|].
    destruct p; [contradiction|discriminate].
Qed.

Lemma contractPath_home host rest :
  contractPath host (homedir host ++ rest)%string = ("~" ++ rest)%string.
Proof. unfold contractPath. rewrite prefix_append, sliceFrom_append. reflexivity. Qed.

(** Property X14 (normalization removes trailing separators only).  For a
    path that does not start with [~], [normalizePath] returns a prefix of
    the path; what it cuts off consists of slashes and backslashes only; a
    non-empty path never becomes empty; and the result does not start with
    [~] either. *)
Theorem normalizePath_removes_only_trailing_separators (host : Host) (filePath : string) :
  startsWithChar "~"%char filePath = false ->
  exists removed,
    filePath = (normalizePath host filePath ++ removed)%string /\
    separators removed = true /\
    (filePath <> ""%string -> normalizePath host filePath <> ""%string) /\
    startsWithChar "~"%char (normalizePath host filePath) = false.
Proof.
  intros Htilde. unfold normalizePath. rewrite Htilde.
  destruct (stripTrailing_prefix "/" filePath) as (r1 & H1 & Hall1 & Hne1).
  destruct (stripTrailing_prefix "\" (stripTrailing "/" filePath)) as (r2 & H2 & Hall2 & Hne2).
  exists (r2 ++ r1)%string. split; [|split; [|split]].
  - rewrite <- append_assoc, <- H2. exact H1.
  - rewrite separators_app, (separators_run "\" r2), (separators_run "/" r1); auto.
  - auto.
  - rewrite !stripTrailing_startsWith. exact Htilde.
Qed.

(** X14 on a path that ends in a backslash and a slash. *)
Lemma normalizePath_removes_only_trailing_separators_witness :
  exists removed,
    "C:\proj\/"%string = (normalizePath posixHost "C:\proj\/" ++ removed)%string /\
    separators removed = true /\
    ("C:\proj\/"%string <> ""%string -> normalizePath posixHost "C:\proj\/" <> ""%string) /\
    startsWithChar "~"%char (normalizePath posixHost "C:\proj\/") = false.
Proof.
  apply (normalizePath_removes_only_trailing_separators posixHost "C:\proj\/"). reflexivity.
Defined.

(** Property X15 (trailing slashes do not matter).  A non-empty path that
    does not start with [~] normalizes to the same path with any number of
    slashes added at its end, and [pathsEqual] holds between the two, in
    both orders and on every platform. *)
Theorem trailing_slashes_do_not_matter (host : Host) (p : string) (n : nat) :
  p <> ""%string ->
  startsWithChar "~"%char p = false ->
  normalizePath host (p ++ slashes n)%string = normalizePath host p /\
  pathsEqual host (p ++ slashes n)%string p = true /\
  pathsEqual host p (p ++ slashes n)%string = true.
Proof.
  intros Hp Htilde.
  assert (Hnp : normalizePath host (p ++ slashes n)%string = normalizePath host p).
  { unfold normalizePath. rewrite startsWithChar_prefix by exact Hp. rewrite Htilde.
    rewrite stripTrailing_slashes by exact Hp. reflexivity. }
  split; [exact Hnp|]. unfold pathsEqual. rewrite Hnp.
  destruct (isWin32 host); rewrite String.eqb_refl; auto.
Qed.

(** X15 on a path of the example installation. *)
Lemma trailing_slashes_do_not_matter_witness :
  normalizePath posixHost "/proj/b//" = normalizePath posixHost "/proj/b" /\
  pathsEqual posixHost "/proj/b//" "/proj/b" = true /\
  pathsEqual posixHost "/proj/b" "/proj/b//" = true.
Proof.
  apply (trailing_slashes_do_not_matter posixHost "/proj/b" 2); [discriminate|reflexivity].
Defined.

(** Property X16 (when normalization is idempotent).  On a path that holds
    no backslash and does not start with [~], normalizing twice is
    normalizing once.  In general it is not: the slashes are removed before
    the backslashes, once, so a path that ends in a slash followed by a
    backslash loses the backslash first and the slash only on the second
    pass. *)
Theorem normalizePath_idempotent_without_backslash (host : Host) :
  (forall p,
      startsWithChar "~"%char p = false ->
      containsChar "\"%char p = false ->
      normalizePath host (normalizePath host p) = normalizePath host p) /\
  normalizePath host (normalizePath host "a/\") <> normalizePath host "a/\".
Proof.
  split; [|discriminate].
  intros p Htilde Hback.
  assert (Hnp : normalizePath host p = stripTrailing "/" p).
  { unfold normalizePath. rewrite Htilde. apply stripTrailing_absent.
    destruct (stripTrailing_prefix "/" p) as (r & Hr & _).
    rewrite Hr in Hback. exact (containsChar_prefix _ _ _ Hback). }
  rewrite Hnp. unfold normalizePath.
  rewrite stripTrailing_startsWith, Htilde, stripTrailing_idem.
  apply stripTrailing_absent.
  destruct (stripTrailing_prefix "/" p) as (r & Hr & _).
  rewrite Hr in Hback. exact (containsChar_prefix _ _ _ Hback).
Qed.

(** X16 on a path of the example installation. *)
Lemma normalizePath_idempotent_without_backslash_witness :
  normalizePath posixHost (normalizePath posixHost "/proj/b/")
  = normalizePath posixHost "/proj/b/".
Proof.
  apply (proj1 (normalizePath_idempotent_without_backslash posixHost)); reflexivity.
Defined.

(** Property X17 ([contractPath] looks at characters).  [contractPath]
    rewrites exactly the paths that start with the characters of the home
    directory: the home directory is replaced by [~] and whatever follows
    is kept as it is, also when the match ends inside a path component;
    every other path is returned unchanged. *)
Theorem contractPath_replaces_the_home_prefix (host : Host) :
  (forall rest,
      contractPath host (homedir host ++ rest)%string = ("~" ++ rest)%string) /\
  (forall p,
      (forall rest, p <> (homedir host ++ rest)%string) -> contractPath host p = p).
Proof.
  split; [apply contractPath_home|].
  intros p Hp. unfold contractPath.
  destruct (String.prefix (homedir host) p) eqn:E; [|reflexivity].
  apply prefix_split in E as (rest & ->). exfalso. exact (Hp rest eq_refl).
Qed.

(** X17 with home directory [/home/u]: the directory of another user, and a
    path outside. *)
Lemma contractPath_replaces_the_home_prefix_witness :
  contractPath posixHost "/home/u2/p" = "~2/p"%string /\
  contractPath posixHost "/srv/p" = "/srv/p"%string.
Proof.
  destruct (contractPath_replaces_the_home_prefix posixHost) as (Hhome & Hother).
  split; [apply (Hhome "2/p"%string)|].
  apply Hother. intros rest. discriminate.
Defined.

(** Property X18 (expanding and contracting).  Where joining the home
    directory with the rest of a path amounts to appending the rest,
    [contractPath] undoes [expandPath] on a path written with [~], and
    [expandPath] undoes [contractPath] on a path below the home
    directory. *)
Theorem expandPath_contractPath_round_trip (host : Host) (rest : string) :
  join host (homedir host) rest = (homedir host ++ rest)%string ->
  contractPath host (expandPath host ("~" ++ rest)%string) = ("~" ++ rest)%string /\
  expandPath host (contractPath host (homedir host ++ rest)%string)
  = (homedir host ++ rest)%string.
Proof.
  intros Hjoin. rewrite contractPath_home.
  change ("~" ++ rest)%string with (String "~"%char rest).
  unfold expandPath. cbn [startsWithChar slice1].
  change (Ascii.eqb "~" "~") with true. cbv iota.
  rewrite Hjoin. split; [apply contractPath_home|reflexivity].
Qed.

(** X18 on the example host. *)
Lemma expandPath_contractPath_round_trip_witness :
  contractPath posixHost (expandPath posixHost "~/proj/a") = "~/proj/a"%string /\
  expandPath posixHost (contractPath posixHost "/home/u/proj/a") = "/home/u/proj/a"%string.
Proof.
  apply (expandPath_contractPath_round_trip posixHost "/proj/a"). reflexivity.
Defined.

(** ** Error messages (src/lib/errors.ts) *)

Lemma pretty_N_char_no_space (x : N) : Ascii.eqb (pretty_N_char x) " "%char = false.
Proof. unfold pretty_N_char. repeat case_match; reflexivity. Qed.

Lemma pretty_N_go_no_space (x : N) (s : string) :
  containsChar " "%char s = false -> containsChar " "%char (pretty_N_go x s) = false.
Proof.
  revert s. induction (N.lt_wf_0 x) as [x _ IH]; intros s Hs.
  destruct (decide (x = 0%N)) as [->|Hx]; [rewrite pretty_N_go_0; exact Hs|].
  rewrite pretty_N_go_step by lia. apply IH.
  - apply N.div_lt; lia.
  - simpl. rewrite pretty_N_char_no_space, Hs. reflexivity.
Qed.

Lemma pretty_nat_no_space (n : nat) : containsChar " "%char (pretty n) = false.
Proof.
  unfold pretty, pretty_nat, pretty, pretty_N.
  destruct (decide _); [reflexivity|]. apply pretty_N_go_no_space. reflexivity.
Qed.

(** Property X19 (the message identifies the error).  Results carry an
    error only as its message.  For the errors of the six classes as the
    migration constructs them, the identifier a string, that is enough: two
    such errors with the same message are the same error, class and
    arguments.  The identifier enters the message as text, so for an
    identifier given as a number the message fixes its digits only. *)
Theorem errorMessage_identifies_the_error (e1 e2 : Thrown) :
  ofErrorClass e1 = true ->
  ofErrorClass e2 = true ->
  errorMessage e1 = errorMessage e2 ->
  e1 = e2.
Proof.
  intros H1 H2 H.
  destruct e1 as [i1|p1|p1|p1|p1 n1|p1|m1]; try discriminate H1;
  destruct e2 as [i2|p2|p2|p2|p2 n2|p2|m2]; try discriminate H2;
  cbn [errorMessage] in H;
  try (apply (f_equal (fun s => String.get 0 s)) in H; cbn in H; discriminate H);
  try (apply (f_equal (fun s => String.get 1 s)) in H; cbn in H; discriminate H);
  try (apply (f_equal (fun s => String.get 3 s)) in H; cbn in H; discriminate H).
  - apply append_cancel_l, append_cancel_r in H. congruence.
  - apply append_cancel_l, append_cancel_r in H. congruence.
  - apply append_cancel_l in H. congruence.
  - apply append_cancel_l in H.
    assert (Hlen : String.length p1 = String.length p2).
    { apply (f_equal (fun s => length (list_ascii_of_string s))) in H.
      cbv beta in H. rewrite !chars_app, !length_app in H.
      cbn [list_ascii_of_string length] in H. rewrite !length_chars in H. lia. }
    apply (append_same_length _ _ _ _ Hlen) in H as (-> & _). reflexivity.
  - apply append_cancel_l in H.
    change (" session(s): " ++ ?x)%string with (String " "%char ("session(s): " ++ x)%string) in H.
    apply append_sep_inj in H as (Hn & H); try apply pretty_nat_no_space.
    apply (inj pretty) in Hn. subst n2.
    apply append_cancel_l, append_cancel_r in H. congruence.
  - apply append_cancel_l, append_cancel_r in H. congruence.
Qed.

(** X19 on the error of the destination guard. *)
Lemma errorMessage_identifies_the_error_witness :
  DestinationHasSessionsError "/proj/b" 12 = DestinationHasSessionsError "/proj/b" 12.
Proof.
  apply errorMessage_identifies_the_error; reflexivity.
Defined.

(** ** Table cells (src/cli/formatters/table.ts) *)

Lemma length_takeChars n s : String.length (takeChars n s) = Nat.min n (String.length s).
Proof.
  revert s. induction n as [|n IH]; intros [|c s]; simpl; try reflexivity.
  f_equal. apply IH.
Qed.

Lemma length_spaces n : String.length (spaces n) = n.
Proof. induction n as [|n IH]; simpl; [reflexivity|]. f_equal. exact IH. Qed.

Lemma length_truncate str maxLength :
  (3 <= maxLength)%Z ->
  Z.of_nat (String.length (truncate str maxLength))
  = Z.min (Z.of_nat (String.length str)) maxLength.
Proof.
  intros H. unfold truncate.
  destruct (Z.of_nat (String.length str) <=? maxLength)%Z eqn:E.
  - apply Z.leb_le in E. lia.
  - apply Z.leb_gt in E. rewrite length_append. unfold sliceTo.
    destruct (maxLength - 3 <? 0)%Z eqn:E2; [apply Z.ltb_lt in E2; lia|].
    rewrite length_takeChars. cbn [String.length]. lia.
Qed.

Lemma length_padRight str width :
  Z.of_nat (String.length (padRight str width))
  = Z.max (Z.of_nat (String.length str)) width.
Proof. unfold padRight. rewrite length_append, length_spaces. lia. Qed.

Lemma takeChars_prefix n s : exists rest, s = (takeChars n s ++ rest)%string.
Proof.
  revert s. induction n as [|n IH]; intros s.
  - exists s. destruct s; reflexivity.
  - destruct s as [|c s]; [exists ""%string; reflexivity|].
    destruct (IH s) as (rest & Hrest). exists rest.
    change (String c s = String c (takeChars n s ++ rest)%string). f_equal. exact Hrest.
Qed.

(** With less than three characters of room the ellipsis alone does not
    fit, and the slice counts from the end. *)
Example truncate_small_width : truncate "abcdef" 2 = "abcde..."%string.
Proof. reflexivity. Qed.

(** Property X20 (a truncated string fits).  For a width of at least three,
    [truncate] returns a string no longer than the width: the string itself
    when it fits, and otherwise a prefix of it followed by three dots, of
    exactly the width. *)
Theorem truncate_fits_the_column (str : string) (maxLength : Z) :
  (3 <= maxLength)%Z ->
  (Z.of_nat (String.length (truncate str maxLength)) <= maxLength)%Z /\
  (Z.of_nat (String.length str) <= maxLength -> truncate str maxLength = str)%Z /\
  (maxLength < Z.of_nat (String.length str) ->
   Z.of_nat (String.length (truncate str maxLength)) = maxLength /\
   exists kept dropped,
     str = (kept ++ dropped)%string /\
     truncate str maxLength = (kept ++ "...")%string)%Z.
Proof.
  intros H. split; [rewrite length_truncate by exact H; lia|]. split.
  - intros Hle. unfold truncate. apply Z.leb_le in Hle. rewrite Hle. reflexivity.
  - intros Hgt. split; [rewrite length_truncate by exact H; lia|].
    unfold truncate. apply Z.leb_gt in Hgt. rewrite Hgt. unfold sliceTo.
    destruct (takeChars_prefix
                (Z.to_nat (if (maxLength - 3 <? 0)%Z
                           then Z.max (Z.of_nat (String.length str) + (maxLength - 3)) 0
                           else Z.min (maxLength - 3) (Z.of_nat (String.length str)))) str)
      as (rest & Hrest).
    eexists _, rest. split; [exact Hrest|reflexivity].
Qed.

(** X20 on a path cut to ten characters. *)
Lemma truncate_fits_the_column_witness :
  (Z.of_nat (String.length (truncate "/home/u/projects/site" 10)) <= 10)%Z /\
  truncate "/home/u/projects/site" 10 = "/home/u..."%string.
Proof.
  destruct (truncate_fits_the_column "/home/u/projects/site" 10) as (Hfit & _ & Hlong);
    [lia|].
  split; [exact Hfit|reflexivity].
Defined.

(** Property X21 (a cell has the width of its column).  A string truncated
    to a width of at least three and then padded to the same width, the way
    the session table fills its workspace column, is exactly that many
    characters long, whatever the string. *)
Theorem truncated_cell_has_the_column_width (str : string) (width : Z) :
  (3 <= width)%Z ->
  Z.of_nat (String.length (padRight (truncate str width) width)) = width.
Proof.
  intros H. rewrite length_padRight, length_truncate by exact H. lia.
Qed.

(** X21 on a short and on a long workspace path, in a column of 30. *)
Lemma truncated_cell_has_the_column_width_witness :
  Z.of_nat (String.length (padRight (truncate "~/p" 30) 30)) = 30%Z /\
  Z.of_nat (String.length
              (padRight (truncate "/srv/customers/acme/checkout-service/frontend" 30) 30))
  = 30%Z.
Proof.
  split; apply truncated_cell_has_the_column_width; lia.
Defined.
